(** * BlockGrid: the removal-and-settle engine of the block puzzle

    A shallow embedding of [src/BlockGrid.js].  The grid is an array of
    columns of references to [Block] objects living in an object store;
    the methods of the class become functions on that state which return
    a JavaScript outcome (a value, or a thrown [TypeError]).  The DOM
    side of the class ([render], [resetGrid]) carries no grid logic and
    is left out. *)

From Stdlib Require Import Ascii.
From stdpp Require Import base numbers list strings pretty gmap sets.

Local Open Scope Z_scope.

(** ** Outcomes of running JavaScript code *)

Inductive exn : Type := TypeError.

(** [OutOfFuel] is the only artefact of the embedding: loops are run with
    a step budget, and the theorems below show which budget suffices. *)
Inductive Res (A : Type) : Type :=
| Ok (a : A)
| Throw (e : exn)
| OutOfFuel.
Arguments Ok {A} a.
Arguments Throw {A} e.
Arguments OutOfFuel {A}.

Global Instance Res_ret : MRet Res := λ A a, Ok a.
Global Instance Res_bind : MBind Res := λ A B f m,
  match m with
  | Ok a => f a
  | Throw e => Throw e
  | OutOfFuel => OutOfFuel
  end.

(** [arr.forEach(body)] with the state threaded through the callback. *)
Fixpoint forEachM {A S : Type} (body : S → A → Res S) (s : S) (arr : list A)
  : Res S :=
  match arr with
  | [] => Ok s
  | a :: arr' => s' ← body s a; forEachM body s' arr'
  end.

(** ** JavaScript arrays *)

(** [arr[i]]: [None] stands for [undefined], which is what an index that
    is negative or past the end yields. *)
Definition js_index {A : Type} (arr : list A) (i : Z) : option A :=
  if decide (0 ≤ i) then arr !! Z.to_nat i else None.

(** [arr.push(a)] appends at the end. *)
Definition push {A : Type} (arr : list A) (a : A) : list A := arr ++ [a].

(** [arr.pop()] takes the last element off; [None] on the empty array. *)
Definition pop {A : Type} (arr : list A) : option (A * list A) :=
  match reverse arr with
  | [] => None
  | a :: r => Some (a, reverse r)
  end.

(** ** Data model *)

(** A colour is a string or [null] ([None]). *)
Abbreviation Colour := (option string).

Module Block.
Record t : Type := mk { x : Z; y : Z; colour : Colour }.
End Block.

(** Blocks are objects: the grid holds references into a store. *)
Abbreviation loc := nat.

Record BlockGrid : Type := mkBlockGrid {
  width : Z;
  height : Z;
  grid : list (list loc);
  store : gmap loc Block.t
}.

Definition with_store (g : BlockGrid) (σ : gmap loc Block.t) : BlockGrid :=
  {| width := width g; height := height g; grid := grid g; store := σ |}.

(** ** Cell access *)

(** [this.grid[row][column]]: throws when [this.grid[row]] is undefined,
    and yields [undefined] when only the column index is out of range. *)
Definition gridAt (g : BlockGrid) (row column : Z) : Res (option loc) :=
  match js_index (grid g) row with
  | None => Throw TypeError
  | Some col => Ok (js_index col column)
  end.

(** [this.grid[row][column].colour].  A reference missing from the store
    cannot arise in JavaScript; well-formed grids have none. *)
Definition getColour (g : BlockGrid) (row column : Z) : Res Colour :=
  r ← gridAt g row column;
  match r with
  | None => Throw TypeError
  | Some l =>
      match store g !! l with
      | Some b => Ok (Block.colour b)
      | None => Throw TypeError
      end
  end.

(** [this.grid[row][column].colour = c] *)
Definition setColour (g : BlockGrid) (row column : Z) (c : Colour)
  : Res BlockGrid :=
  r ← gridAt g row column;
  match r with
  | None => Throw TypeError
  | Some l =>
      match store g !! l with
      | Some b =>
          Ok (with_store g
                (<[l := Block.mk (Block.x b) (Block.y b) c]> (store g)))
      | None => Throw TypeError
      end
  end.

Definition withinBoundaries (g : BlockGrid) (row column : Z) : bool :=
  (0 <=? row) && (0 <=? column) && (row <? width g) && (column <? height g).

Definition checkBlockColour (g : BlockGrid) (row column : Z) (colour : Colour)
  : Res bool :=
  c ← getColour g row column;
  Ok (bool_decide (c = colour)).

Definition removeBlock (g : BlockGrid) (row column : Z) : Res BlockGrid :=
  setColour g row column None.

(** ** Connected-component removal *)

(** The key [`${row},${column}`] under which a coordinate is stored in
    [parsedBlocks]. *)
Definition key (row column : Z) : string :=
  pretty row +:+ "," +:+ pretty column.

Definition directionsArray : list (Z * Z) :=
  [(0, 1); (0, -1); (1, 0); (-1, 0)].

(** The variables of [removeConnectedBlocks].  [addLog] is ghost state:
    it records, in order, every call of [parsedBlocks.add]. *)
Record Traversal : Type := mkTraversal {
  this : BlockGrid;
  adjacentBlocks : list (Z * Z);
  parsedBlocks : gset string;
  removedBlockArray : list (Z * Z);
  addLog : list (Z * Z)
}.

(** The body of the [while] loop, after [[row, column]] was popped and
    [rest] was left on the stack. *)
Definition traversalBody (colour : Colour) (t : Traversal)
    (row column : Z) (rest : list (Z * Z)) : Res Traversal :=
  if withinBoundaries (this t) row column
     && negb (bool_decide (key row column ∈ parsedBlocks t))
  then
    let parsed := parsedBlocks t ∪ {[key row column]} in
    let log := addLog t ++ [(row, column)] in
    m ← checkBlockColour (this t) row column colour;
    if (m : bool) then
      g' ← removeBlock (this t) row column;
      Ok {| this := g';
            adjacentBlocks :=
              foldl (λ adj '(xOffset, yOffset),
                       push adj (row + xOffset, column + yOffset))
                    rest directionsArray;
            parsedBlocks := parsed;
            removedBlockArray := push (removedBlockArray t) (row, column);
            addLog := log |}
    else
      Ok {| this := this t; adjacentBlocks := rest; parsedBlocks := parsed;
            removedBlockArray := removedBlockArray t; addLog := log |}
  else
    Ok {| this := this t; adjacentBlocks := rest;
          parsedBlocks := parsedBlocks t;
          removedBlockArray := removedBlockArray t; addLog := addLog t |}.

(** [while (adjacentBlocks.length > 0) { ... }] *)
Fixpoint traversalLoop (fuel : nat) (colour : Colour) (t : Traversal)
  : Res Traversal :=
  match fuel with
  | O => OutOfFuel
  | S fuel' =>
      match pop (adjacentBlocks t) with
      | None => Ok t
      | Some ((row, column), rest) =>
          t' ← traversalBody colour t row column rest;
          traversalLoop fuel' colour t'
      end
  end.

Definition traversalStart (g : BlockGrid) (x y : Z)
    (removed : list (Z * Z)) : Traversal :=
  {| this := g; adjacentBlocks := push [] (x, y); parsedBlocks := ∅;
     removedBlockArray := removed; addLog := [] |}.

(** Returns [this] together with the caller's array, which the method
    extends in place. *)
Definition removeConnectedBlocks (fuel : nat) (g : BlockGrid) (x y : Z)
    (colour : Colour) (removed : list (Z * Z))
  : Res (BlockGrid * list (Z * Z)) :=
  t ← traversalLoop fuel colour (traversalStart g x y removed);
  Ok (this t, removedBlockArray t).

(** ** Column compaction *)

(** [this.grid[x][y].colour === null && this.grid[x][y + 1]], as a truth
    value: the right operand is only evaluated when the left one holds,
    and is truthy exactly when the slot exists. *)
Definition blockBelowIsEmpty (g : BlockGrid) (x y : Z) : Res bool :=
  c ← getColour g x y;
  if bool_decide (c = None) then
    above ← gridAt g x (y + 1);
    Ok (bool_decide (is_Some above))
  else Ok false.

Definition moveBlockDown (g : BlockGrid) (x y : Z) : Res BlockGrid :=
  c ← getColour g x (y + 1);
  g' ← setColour g x y c;
  setColour g' x (y + 1) None.

(** [while (this.blockBelowIsEmpty(x, currentRow)) { ...; currentRow++ }] *)
Fixpoint shiftLoop (fuel : nat) (g : BlockGrid) (x currentRow : Z)
  : Res BlockGrid :=
  match fuel with
  | O => OutOfFuel
  | S fuel' =>
      b ← blockBelowIsEmpty g x currentRow;
      if (b : bool) then
        g' ← moveBlockDown g x currentRow;
        shiftLoop fuel' g' x (currentRow + 1)
      else Ok g
  end.

(** [for (let yPos = this.height - 1; yPos >= 0; yPos--) { ... }] *)
Definition shiftColumn (fuel : nat) (g : BlockGrid) (x : Z) : Res BlockGrid :=
  forEachM (λ g yPos, shiftLoop fuel g x yPos) g
           (reverse (seqZ 0 (height g))).

Definition shiftBlocksDownward (fuel : nat) (g : BlockGrid)
    (removed : list (Z * Z)) : Res BlockGrid :=
  forEachM (λ g '(x, _), shiftColumn fuel g x) g removed.

(** ** Selection *)

(** [blockClicked(event, block)].  The method returns nothing; the model
    hands back the local [removedBlockArray] next to the grid, and the
    empty list when the guard fails and no array is created.  The two
    trailing calls [.resetGrid().render()] only rebuild the DOM. *)
Definition blockClicked (fuel : nat) (g : BlockGrid) (block : loc)
  : Res (BlockGrid * list (Z * Z)) :=
  match store g !! block with
  | None => Throw TypeError
  | Some b =>
      let x := Block.x b in
      let y := Block.y b in
      let colour := Block.colour b in
      if bool_decide (colour ≠ None) then
        '(g1, removed) ← removeConnectedBlocks fuel g x y colour [];
        g2 ← shiftBlocksDownward fuel g1 removed;
        Ok (g2, removed)
      else Ok (g, [])
  end.

(** A click on the element that [render] created for [this.grid[x][y]]:
    its listener is [evt => this.blockClicked(evt, block)] with [block]
    the object at that position. *)
Definition clickAt (fuel : nat) (g : BlockGrid) (x y : Z)
  : Res (BlockGrid * list (Z * Z)) :=
  r ← gridAt g x y;
  match r with
  | None => Throw TypeError
  | Some block => blockClicked fuel g block
  end.

(** ** Construction *)

Section Construction.
(** The colour each new block receives is chosen outside the grid. *)
Variable initialColour : Z → Z → string.

(** Modelled from the spec: [Block.js] (the class [Block]) is not part
    of the sources at hand.  A cell is "identified by an immutable pair
    (x, y) assigned at creation" and holds a colour assigned by an
    external policy. *)
Definition Block_new (x y : Z) : Block.t :=
  Block.mk x y (Some (initialColour x y)).

(** [new Block(x, y)] allocates a fresh object. *)
Definition alloc (b : Block.t) (σ : gmap loc Block.t)
  : loc * gmap loc Block.t :=
  let l := fresh (dom σ) in (l, <[l := b]> σ).

(** The inner loop of the constructor, building one column. *)
Definition newColumn (height x : Z) (σ : gmap loc Block.t)
  : list loc * gmap loc Block.t :=
  foldl (λ '(column, σ) y,
           let '(l, σ') := alloc (Block_new x y) σ in (push column l, σ'))
        ([], σ) (seqZ 0 height).

Definition newGrid (width height : Z) : list (list loc) * gmap loc Block.t :=
  foldl (λ '(grid, σ) x,
           let '(column, σ') := newColumn height x σ in
           (push grid column, σ'))
        ([], ∅) (seqZ 0 width).

(** [constructor(width = 10, height = 10)]; [None] is an omitted
    argument. *)
Definition constructor (width height : option Z) : BlockGrid :=
  let w := default 10 width in
  let h := default 10 height in
  let '(grid, σ) := newGrid w h in
  {| width := w; height := h; grid := grid; store := σ |}.
End Construction.

(** ** Well-formed grids *)

Definition cell_ok (σ : gmap loc Block.t) (i j : nat) (l : loc) : Prop :=
  Block.x <$> σ !! l = Some (Z.of_nat i) ∧
  Block.y <$> σ !! l = Some (Z.of_nat j).

(** What the constructor establishes: [width] columns of [height] distinct
    blocks, each carrying the coordinates of its slot. *)
Record wf (g : BlockGrid) : Prop := mk_wf {
  wf_width : Z.of_nat (length (grid g)) = width g;
  wf_height : Forall (λ col, Z.of_nat (length col) = height g) (grid g);
  wf_nodup : NoDup (concat (grid g));
  wf_cells : ∀ i j col l,
    grid g !! i = Some col → col !! j = Some l → cell_ok (store g) i j l
}.

Definition wfb (g : BlockGrid) : bool :=
  bool_decide (Z.of_nat (length (grid g)) = width g)
  && forallb (λ col, bool_decide (Z.of_nat (length col) = height g)) (grid g)
  && bool_decide (NoDup (concat (grid g)))
  && forallb (λ ic : nat * list loc,
       forallb (λ jl : nat * loc,
                  bool_decide (cell_ok (store g) ic.1 jl.1 jl.2))
               (imap pair ic.2))
       (imap pair (grid g)).

(** The colour stored at a position, when there is one. *)
Definition colourAt (g : BlockGrid) (row column : Z) : option Colour :=
  col ← js_index (grid g) row;
  l ← js_index col column;
  Block.colour <$> store g !! l.

(** The colours of column [x], bottom ([y = 0]) first. *)
Definition columnColours (g : BlockGrid) (x : nat) : list Colour :=
  (λ l, default None (Block.colour <$> store g !! l))
    <$> default [] (grid g !! x).

(** * Specification vocabulary *)

(** ** Structure of the grid *)

(** Two stores hold the same objects with the same coordinates. *)
Definition same_cells (σ σ' : gmap loc Block.t) : Prop :=
  ∀ l, option_Forall2
         (λ b b', Block.x b = Block.x b' ∧ Block.y b = Block.y b')
         (σ !! l) (σ' !! l).

(** [g'] differs from [g] at most in the colours of its blocks. *)
Record same_structure (g g' : BlockGrid) : Prop := mk_same_structure {
  same_width : width g' = width g;
  same_height : height g' = height g;
  same_grid : grid g' = grid g;
  same_store : same_cells (store g) (store g')
}.

(** ** The 4-connected component of a colour *)

(** Orthogonal neighbours: one step up, down, left or right. *)
Definition adjacent (p q : Z * Z) : Prop :=
  Z.abs (q.1 - p.1) + Z.abs (q.2 - p.2) = 1.

Definition matches (g : BlockGrid) (colour : Colour) (p : Z * Z) : Prop :=
  colourAt g p.1 p.2 = Some colour.

Global Instance matches_dec g colour p : Decision (matches g colour p).
Proof. unfold matches. apply _. Defined.

(** The cells reachable from [seed] through adjacent cells of colour
    [colour], the seed included when it has that colour. *)
Inductive component (g : BlockGrid) (colour : Colour) (seed : Z * Z)
  : Z * Z → Prop :=
| component_seed :
    matches g colour seed → component g colour seed seed
| component_step p q :
    component g colour seed p → adjacent p q → matches g colour q →
    component g colour seed q.

(** All coordinates of the grid. *)
Definition cells (g : BlockGrid) : list (Z * Z) :=
  list_prod (seqZ 0 (width g)) (seqZ 0 (height g)).

(** ** The traversal invariant *)

Section TraversalInvariant.
Context (g0 : BlockGrid) (colour : Colour) (seed : Z * Z) (R0 : list (Z * Z)).

(** What holds of the loop variables before every test of the loop
    condition, for a traversal started on [g0] from [seed] with the
    caller's array holding [R0].  [addLog t] lists the cells visited so
    far; those of the wanted colour are the ones cleared so far. *)
Record traversal_inv (t : Traversal) : Prop := mk_traversal_inv {
  inv_wf : wf (this t);
  inv_same : same_structure g0 (this t);
  inv_parsed : ∀ s, s ∈ parsedBlocks t ↔
                    ∃ p, p ∈ addLog t ∧ s = key p.1 p.2;
  inv_nodup : NoDup (addLog t);
  inv_within : ∀ p, p ∈ addLog t → withinBoundaries g0 p.1 p.2 = true;
  inv_removed :
    removedBlockArray t = R0 ++ filter (matches g0 colour) (addLog t);
  inv_cleared : ∀ p, p ∈ addLog t → matches g0 colour p →
                     colourAt (this t) p.1 p.2 = Some None;
  inv_kept : ∀ p, ¬ (p ∈ addLog t ∧ matches g0 colour p) →
                  colourAt (this t) p.1 p.2 = colourAt g0 p.1 p.2;
  inv_stack : ∀ q, q ∈ adjacentBlocks t →
                   q = seed ∨
                   ∃ p, p ∈ addLog t ∧ matches g0 colour p ∧ adjacent p q;
  inv_seed : seed ∈ adjacentBlocks t ∨ seed ∈ addLog t ∨
             withinBoundaries g0 seed.1 seed.2 = false;
  inv_frontier : ∀ p q, p ∈ addLog t → matches g0 colour p → adjacent p q →
                        q ∈ adjacentBlocks t ∨ q ∈ addLog t ∨
                        withinBoundaries g0 q.1 q.2 = false;
  inv_component : ∀ p, p ∈ addLog t → matches g0 colour p →
                       component g0 colour seed p
}.

(** The loop's variant: every iteration pops one coordinate, and only
    the first visit of a cell pushes four. *)
Definition variant (t : Traversal) : nat :=
  (4 * (Z.to_nat (width g0) * Z.to_nat (height g0) - length (addLog t))
   + length (adjacentBlocks t))%nat.
End TraversalInvariant.

Arguments inv_wf {g0 colour seed R0} t _.
Arguments inv_same {g0 colour seed R0} t _.
Arguments inv_parsed {g0 colour seed R0} t _.
Arguments inv_nodup {g0 colour seed R0} t _.
Arguments inv_within {g0 colour seed R0} t _.
Arguments inv_removed {g0 colour seed R0} t _.
Arguments inv_cleared {g0 colour seed R0} t _.
Arguments inv_kept {g0 colour seed R0} t _.
Arguments inv_stack {g0 colour seed R0} t _.
Arguments inv_seed {g0 colour seed R0} t _.
Arguments inv_frontier {g0 colour seed R0} t _.
Arguments inv_component {g0 colour seed R0} t _.

(** ** Gravity *)

(** A column once its blocks have fallen: the colours in their order,
    bottom first, then as many gaps as the column had. *)
Definition settle (column : list Colour) : list Colour :=
  filter (λ c, c ≠ None) column
  ++ replicate (length (filter (λ c, c = None) column)) None.

(** ** Step budgets *)

(** Steps that suffice for both loops of a selection on [g]. *)
Definition budget (g : BlockGrid) : nat :=
  (4 * (Z.to_nat (width g) * Z.to_nat (height g)) + 2
   + Z.to_nat (height g))%nat.

(** A run that ends, normally or by throwing, ends the same way on any
    larger budget. *)
Definition fuel_mono {A : Type} (f : nat → Res A) : Prop :=
  ∀ n m r, f n = r → r ≠ OutOfFuel → (n ≤ m)%nat → f m = r.

(** ** Keys of [parsedBlocks] *)

(** No character of the string is a comma. *)
Fixpoint comma_free (s : string) : bool :=
  match s with
  | EmptyString => true
  | String a s' => negb (bool_decide (a = ","%char)) && comma_free s'
  end.

(** ** Sample grids *)

(** Two columns of three blocks: red, green, red next to a blue column. *)
Definition demoColour (x y : Z) : string :=
  if decide (x = 0) then (if decide (y = 1) then "green" else "red")
  else "blue".

Definition demoGrid : BlockGrid := constructor demoColour (Some 2) (Some 3).

(** [demoGrid] after the removal phase of a click on its bottom-left
    block. *)
Definition demoRemoved : BlockGrid * list (Z * Z) :=
  match removeConnectedBlocks 40 demoGrid 0 0 (Some "red") [] with
  | Ok r => r
  | _ => (demoGrid, [])
  end.

(** [demoGrid] after a click on its top-left block. *)
Definition demoClicked : BlockGrid * list (Z * Z) :=
  match clickAt 40 demoGrid 0 2 with
  | Ok r => r
  | _ => (demoGrid, [])
  end.

(** The grid of the test suite: five red blocks under five green ones in
    column 0, five blue blocks at the bottom of column 1. *)
Definition scenarioColour (x y : Z) : string :=
  if decide (x = 0) then (if decide (y < 5) then "red" else "green")
  else if decide (x = 1 ∧ y < 5) then "blue" else "grey".

Definition scenarioGrid : BlockGrid := constructor scenarioColour None None.

(** ** Vocabulary for the further properties *)

(** No block of the column sits above a gap. *)
Definition no_gap (column : list Colour) : Prop :=
  ∀ (i j : nat) (v : Colour),
    (i < j)%nat → column !! i = Some None → column !! j = Some v → v = None.

(** Column [cx] of [g] with the cells listed in [removed] blanked. *)
Definition blanked (g : BlockGrid) (removed : list (Z * Z)) (cx : nat)
  : list Colour :=
  imap (λ j v, if decide ((Z.of_nat cx, Z.of_nat j) ∈ removed) then None else v)
       (columnColours g cx).

(** The number of cells of the grid that hold a block. *)
Definition blocksLeft (g : BlockGrid) : nat :=
  length (filter (λ p, colourAt g p.1 p.2 ≠ Some None) (cells g)).

(** ** The helpers of the test suite *)

(** [blockArray.forEach(([x, y]) => (blockGrid.grid[x][y].colour = colour))] *)
Definition setBlockArrayColour (g : BlockGrid) (blockArray : list (Z * Z))
    (colour : Colour) : Res BlockGrid :=
  forEachM (λ g '(x, y), setColour g x y colour) g blockArray.

(** Jest's [expect(value)] wraps the value and checks nothing by itself:
    a check only happens when a matcher is called on what it returns. *)
Definition expect (value : bool) : Res unit := Ok tt.

(** [blockArray.forEach(([x, y]) =>
      expect(blockGrid.grid[x][y].colour === colour))] *)
Definition assertBlockColor (g : BlockGrid) (blockArray : list (Z * Z))
    (colour : Colour) : Res unit :=
  forEachM (λ _ '(x, y),
              c ← getColour g x y; expect (bool_decide (c = colour)))
           tt blockArray.

(** ** The page

    What [render], [resetGrid] and the click helper of the tests do to
    the document.  An element is modelled by the attributes this code
    sets: its id, its class, the value assigned to [style.background]
    ([None] when none was), the blocks captured by its click listeners
    and its children.  How a browser parses the assigned background is
    outside the model. *)

Inductive Element : Type :=
  mkElement (id className : string) (background : option Colour)
            (listeners : list loc) (children : list Element).

Definition el_id (e : Element) : string :=
  let 'mkElement id _ _ _ _ := e in id.
Definition el_className (e : Element) : string :=
  let 'mkElement _ className _ _ _ := e in className.
Definition el_background (e : Element) : option Colour :=
  let 'mkElement _ _ background _ _ := e in background.
Definition el_listeners (e : Element) : list loc :=
  let 'mkElement _ _ _ listeners _ := e in listeners.
Definition el_children (e : Element) : list Element :=
  let 'mkElement _ _ _ _ children := e in children.

Definition withChildren (e : Element) (children : list Element) : Element :=
  mkElement (el_id e) (el_className e) (el_background e) (el_listeners e)
            children.

(** [element.appendChild(child)] *)
Definition appendChild (e child : Element) : Element :=
  withChildren e (push (el_children e) child).

(** [`block_${x}x${y}`] and ['col_' + x] *)
Definition blockId (x y : Z) : string :=
  "block_" +:+ pretty x +:+ "x" +:+ pretty y.
Definition columnId (x : Z) : string := "col_" +:+ pretty x.

(** The body of the inner loop of [render]: the element made for the
    block at [(x, y)].  Reading [block.colour] throws when the slot is
    undefined. *)
Definition renderBlock (g : BlockGrid) (x y : Z) : Res Element :=
  r ← gridAt g x y;
  match r with
  | None => Throw TypeError
  | Some block =>
      match store g !! block with
      | Some b =>
          Ok (mkElement (blockId x y) "block" (Some (Block.colour b))
                        [block] [])
      | None => Throw TypeError
      end
  end.

(** One round of the outer loop of [render] on an element that exists:
    the column element with the blocks of column [x], top row first.
    The source appends the column element before it fills it; the
    element being one shared object, the page ends the same. *)
Definition renderColumn (g : BlockGrid) (x : Z) : Res Element :=
  forEachM (λ columnElement y,
              blockElement ← renderBlock g x y;
              Ok (appendChild columnElement blockElement))
           (mkElement (columnId x) "col" None [] [])
           (reverse (seqZ 0 (height g))).

(** [render(element)]; [None] is [null], which is what the default
    argument [document.getElementById('gridEl')] is on a page without
    that element. *)
Definition render (g : BlockGrid) (element : option Element)
  : Res (option Element) :=
  forEachM (λ element x,
              match element with
              | None => Throw TypeError
              | Some e =>
                  columnElement ← renderColumn g x;
                  Ok (Some (appendChild e columnElement))
              end)
           element (seqZ 0 (width g)).

(** [resetGrid()], on the element with id [gridEl] if the page has one:
    [innerHTML = ''] drops its children. *)
Definition resetGrid (gridEl : option Element) : Res (option Element) :=
  match gridEl with
  | None => Throw TypeError
  | Some e => Ok (Some (withChildren e []))
  end.

(** [blockClicked(event, block)] with its two trailing calls
    [.resetGrid().render()] on a page whose element [gridEl] is given. *)
Definition blockClicked_page (fuel : nat) (g : BlockGrid)
    (gridEl : option Element) (block : loc)
  : Res (BlockGrid * option Element * list (Z * Z)) :=
  match store g !! block with
  | None => Throw TypeError
  | Some b =>
      let x := Block.x b in
      let y := Block.y b in
      let colour := Block.colour b in
      if bool_decide (colour ≠ None) then
        '(g1, removed) ← removeConnectedBlocks fuel g x y colour [];
        g2 ← shiftBlocksDownward fuel g1 removed;
        gridEl1 ← resetGrid gridEl;
        gridEl2 ← render g2 gridEl1;
        Ok (g2, gridEl2, removed)
      else Ok (g, gridEl, [])
  end.

(** The first element with the given id, in document order. *)
Fixpoint findById (id : string) (e : Element) : option Element :=
  match e with
  | mkElement eid _ _ _ children =>
      if decide (eid = id) then Some e
      else
        (fix go (l : list Element) : option Element :=
           match l with
           | [] => None
           | child :: l' =>
               match findById id child with
               | Some found => Some found
               | None => go l'
               end
           end) children
  end.

Definition findIn (id : string) (l : list Element) : option Element :=
  (fix go (l : list Element) : option Element :=
     match l with
     | [] => None
     | child :: l' =>
         match findById id child with
         | Some found => Some found
         | None => go l'
         end
     end) l.

(** [document.getElementById(id)] on a page that consists of the element
    [gridEl] and what is below it. *)
Definition getElementById (id : string) (gridEl : option Element)
  : option Element :=
  e ← gridEl; findById id e.

(** [clickBlock(id)] of the tests, [document.getElementById(id).click()]:
    the listeners of the element run in turn.  The removed-lists of the
    listeners that ran are handed back with the final state. *)
Definition clickBlock (fuel : nat) (g : BlockGrid) (gridEl : option Element)
    (id : string)
  : Res (BlockGrid * option Element * list (list (Z * Z))) :=
  match getElementById id gridEl with
  | None => Throw TypeError
  | Some e =>
      forEachM (λ '(g, gridEl, log) block,
                  '(g', gridEl', removed) ← blockClicked_page fuel g gridEl block;
                  Ok (g', gridEl', push log removed))
               (g, gridEl, []) (el_listeners e)
  end.

(** What [render] makes of the block at [(x, y)]. *)
Definition shows (g : BlockGrid) (x y : Z) (e : Element) : Prop :=
  ∃ block v,
    gridAt g x y = Ok (Some block) ∧ colourAt g x y = Some v ∧
    e = mkElement (blockId x y) "block" (Some v) [block] [].

(** No character of the string is [a]. *)
Fixpoint free_of (a : ascii) (s : string) : bool :=
  match s with
  | EmptyString => true
  | String b s' => negb (bool_decide (b = a)) && free_of a s'
  end.


(** ** The slots and cells a selection touches

    The cell storage is [this.grid]; the code reaches it in two steps.
    [this.grid[row][column]] looks a slot up, and [.colour] on what was
    found reads or writes the cell.  The definitions below are those of
    the methods above, word for word, run in a monad that also lists
    every slot looked up and every cell read or written, in order. *)

Inductive Access : Type :=
| Slot (row column : Z)
| Cell (row column : Z).

Global Instance Access_eq_dec : EqDecision Access.
Proof. solve_decision. Defined.

(** What a piece of code did to the storage, and how it ended. *)
Record Run (A : Type) : Type := mkRun {
  accesses : list Access;
  outcome : Res A
}.
Arguments mkRun {A} accesses outcome.
Arguments accesses {A} r.
Arguments outcome {A} r.

(** Code that does not touch the storage. *)
Definition quiet {A : Type} (r : Res A) : Run A :=
  {| accesses := []; outcome := r |}.

Global Instance Run_ret : MRet Run := λ A a, quiet (Ok a).
Global Instance Run_bind : MBind Run := λ A B f m,
  match outcome m with
  | Ok a =>
      {| accesses := accesses m ++ accesses (f a); outcome := outcome (f a) |}
  | Throw e => {| accesses := accesses m; outcome := Throw e |}
  | OutOfFuel => {| accesses := accesses m; outcome := OutOfFuel |}
  end.

Module Logged.

(** [const block = this.grid[x][y]] in [render]: the block a listener
    holds was looked up when the page was drawn, before any click. *)
Definition listenerBlock (g : BlockGrid) (x y : Z) : Run (option loc) :=
  quiet (gridAt g x y).

(** [this.grid[row][column]] *)
Definition gridAt (g : BlockGrid) (row column : Z) : Run (option loc) :=
  {| accesses := [Slot row column]; outcome := gridAt g row column |}.

(** [.colour] on the slot found at [(row, column)]. *)
Definition cell {A : Type} (row column : Z) (r : Res A) : Run A :=
  {| accesses := [Cell row column]; outcome := r |}.

Definition getColour (g : BlockGrid) (row column : Z) : Run Colour :=
  r ← gridAt g row column;
  cell row column
    match r with
    | None => Throw TypeError
    | Some l =>
        match store g !! l with
        | Some b => Ok (Block.colour b)
        | None => Throw TypeError
        end
    end.

Definition setColour (g : BlockGrid) (row column : Z) (c : Colour)
  : Run BlockGrid :=
  r ← gridAt g row column;
  cell row column
    match r with
    | None => Throw TypeError
    | Some l =>
        match store g !! l with
        | Some b =>
            Ok (with_store g
                  (<[l := Block.mk (Block.x b) (Block.y b) c]> (store g)))
        | None => Throw TypeError
        end
    end.

Definition checkBlockColour (g : BlockGrid) (row column : Z) (colour : Colour)
  : Run bool :=
  c ← getColour g row column;
  mret (bool_decide (c = colour)).

Definition removeBlock (g : BlockGrid) (row column : Z) : Run BlockGrid :=
  setColour g row column None.

Definition traversalBody (colour : Colour) (t : Traversal)
    (row column : Z) (rest : list (Z * Z)) : Run Traversal :=
  if withinBoundaries (this t) row column
     && negb (bool_decide (key row column ∈ parsedBlocks t))
  then
    let parsed := parsedBlocks t ∪ {[key row column]} in
    let log := addLog t ++ [(row, column)] in
    m ← checkBlockColour (this t) row column colour;
    if (m : bool) then
      g' ← removeBlock (this t) row column;
      mret {| this := g';
              adjacentBlocks :=
                foldl (λ adj '(xOffset, yOffset),
                         push adj (row + xOffset, column + yOffset))
                      rest directionsArray;
              parsedBlocks := parsed;
              removedBlockArray := push (removedBlockArray t) (row, column);
              addLog := log |}
    else
      mret {| this := this t; adjacentBlocks := rest; parsedBlocks := parsed;
              removedBlockArray := removedBlockArray t; addLog := log |}
  else
    mret {| this := this t; adjacentBlocks := rest;
            parsedBlocks := parsedBlocks t;
            removedBlockArray := removedBlockArray t; addLog := addLog t |}.

Fixpoint traversalLoop (fuel : nat) (colour : Colour) (t : Traversal)
  : Run Traversal :=
  match fuel with
  | O => quiet OutOfFuel
  | S fuel' =>
      match pop (adjacentBlocks t) with
      | None => mret t
      | Some ((row, column), rest) =>
          t' ← traversalBody colour t row column rest;
          traversalLoop fuel' colour t'
      end
  end.

Definition removeConnectedBlocks (fuel : nat) (g : BlockGrid) (x y : Z)
    (colour : Colour) (removed : list (Z * Z))
  : Run (BlockGrid * list (Z * Z)) :=
  t ← traversalLoop fuel colour (traversalStart g x y removed);
  mret (this t, removedBlockArray t).

Definition blockBelowIsEmpty (g : BlockGrid) (x y : Z) : Run bool :=
  c ← getColour g x y;
  if bool_decide (c = None) then
    above ← gridAt g x (y + 1);
    mret (bool_decide (is_Some above))
  else mret false.

Definition moveBlockDown (g : BlockGrid) (x y : Z) : Run BlockGrid :=
  c ← getColour g x (y + 1);
  g' ← setColour g x y c;
  setColour g' x (y + 1) None.

Fixpoint shiftLoop (fuel : nat) (g : BlockGrid) (x currentRow : Z)
  : Run BlockGrid :=
  match fuel with
  | O => quiet OutOfFuel
  | S fuel' =>
      b ← blockBelowIsEmpty g x currentRow;
      if (b : bool) then
        g' ← moveBlockDown g x currentRow;
        shiftLoop fuel' g' x (currentRow + 1)
      else mret g
  end.

Fixpoint forEachM {A S : Type} (body : S → A → Run S) (s : S) (arr : list A)
  : Run S :=
  match arr with
  | [] => mret s
  | a :: arr' => s' ← body s a; forEachM body s' arr'
  end.

Definition shiftColumn (fuel : nat) (g : BlockGrid) (x : Z) : Run BlockGrid :=
  forEachM (λ g yPos, shiftLoop fuel g x yPos) g
           (reverse (seqZ 0 (height g))).

Definition shiftBlocksDownward (fuel : nat) (g : BlockGrid)
    (removed : list (Z * Z)) : Run BlockGrid :=
  forEachM (λ g '(x, _), shiftColumn fuel g x) g removed.

Definition blockClicked (fuel : nat) (g : BlockGrid) (block : loc)
  : Run (BlockGrid * list (Z * Z)) :=
  match store g !! block with
  | None => quiet (Throw TypeError)
  | Some b =>
      let x := Block.x b in
      let y := Block.y b in
      let colour := Block.colour b in
      if bool_decide (colour ≠ None) then
        '(g1, removed) ← removeConnectedBlocks fuel g x y colour [];
        g2 ← shiftBlocksDownward fuel g1 removed;
        mret (g2, removed)
      else mret (g, [])
  end.

Definition clickAt (fuel : nat) (g : BlockGrid) (x y : Z)
  : Run (BlockGrid * list (Z * Z)) :=
  r ← listenerBlock g x y;
  match r with
  | None => quiet (Throw TypeError)
  | Some block => blockClicked fuel g block
  end.

End Logged.

(** An access at coordinates inside [[0, width) × [0, height)]. *)
Definition inside (g : BlockGrid) (a : Access) : Prop :=
  match a with
  | Slot row column | Cell row column => withinBoundaries g row column = true
  end.

(** A cell inside the bounds, or a slot of an existing column at most
    one past its last row. *)
Definition near (g : BlockGrid) (a : Access) : Prop :=
  match a with
  | Slot row column => 0 ≤ row < width g ∧ 0 ≤ column ≤ height g
  | Cell row column => withinBoundaries g row column = true
  end.

(** * Properties *)

(** ** Keys of [parsedBlocks] *)

Lemma pretty_N_go_comma_free (n : N) (s : string) :
  comma_free s = true → comma_free (pretty_N_go n s) = true.
Proof.
  revert s. induction (N.lt_wf_0 n) as [n _ IH]; intros s Hs.
  assert (n = 0 ∨ 0 < n)%N as [->|Hpos] by lia.
  - by rewrite pretty_N_go_0.
  - rewrite pretty_N_go_step by done. apply IH.
    + by apply N.div_lt.
    + simpl. rewrite Hs, andb_true_r.
      unfold pretty_N_char. by repeat case_match.
Qed.

Lemma pretty_Z_comma_free (z : Z) : comma_free (pretty z) = true.
Proof.
  destruct z as [|p|p]; [done| |].
  - unfold pretty, pretty_Z, pretty, pretty_positive, pretty, pretty_N.
    by apply pretty_N_go_comma_free.
  - unfold pretty, pretty_Z, pretty, pretty_positive, pretty, pretty_N.
    simpl. by apply pretty_N_go_comma_free.
Qed.

Lemma comma_split (s1 t1 s2 t2 : string) :
  comma_free s1 = true → comma_free t1 = true →
  s1 +:+ "," +:+ s2 = t1 +:+ "," +:+ t2 → s1 = t1 ∧ s2 = t2.
Proof.
  revert t1. induction s1 as [|a s1 IH]; intros [|b t1] Hs Ht Heq;
    simpl in *.
  - by injection Heq.
  - injection Heq as <- _. by rewrite bool_decide_eq_true_2 in Ht.
  - injection Heq as -> _. by rewrite bool_decide_eq_true_2 in Hs.
  - injection Heq as -> Heq.
    apply andb_true_iff in Hs as [_ Hs]. apply andb_true_iff in Ht as [_ Ht].
    destruct (IH t1 Hs Ht Heq) as [-> ->]. done.
Qed.

Lemma key_inj (r c r' c' : Z) : key r c = key r' c' → r = r' ∧ c = c'.
Proof.
  unfold key. intros Heq.
  apply comma_split in Heq as [Hr Hc]; auto using pretty_Z_comma_free.
  split; by apply (inj pretty).
Qed.

(** ** Arrays *)

Lemma pop_push {A : Type} (arr : list A) (a : A) :
  pop (push arr a) = Some (a, arr).
Proof.
  unfold pop, push. rewrite reverse_app. simpl.
  by rewrite reverse_involutive.
Qed.

Lemma pop_Some {A : Type} (arr rest : list A) (a : A) :
  pop arr = Some (a, rest) → arr = rest ++ [a].
Proof.
  unfold pop. destruct (reverse arr) as [|b r] eqn:Hrev; [done|].
  intros [= -> <-]. rewrite <-(reverse_involutive arr), Hrev.
  by rewrite reverse_cons.
Qed.

Lemma pop_None {A : Type} (arr : list A) : pop arr = None → arr = [].
Proof.
  unfold pop. destruct (reverse arr) as [|b r] eqn:Hrev; [|done].
  intros _. rewrite <-(reverse_involutive arr), Hrev. done.
Qed.

Lemma js_index_Some {A : Type} (arr : list A) (i : Z) (a : A) :
  js_index arr i = Some a ↔ 0 ≤ i ∧ arr !! Z.to_nat i = Some a.
Proof. unfold js_index. case_decide; [tauto|]. split; [done|tauto]. Qed.

Lemma js_index_None {A : Type} (arr : list A) (i : Z) :
  js_index arr i = None ↔ i < 0 ∨ Z.of_nat (length arr) ≤ i.
Proof.
  unfold js_index. case_decide.
  - rewrite lookup_ge_None. lia.
  - split; [lia|done].
Qed.

Lemma js_index_of_nat {A : Type} (arr : list A) (i : nat) :
  js_index arr (Z.of_nat i) = arr !! i.
Proof.
  unfold js_index. rewrite decide_True by lia. by rewrite Nat2Z.id.
Qed.

Lemma concat_lookup_inj {A : Type} (ll : list (list A)) i i' j j' c c' a :
  NoDup (concat ll) →
  ll !! i = Some c → c !! j = Some a →
  ll !! i' = Some c' → c' !! j' = Some a →
  i = i' ∧ j = j'.
Proof.
  revert i i'. induction ll as [|c0 ll IH]; intros i i' Hnd Hi Hj Hi' Hj';
    [done|].
  simpl in Hnd. apply NoDup_app in Hnd as (Hnd0 & Hdisj & Hnd).
  assert (∀ k d, ll !! k = Some d → a ∈ d → a ∈ concat ll) as Hin.
  { intros k d Hk Ha. apply list_elem_of_In, in_concat. exists d.
    split; apply list_elem_of_In; [|done]. by eapply list_elem_of_lookup_2. }
  destruct i as [|i], i' as [|i']; simpl in *; simplify_eq.
  - split; [done|]. exact (NoDup_lookup _ _ _ _ Hnd0 Hj Hj').
  - exfalso. eapply Hdisj; [by eapply list_elem_of_lookup_2|].
    eapply Hin; [done|]. by eapply list_elem_of_lookup_2.
  - exfalso. eapply Hdisj; [by eapply list_elem_of_lookup_2|].
    eapply Hin; [done|]. by eapply list_elem_of_lookup_2.
  - destruct (IH i i') as [-> ->]; auto.
Qed.

(** ** Structure of the grid *)

Lemma same_structure_refl g : same_structure g g.
Proof.
  split; try done. intros l. destruct (store g !! l); by constructor.
Qed.

Lemma same_structure_trans g1 g2 g3 :
  same_structure g1 g2 → same_structure g2 g3 → same_structure g1 g3.
Proof.
  intros [Hw1 Hh1 Hg1 Hs1] [Hw2 Hh2 Hg2 Hs2].
  split; try congruence.
  intros l. specialize (Hs1 l). specialize (Hs2 l).
  destruct Hs1 as [b1 b2 [??]|]; inversion Hs2 as [b2' b3 [??]|];
    simplify_eq; constructor. split; congruence.
Qed.

Lemma same_structure_wf g g' : same_structure g g' → wf g → wf g'.
Proof.
  intros [Hw Hh Hg Hs] [H1 H2 H3 H4].
  split; rewrite ?Hg, ?Hw, ?Hh; try done.
  intros i j col l Hi Hj. destruct (H4 i j col l Hi Hj) as [Hx Hy].
  specialize (Hs l). unfold cell_ok.
  destruct Hs as [b b' [Hbx Hby]|]; simpl in *; [|done].
  by rewrite <-Hbx, <-Hby.
Qed.

Lemma same_structure_within g g' r c :
  same_structure g g' → withinBoundaries g' r c = withinBoundaries g r c.
Proof. intros [Hw Hh _ _]. unfold withinBoundaries. by rewrite Hw, Hh. Qed.

Lemma same_structure_dom g g' :
  same_structure g g' → dom (store g') = dom (store g).
Proof.
  intros [_ _ _ Hs]. apply set_eq. intros l. rewrite !elem_of_dom.
  specialize (Hs l). destruct Hs; split; intros [? ?]; by eauto.
Qed.

Lemma setColour_same_structure g r c v g' :
  setColour g r c v = Ok g' → same_structure g g'.
Proof.
  unfold setColour. destruct (gridAt g r c) as [[l|]| |]; simpl; try done.
  destruct (store g !! l) as [b|] eqn:Hl; [|done].
  intros [= <-]. split; try done. intros l'. simpl.
  destruct (decide (l = l')) as [->|Hne].
  - rewrite lookup_insert_eq, Hl. by constructor.
  - rewrite lookup_insert_ne by done.
    destruct (store g !! l'); by constructor.
Qed.

(** ** Access to well-formed grids *)

Lemma within_iff g r c :
  withinBoundaries g r c = true ↔ (0 ≤ r < width g ∧ 0 ≤ c < height g).
Proof.
  unfold withinBoundaries.
  rewrite !andb_true_iff, !Z.leb_le, !Z.ltb_lt. lia.
Qed.

Lemma getColour_colourAt g r c v :
  getColour g r c = Ok v ↔ colourAt g r c = Some v.
Proof.
  unfold getColour, colourAt, gridAt.
  destruct (js_index (grid g) r) as [col|]; simpl; [|done].
  destruct (js_index col c) as [l|]; simpl; [|done].
  destruct (store g !! l); simpl; [|done]. split; by intros [= ->].
Qed.

Section WellFormed.
Context (g : BlockGrid) (Hwf : wf g).

Lemma wf_column_length (i : nat) (col : list loc) :
  grid g !! i = Some col → Z.of_nat (length col) = height g.
Proof.
  intros Hi. eapply (proj1 (Forall_forall _ _) (wf_height g Hwf)).
  by eapply list_elem_of_lookup_2.
Qed.

Lemma wf_cell_within r c :
  withinBoundaries g r c = true →
  ∃ col l b, js_index (grid g) r = Some col ∧ js_index col c = Some l ∧
             store g !! l = Some b ∧ Block.x b = r ∧ Block.y b = c.
Proof.
  rewrite within_iff. intros [Hr Hc].
  destruct (lookup_lt_is_Some_2 (grid g) (Z.to_nat r)) as [col Hcol].
  { pose proof (wf_width g Hwf). lia. }
  destruct (lookup_lt_is_Some_2 col (Z.to_nat c)) as [l Hl].
  { pose proof (wf_column_length _ _ Hcol). lia. }
  destruct (wf_cells g Hwf _ _ _ _ Hcol Hl) as [Hx Hy].
  destruct (store g !! l) as [b|] eqn:Hb; [|done].
  exists col, l, b. rewrite !js_index_Some.
  simpl in Hx, Hy. injection Hx as Hx. injection Hy as Hy.
  repeat split; try done; lia.
Qed.

Lemma wf_cell_outside r c :
  withinBoundaries g r c = false →
  js_index (grid g) r = None ∨
  ∃ col, js_index (grid g) r = Some col ∧ js_index col c = None.
Proof.
  intros Hout.
  destruct (js_index (grid g) r) as [col|] eqn:Hcol; [right|by left].
  exists col. split; [done|]. apply js_index_None.
  apply js_index_Some in Hcol as [Hr Hcol].
  pose proof (wf_column_length _ _ Hcol) as Hlen.
  apply lookup_lt_Some in Hcol. pose proof (wf_width g Hwf) as Hw.
  destruct (decide (0 ≤ c < height g)) as [Hc|Hc]; [|lia].
  exfalso. assert (withinBoundaries g r c = true); [|congruence].
  apply within_iff. lia.
Qed.

Lemma colourAt_within r c :
  withinBoundaries g r c = true → is_Some (colourAt g r c).
Proof.
  intros Hin. destruct (wf_cell_within r c Hin) as (col&l&b&Hc&Hl&Hb&_).
  unfold colourAt. rewrite Hc. simpl. rewrite Hl. simpl. rewrite Hb. by eexists.
Qed.

Lemma colourAt_outside r c :
  withinBoundaries g r c = false → colourAt g r c = None.
Proof.
  intros Hout. unfold colourAt.
  destruct (wf_cell_outside r c Hout) as [->|(col&->&Hc)]; [done|].
  simpl. by rewrite Hc.
Qed.

Lemma getColour_outside r c :
  withinBoundaries g r c = false → getColour g r c = Throw TypeError.
Proof.
  intros Hout. unfold getColour, gridAt.
  destruct (wf_cell_outside r c Hout) as [->|(col&->&Hc)]; [done|].
  simpl. by rewrite Hc.
Qed.

Lemma setColour_outside r c v :
  withinBoundaries g r c = false → setColour g r c v = Throw TypeError.
Proof.
  intros Hout. unfold setColour, gridAt.
  destruct (wf_cell_outside r c Hout) as [->|(col&->&Hc)]; [done|].
  simpl. by rewrite Hc.
Qed.

Lemma setColour_within r c v :
  withinBoundaries g r c = true →
  ∃ g', setColour g r c v = Ok g' ∧ wf g' ∧ same_structure g g' ∧
        colourAt g' r c = Some v ∧
        ∀ r' c', (r', c') ≠ (r, c) → colourAt g' r' c' = colourAt g r' c'.
Proof.
  intros Hin. destruct (wf_cell_within r c Hin) as (col&l&b&Hc&Hl&Hb&_).
  assert (∃ g', setColour g r c v = Ok g') as [g' Hset].
  { unfold setColour, gridAt. rewrite Hc. simpl. rewrite Hl, Hb.
    by eexists. }
  pose proof (setColour_same_structure _ _ _ _ _ Hset) as Hsame.
  exists g'. split; [done|]. split; [by eapply same_structure_wf|].
  split; [done|].
  unfold setColour, gridAt in Hset. rewrite Hc in Hset. simpl in Hset.
  rewrite Hl, Hb in Hset. injection Hset as <-.
  unfold colourAt. simpl. split.
  - rewrite Hc. simpl. rewrite Hl. simpl. by rewrite lookup_insert_eq.
  - intros r' c' Hne.
    destruct (js_index (grid g) r') as [col'|] eqn:Hc'; simpl; [|done].
    destruct (js_index col' c') as [l'|] eqn:Hl'; simpl; [|done].
    rewrite lookup_insert_ne; [done|]. intros <-.
    apply js_index_Some in Hc as [? Hc], Hl as [? Hl].
    apply js_index_Some in Hc' as [? Hc'], Hl' as [? Hl'].
    destruct (concat_lookup_inj _ _ _ _ _ _ _ _
                (wf_nodup g Hwf) Hc Hl Hc' Hl') as [Hi Hj].
    apply Hne. f_equal; lia.
Qed.
End WellFormed.

(** ** The 4-connected component of a colour *)

Lemma component_matches g colour seed p :
  component g colour seed p → matches g colour p.
Proof. by destruct 1. Qed.

Lemma pushed_neighbours (rest : list (Z * Z)) (row column : Z) :
  foldl (λ adj '(xOffset, yOffset), push adj (row + xOffset, column + yOffset))
        rest directionsArray
  = rest ++ [(row + 0, column + 1); (row + 0, column + -1);
             (row + 1, column + 0); (row + -1, column + 0)].
Proof. unfold push. simpl. by rewrite <-!app_assoc. Qed.

Lemma adjacent_pushed (row column : Z) (q : Z * Z) :
  adjacent (row, column) q ↔
  q ∈ [(row + 0, column + 1); (row + 0, column + -1);
       (row + 1, column + 0); (row + -1, column + 0)].
Proof.
  unfold adjacent. destruct q as [a b]. simpl.
  rewrite !elem_of_cons, elem_of_nil. split.
  - intros H.
    assert ((a = row ∧ (b = column + 1 ∨ b = column - 1)) ∨
            (b = column ∧ (a = row + 1 ∨ a = row - 1))) as Hcases by lia.
    destruct Hcases as [[-> [->| ->]]|[-> [->| ->]]].
    + left. f_equal; lia.
    + right; left. f_equal; lia.
    + right; right; left. f_equal; lia.
    + right; right; right; left. f_equal; lia.
  - intros [H|[H|[H|[H|[]]]]]; injection H as -> ->; lia.
Qed.

Lemma cells_within g p : p ∈ cells g ↔ withinBoundaries g p.1 p.2 = true.
Proof.
  unfold cells. destruct p as [r c]. rewrite list_elem_of_In, in_prod_iff.
  rewrite <-!list_elem_of_In, !elem_of_seqZ, within_iff. simpl. lia.
Qed.

Lemma length_cells g : length (cells g) = (Z.to_nat (width g) * Z.to_nat (height g))%nat.
Proof. unfold cells. by rewrite length_prod, !length_seqZ. Qed.

Lemma within_bound g (l : list (Z * Z)) :
  NoDup l → (∀ p, p ∈ l → withinBoundaries g p.1 p.2 = true) →
  (length l ≤ Z.to_nat (width g) * Z.to_nat (height g))%nat.
Proof.
  intros Hnd Hin. rewrite <-length_cells. apply submseteq_length.
  apply NoDup_submseteq; [done|]. intros p Hp. apply cells_within. auto.
Qed.

(** ** The traversal *)

Section Traversal.
Context (g0 : BlockGrid) (Hwf0 : wf g0).
Context (colour : Colour) (seed : Z * Z) (R0 : list (Z * Z)).

Lemma inv_log_bound t :
  traversal_inv g0 colour seed R0 t →
  (length (addLog t) ≤ Z.to_nat (width g0) * Z.to_nat (height g0))%nat.
Proof. intros Hinv. apply within_bound; by destruct Hinv. Qed.

Lemma traversalStart_inv :
  traversal_inv g0 colour seed R0 (traversalStart g0 seed.1 seed.2 R0).
Proof.
  split; simpl; try done.
  - apply same_structure_refl.
  - intros s. split; [by intros ?%not_elem_of_empty|].
    intros (p & Hp & _). by apply elem_of_nil in Hp.
  - constructor.
  - intros p Hp. by apply elem_of_nil in Hp.
  - by rewrite app_nil_r.
  - intros p Hp. by apply elem_of_nil in Hp.
  - intros q. unfold push. simpl. rewrite list_elem_of_singleton.
    intros ->. left. by destruct seed.
  - left. unfold push. simpl. apply list_elem_of_singleton. by destruct seed.
  - intros p q Hp. by apply elem_of_nil in Hp.
  - intros p Hp. by apply elem_of_nil in Hp.
Qed.

Lemma not_parsed_not_logged t row column :
  traversal_inv g0 colour seed R0 t → key row column ∉ parsedBlocks t →
  (row, column) ∉ addLog t.
Proof.
  intros Hinv Hnot Hin. apply Hnot, (inv_parsed t Hinv).
  by exists (row, column).
Qed.

Lemma parsed_logged t row column :
  traversal_inv g0 colour seed R0 t → key row column ∈ parsedBlocks t →
  (row, column) ∈ addLog t.
Proof.
  intros Hinv Hin. apply (inv_parsed t Hinv) in Hin as ([r c] & Hp & Hk).
  simpl in Hk. apply key_inj in Hk as [-> ->]. done.
Qed.

(** A popped coordinate that is out of bounds or already parsed is
    dropped. *)
Lemma traversalBody_discard t row column rest :
  traversal_inv g0 colour seed R0 t →
  adjacentBlocks t = rest ++ [(row, column)] →
  withinBoundaries (this t) row column
    && negb (bool_decide (key row column ∈ parsedBlocks t)) = false →
  ∃ t', traversalBody colour t row column rest = Ok t' ∧
        traversal_inv g0 colour seed R0 t' ∧ addLog t' = addLog t ∧
        adjacentBlocks t' = rest.
Proof.
  intros Hinv Hstack Hcond. unfold traversalBody. rewrite Hcond.
  eexists. split; [done|]. split; [|done].
  assert ((row, column) ∈ addLog t ∨
          withinBoundaries g0 row column = false) as Hwhy.
  { apply andb_false_iff in Hcond as [Hout|Hseen].
    - right. by rewrite <-(same_structure_within g0 (this t))
        by apply (inv_same t Hinv).
    - left. apply negb_false_iff, bool_decide_eq_true in Hseen.
      by apply parsed_logged. }
  assert (∀ q, q ∈ adjacentBlocks t →
               q ∈ rest ∨ q ∈ addLog t ∨
               withinBoundaries g0 q.1 q.2 = false) as Hmoved.
  { intros q. rewrite Hstack, elem_of_app, list_elem_of_singleton.
    intros [?| ->]; [by left|right]. simpl.
    destruct Hwhy; [by left|by right]. }
  destruct Hinv. split; simpl; try done.
  - intros q Hq. apply inv_stack0. rewrite Hstack. apply elem_of_app. by left.
  - destruct inv_seed0 as [Hs|Hs]; [by apply Hmoved|by right].
  - intros p q Hp Hm Hadj.
    destruct (inv_frontier0 p q Hp Hm Hadj) as [Hs|Hs];
      [by apply Hmoved|by right].
Qed.

(** A first visit marks the cell and, when its colour is the wanted
    one, clears it and pushes its four neighbours. *)
Lemma traversalBody_visit t row column rest :
  traversal_inv g0 colour seed R0 t →
  adjacentBlocks t = rest ++ [(row, column)] →
  withinBoundaries (this t) row column
    && negb (bool_decide (key row column ∈ parsedBlocks t)) = true →
  ∃ t', traversalBody colour t row column rest = Ok t' ∧
        traversal_inv g0 colour seed R0 t' ∧ addLog t' = addLog t ++ [(row, column)] ∧
        (length (adjacentBlocks t') ≤ length rest + 4)%nat.
Proof.
  intros Hinv Hstack Hcond. unfold traversalBody. rewrite Hcond.
  apply andb_true_iff in Hcond as [Hin Hnew].
  apply negb_true_iff, bool_decide_eq_false in Hnew.
  pose proof (not_parsed_not_logged _ _ _ Hinv Hnew) as Hnotlog.
  assert (withinBoundaries g0 row column = true) as Hin0.
  { by rewrite <-(same_structure_within g0 (this t))
      by apply (inv_same t Hinv). }
  assert (colourAt (this t) row column = colourAt g0 row column) as Hsame.
  { apply (inv_kept t Hinv (row, column)). tauto. }
  destruct (colourAt_within g0 Hwf0 row column Hin0) as [v Hv].
  assert (getColour (this t) row column = Ok v) as Hget.
  { apply getColour_colourAt. congruence. }
  assert (∀ s, s ∈ parsedBlocks t ∪ {[key row column]} ↔
               ∃ p, p ∈ addLog t ++ [(row, column)] ∧ s = key p.1 p.2)
    as Hparsed.
  { intros s. rewrite elem_of_union, elem_of_singleton, (inv_parsed t Hinv).
    setoid_rewrite elem_of_app. setoid_rewrite list_elem_of_singleton.
    split.
    - intros [(p & Hp & ->)| ->]; [by eauto|].
      exists (row, column). by eauto.
    - intros (p & [Hp| ->] & ->); [left; by eauto|by right]. }
  assert (NoDup (addLog t ++ [(row, column)])) as Hnd.
  { apply NoDup_app. split; [apply (inv_nodup t Hinv)|].
    split; [|apply NoDup_singleton].
    intros p Hp ->%list_elem_of_singleton. done. }
  assert (∀ p, p ∈ addLog t ++ [(row, column)] →
               withinBoundaries g0 p.1 p.2 = true) as Hwithin.
  { intros p [Hp| ->%list_elem_of_singleton]%elem_of_app; [|done].
    by apply (inv_within t Hinv). }
  assert (∀ q, q ∈ adjacentBlocks t →
               q ∈ rest ∨ q ∈ addLog t ++ [(row, column)]) as Hmoved.
  { intros q. rewrite Hstack, !elem_of_app. tauto. }
  unfold checkBlockColour. rewrite Hget. cbn [mbind Res_bind].
  destruct (decide (v = colour)) as [->|Hne].
  - (* the cell has the wanted colour *)
    rewrite bool_decide_eq_true_2 by done.
    assert (matches g0 colour (row, column)) as Hmatch by done.
    destruct (setColour_within (this t) (inv_wf t Hinv) row column None Hin)
      as (g' & Hset & Hwf' & Hstruct & Hnull & Hother).
    unfold removeBlock. rewrite Hset. cbn [mbind Res_bind].
    rewrite pushed_neighbours.
    eexists. split; [done|]. split; [|split; [done|]]; simpl.
    2:{ rewrite length_app. simpl. lia. }
    split; simpl; try done.
    + eapply same_structure_trans; [apply (inv_same t Hinv)|done].
    + rewrite filter_app, filter_singleton_True by done.
      unfold push. by rewrite (inv_removed t Hinv), app_assoc.
    + intros p [Hp| ->%list_elem_of_singleton]%elem_of_app Hm; [|done].
      rewrite Hother; [by apply (inv_cleared t Hinv)|].
      intros Heq. apply Hnotlog. destruct p. simpl in *. by simplify_eq.
    + intros p Hp. rewrite Hother.
      * apply (inv_kept t Hinv). intros [Hlog Hm]. apply Hp.
        split; [|done]. apply elem_of_app. by left.
      * intros Heq. apply Hp. destruct p. simpl in *. simplify_eq.
        split; [|done]. apply elem_of_app. right. by apply list_elem_of_singleton.
    + intros q [Hq|Hq]%elem_of_app.
      * destruct (inv_stack t Hinv q) as [->|(p & Hp & Hm & Hadj)].
        { rewrite Hstack. apply elem_of_app. by left. }
        { by left. }
        { right. exists p. split; [|done]. apply elem_of_app. by left. }
      * right. exists (row, column). split; [|split; [done|]].
        { apply elem_of_app. right. by apply list_elem_of_singleton. }
        { by apply adjacent_pushed. }
    + destruct (inv_seed t Hinv) as [Hs|[Hs|Hs]].
      * destruct (Hmoved _ Hs) as [?|?]; [|tauto].
        left. apply elem_of_app. by left.
      * right; left. apply elem_of_app. by left.
      * tauto.
    + intros p q [Hp| ->%list_elem_of_singleton]%elem_of_app Hm Hadj.
      * destruct (inv_frontier t Hinv p q Hp Hm Hadj) as [Hs|[Hs|Hs]].
        { destruct (Hmoved _ Hs) as [?|?]; [|tauto].
          left. apply elem_of_app. by left. }
        { right; left. apply elem_of_app. by left. }
        { tauto. }
      * left. apply elem_of_app. right. by apply adjacent_pushed.
    + intros p [Hp| ->%list_elem_of_singleton]%elem_of_app Hm.
      { by apply (inv_component t Hinv). }
      destruct (inv_stack t Hinv (row, column)) as [<-|(p & Hp & Hmp & Hadj)].
      { rewrite Hstack. apply elem_of_app. right. by apply list_elem_of_singleton. }
      { by constructor. }
      { eapply component_step; [|done..]. by apply (inv_component t Hinv). }
  - (* another colour: the cell is only marked *)
    rewrite bool_decide_eq_false_2 by done.
    assert (¬ matches g0 colour (row, column)) as Hmatch.
    { unfold matches. simpl. congruence. }
    eexists. split; [done|]. split; [|split; [done|simpl; lia]].
    split; simpl; try done; try apply Hinv.
    + rewrite filter_app, filter_singleton_False by done.
      by rewrite (inv_removed t Hinv), app_nil_r.
    + intros p [Hp| ->%list_elem_of_singleton]%elem_of_app Hm; [|done].
      by apply (inv_cleared t Hinv).
    + intros p Hp. apply (inv_kept t Hinv). intros [Hlog Hm]. apply Hp.
      split; [|done]. apply elem_of_app. by left.
    + intros q Hq.
      destruct (inv_stack t Hinv q) as [->|(p & Hp & Hm & Hadj)].
      { rewrite Hstack. apply elem_of_app. by left. }
      { by left. }
      { right. exists p. split; [|done]. apply elem_of_app. by left. }
    + destruct (inv_seed t Hinv) as [Hs|[Hs|Hs]].
      * destruct (Hmoved _ Hs) as [?|?]; tauto.
      * right; left. apply elem_of_app. by left.
      * tauto.
    + intros p q [Hp| ->%list_elem_of_singleton]%elem_of_app Hm Hadj; [|done].
      destruct (inv_frontier t Hinv p q Hp Hm Hadj) as [Hs|[Hs|Hs]].
      { destruct (Hmoved _ Hs) as [?|?]; tauto. }
      { right; left. apply elem_of_app. by left. }
      { tauto. }
    + intros p [Hp| ->%list_elem_of_singleton]%elem_of_app Hm; [|done].
      by apply (inv_component t Hinv).
Qed.
End Traversal.

Section TraversalLoop.
Context (g0 : BlockGrid) (Hwf0 : wf g0).
Context (colour : Colour) (seed : Z * Z) (R0 : list (Z * Z)).

(** The loop runs to completion on any budget above its variant. *)
Lemma traversalLoop_total (fuel : nat) (t : Traversal) :
  traversal_inv g0 colour seed R0 t →
  (variant g0 t < fuel)%nat →
  ∃ t', traversalLoop fuel colour t = Ok t' ∧
        traversal_inv g0 colour seed R0 t' ∧ adjacentBlocks t' = [].
Proof.
  revert t. induction fuel as [|fuel IH]; intros t Hinv Hfuel; [lia|].
  simpl. destruct (pop (adjacentBlocks t)) as [[[row column] rest]|] eqn:Hpop.
  - apply pop_Some in Hpop.
    assert (variant g0 t
            = (4 * (Z.to_nat (width g0) * Z.to_nat (height g0)
                    - length (addLog t)) + (length rest + 1))%nat) as Hvar.
    { unfold variant. rewrite Hpop, length_app. simpl. lia. }
    destruct (withinBoundaries (this t) row column
              && negb (bool_decide (key row column ∈ parsedBlocks t)))
      eqn:Hcond.
    + destruct (traversalBody_visit g0 Hwf0 colour seed R0 t row column rest
                  Hinv Hpop Hcond) as (t' & -> & Hinv' & Hlog & Hlen).
      simpl. apply IH; [done|].
      pose proof (inv_log_bound g0 colour seed R0 t' Hinv') as Hbound.
      unfold variant. rewrite Hlog, length_app in *. simpl in *. lia.
    + destruct (traversalBody_discard g0 colour seed R0 t row column rest
                  Hinv Hpop Hcond) as (t' & -> & Hinv' & Hlog & Hstack).
      simpl. apply IH; [done|].
      unfold variant. rewrite Hlog, Hstack. lia.
  - apply pop_None in Hpop. by exists t.
Qed.

Lemma traversal_total (fuel : nat) :
  (4 * (Z.to_nat (width g0) * Z.to_nat (height g0)) + 2 ≤ fuel)%nat →
  ∃ t', traversalLoop fuel colour (traversalStart g0 seed.1 seed.2 R0)
        = Ok t' ∧
        traversal_inv g0 colour seed R0 t' ∧ adjacentBlocks t' = [].
Proof.
  intros Hfuel. apply traversalLoop_total.
  - by apply traversalStart_inv.
  - unfold variant. simpl. lia.
Qed.

(** Once the stack is empty the cleared cells are the whole component. *)
Lemma traversal_complete (t : Traversal) (p : Z * Z) :
  traversal_inv g0 colour seed R0 t → adjacentBlocks t = [] →
  component g0 colour seed p → p ∈ addLog t.
Proof.
  intros Hinv Hempty Hcomp.
  assert (∀ q, matches g0 colour q →
               withinBoundaries g0 q.1 q.2 ≠ false) as Hinside.
  { intros q Hq Hout. apply (colourAt_outside g0 Hwf0) in Hout.
    unfold matches in Hq. congruence. }
  induction Hcomp as [Hm|p q Hp IH Hadj Hm].
  - destruct (inv_seed t Hinv) as [Hs|[Hs|Hs]]; [|done|].
    + rewrite Hempty in Hs. by apply elem_of_nil in Hs.
    + by apply Hinside in Hs.
  - destruct (inv_frontier t Hinv p q IH
                (component_matches _ _ _ _ Hp) Hadj) as [Hs|[Hs|Hs]]; [|done|].
    + rewrite Hempty in Hs. by apply elem_of_nil in Hs.
    + by apply Hinside in Hs.
Qed.
End TraversalLoop.

(** The method as a whole: it returns, having cleared exactly the
    component of the seed and appended it to the caller's array. *)
Lemma removeConnectedBlocks_spec (fuel : nat) (g : BlockGrid) (x y : Z)
    (colour : Colour) (R0 : list (Z * Z)) :
  wf g →
  (4 * (Z.to_nat (width g) * Z.to_nat (height g)) + 2 ≤ fuel)%nat →
  ∃ g' rem,
    removeConnectedBlocks fuel g x y colour R0 = Ok (g', R0 ++ rem) ∧
    wf g' ∧ same_structure g g' ∧ NoDup rem ∧
    (∀ p, p ∈ rem ↔ component g colour (x, y) p) ∧
    (∀ p, p ∈ rem → colourAt g' p.1 p.2 = Some None) ∧
    (∀ p, p ∉ rem → colourAt g' p.1 p.2 = colourAt g p.1 p.2).
Proof.
  intros Hwf Hfuel.
  destruct (traversal_total g Hwf colour (x, y) R0 fuel Hfuel)
    as (t & Hloop & Hinv & Hempty).
  simpl in Hloop. unfold removeConnectedBlocks. rewrite Hloop. simpl.
  exists (this t), (filter (matches g colour) (addLog t)).
  split; [by rewrite (inv_removed t Hinv)|].
  split; [apply Hinv|]. split; [apply Hinv|].
  split; [apply NoDup_filter, Hinv|].
  split; [|split].
  - intros p. rewrite list_elem_of_filter. split.
    + intros [Hm Hp]. by apply (inv_component t Hinv).
    + intros Hc. split; [by eapply component_matches|].
      by eapply traversal_complete.
  - intros p [Hm Hp]%list_elem_of_filter. by apply (inv_cleared t Hinv).
  - intros p Hp. apply (inv_kept t Hinv). intros [Hlog Hm].
    apply Hp, list_elem_of_filter. done.
Qed.

(** ** Columns as lists of colours *)

Lemma gridAt_column g (x j : nat) :
  is_Some (grid g !! x) →
  ∃ r, gridAt g (Z.of_nat x) (Z.of_nat j) = Ok r ∧
       (is_Some r ↔ (j < length (columnColours g x))%nat).
Proof.
  intros [col Hcol]. unfold gridAt, columnColours.
  rewrite js_index_of_nat, Hcol. simpl. eexists. split; [done|].
  rewrite js_index_of_nat, length_fmap. apply lookup_lt_is_Some.
Qed.

Lemma columnColours_lookup g (x j : nat) :
  wf g → columnColours g x !! j = colourAt g (Z.of_nat x) (Z.of_nat j).
Proof.
  intros Hwf.
  unfold columnColours, colourAt. rewrite js_index_of_nat, list_lookup_fmap.
  destruct (grid g !! x) as [col|] eqn:Hcol; simpl; [|done].
  rewrite js_index_of_nat. destruct (col !! j) as [l|] eqn:Hl; simpl; [|done].
  destruct (wf_cells g Hwf _ _ _ _ Hcol Hl) as [Hx _].
  destruct (store g !! l); [done|]. simpl in Hx; done.
Qed.

Section Columns.
Context (g : BlockGrid) (Hwf : wf g).

Lemma columnColours_within (x j : nat) :
  (j < length (columnColours g x))%nat →
  withinBoundaries g (Z.of_nat x) (Z.of_nat j) = true.
Proof.
  intros [v Hv]%lookup_lt_is_Some. rewrite columnColours_lookup in Hv by done.
  destruct (withinBoundaries _ _ _) eqn:Hin; [done|].
  apply (colourAt_outside g Hwf) in Hin. congruence.
Qed.

Lemma columnColours_grid (x j : nat) :
  (j < length (columnColours g x))%nat → is_Some (grid g !! x).
Proof.
  unfold columnColours. destruct (grid g !! x); [by eauto|]. simpl. lia.
Qed.

Lemma length_columnColours (x : nat) :
  (Z.of_nat x < width g) → Z.of_nat (length (columnColours g x)) = height g.
Proof.
  intros Hx. unfold columnColours.
  destruct (lookup_lt_is_Some_2 (grid g) x) as [col Hcol].
  { pose proof (wf_width g Hwf). lia. }
  rewrite Hcol. simpl. rewrite length_fmap. by eapply wf_column_length.
Qed.

Lemma getColour_column (x j : nat) (v : Colour) :
  columnColours g x !! j = Some v →
  getColour g (Z.of_nat x) (Z.of_nat j) = Ok v.
Proof. rewrite columnColours_lookup by done. apply getColour_colourAt. Qed.

Lemma setColour_column (x j : nat) (v : Colour) :
  (j < length (columnColours g x))%nat →
  ∃ g', setColour g (Z.of_nat x) (Z.of_nat j) v = Ok g' ∧ wf g' ∧
        same_structure g g' ∧
        columnColours g' x = <[j := v]> (columnColours g x) ∧
        ∀ x', x' ≠ x → columnColours g' x' = columnColours g x'.
Proof.
  intros Hj. pose proof (columnColours_within x j Hj) as Hin.
  destruct (setColour_within g Hwf _ _ v Hin)
    as (g' & Hset & Hwf' & Hsame & Hnew & Hother).
  exists g'. do 3 (split; [done|]). split.
  - apply list_eq. intros i.
    destruct (decide (i = j)) as [->|Hne].
    + rewrite list_lookup_insert_eq by done.
      by rewrite columnColours_lookup.
    + rewrite list_lookup_insert_ne by done.
      rewrite !columnColours_lookup by done.
      apply Hother. intros [=]; lia.
  - intros x' Hx'. apply list_eq. intros i.
    rewrite !columnColours_lookup by done.
    apply Hother. intros [=]; lia.
Qed.
End Columns.

(** ** Gravity *)

Lemma settle_cons_Some (s : string) (l : list Colour) :
  settle (Some s :: l) = Some s :: settle l.
Proof.
  unfold settle. rewrite filter_cons_True by done.
  by rewrite (filter_cons_False (λ c, c = None)) by done.
Qed.

Lemma settle_cons_None (l : list Colour) :
  settle (None :: l) = settle l ++ [None].
Proof.
  unfold settle. rewrite filter_cons_False by (intros H; by apply H).
  rewrite (filter_cons_True (λ c, c = None)) by done. simpl.
  by rewrite replicate_cons_app, app_assoc.
Qed.

Lemma settle_snoc_None (l : list Colour) :
  settle (l ++ [None]) = settle l ++ [None].
Proof.
  unfold settle. rewrite !filter_app.
  rewrite filter_singleton_False by first [by intros H; apply H|exact []].
  rewrite (filter_singleton_True (λ c, c = None)) by done.
  rewrite app_nil_r, length_app, replicate_add. simpl. by rewrite app_assoc.
Qed.

Lemma length_settle (l : list Colour) : length (settle l) = length l.
Proof.
  induction l as [|[s|] l IH].
  - done.
  - rewrite settle_cons_Some. simpl. by rewrite IH.
  - rewrite settle_cons_None, length_app. simpl. lia.
Qed.

Lemma settle_idemp (l : list Colour) : settle (settle l) = settle l.
Proof.
  induction l as [|[s|] l IH].
  - done.
  - by rewrite !settle_cons_Some, IH.
  - by rewrite settle_cons_None, settle_snoc_None, IH.
Qed.

Lemma settle_empty (l : list Colour) :
  Forall (λ c, c = None) l → settle l = l.
Proof.
  induction 1 as [|c l -> Hall IH]; [done|].
  rewrite settle_cons_None, IH. clear IH.
  induction Hall as [|c l -> _ IH]; [done|]. simpl. by rewrite IH.
Qed.

Lemma insert_middle {A : Type} (pre l : list A) (a v : A) :
  <[length pre := v]> (pre ++ a :: l) = pre ++ v :: l.
Proof.
  replace (length pre) with (length pre + 0)%nat at 1 by lia.
  by rewrite insert_app_r.
Qed.

Lemma insert_middle_next {A : Type} (pre l : list A) (a b v : A) :
  <[S (length pre) := v]> (pre ++ a :: b :: l) = pre ++ a :: v :: l.
Proof.
  replace (S (length pre)) with (length pre + 1)%nat by lia.
  by rewrite insert_app_r.
Qed.

(** [moveBlockDown] copies the colour above into the slot and blanks the
    slot above. *)
Lemma moveBlockDown_column g (x : nat) (pre suf : list Colour) (a b : Colour) :
  wf g → columnColours g x = pre ++ a :: b :: suf →
  ∃ g', moveBlockDown g (Z.of_nat x) (Z.of_nat (length pre)) = Ok g' ∧
        wf g' ∧ same_structure g g' ∧
        columnColours g' x = pre ++ b :: None :: suf ∧
        ∀ x', x' ≠ x → columnColours g' x' = columnColours g x'.
Proof.
  intros Hwf Hcol. unfold moveBlockDown.
  replace (Z.of_nat (length pre) + 1) with (Z.of_nat (S (length pre))) by lia.
  assert (columnColours g x !! S (length pre) = Some b) as Hb.
  { rewrite Hcol, (cons_middle a), app_assoc.
    apply list_lookup_middle. rewrite length_app. simpl. lia. }
  rewrite (getColour_column g Hwf _ _ _ Hb). cbn [mbind Res_bind].
  destruct (setColour_column g Hwf x (length pre) b)
    as (g1 & -> & Hwf1 & Hsame1 & Hcol1 & Hframe1).
  { rewrite Hcol, length_app. simpl. lia. }
  cbn [mbind Res_bind]. rewrite Hcol, insert_middle in Hcol1.
  destruct (setColour_column g1 Hwf1 x (S (length pre)) None)
    as (g2 & -> & Hwf2 & Hsame2 & Hcol2 & Hframe2).
  { rewrite Hcol1, length_app. simpl. lia. }
  rewrite Hcol1, insert_middle_next in Hcol2.
  exists g2. split; [done|]. split; [done|].
  split; [by eapply same_structure_trans|]. split; [done|].
  intros x' Hx'. by rewrite Hframe2, Hframe1.
Qed.

(** The inner loop of [shiftBlocksDownward], started on a gap: the gap
    bubbles to the top of the column, and everything above it comes down
    by one. *)
Lemma shiftLoop_gap (rest : list Colour) :
  ∀ (fuel : nat) g (x : nat) (pre : list Colour),
    wf g → columnColours g x = pre ++ None :: rest →
    (length rest < fuel)%nat →
    ∃ g', shiftLoop fuel g (Z.of_nat x) (Z.of_nat (length pre)) = Ok g' ∧
          wf g' ∧ same_structure g g' ∧
          columnColours g' x = pre ++ rest ++ [None] ∧
          ∀ x', x' ≠ x → columnColours g' x' = columnColours g x'.
Proof.
  induction rest as [|b rest IH]; intros fuel g x pre Hwf Hcol Hfuel;
    (destruct fuel as [|fuel]; [simpl in Hfuel; lia|]); simpl.
  - unfold blockBelowIsEmpty.
    rewrite (getColour_column g Hwf x (length pre) None)
      by (rewrite Hcol; by apply list_lookup_middle).
    cbn [mbind Res_bind]. rewrite bool_decide_eq_true_2 by done.
    replace (Z.of_nat (length pre) + 1) with (Z.of_nat (S (length pre))) by lia.
    destruct (gridAt_column g x (S (length pre))) as (r & -> & Hr).
    { apply (columnColours_grid g x 0). rewrite Hcol, length_app. simpl. lia. }
    cbn [mbind Res_bind].
    rewrite bool_decide_eq_false_2.
    2:{ rewrite Hr, Hcol, length_app. simpl. lia. }
    exists g. split; [done|]. split; [done|].
    split; [apply same_structure_refl|]. by split.
  - unfold blockBelowIsEmpty.
    rewrite (getColour_column g Hwf x (length pre) None)
      by (rewrite Hcol; by apply list_lookup_middle).
    cbn [mbind Res_bind]. rewrite bool_decide_eq_true_2 by done.
    replace (Z.of_nat (length pre) + 1) with (Z.of_nat (S (length pre))) by lia.
    destruct (gridAt_column g x (S (length pre))) as (r & -> & Hr).
    { apply (columnColours_grid g x 0). rewrite Hcol, length_app. simpl. lia. }
    cbn [mbind Res_bind].
    rewrite bool_decide_eq_true_2.
    2:{ rewrite Hr, Hcol, length_app. simpl. lia. }
    destruct (moveBlockDown_column g x pre rest None b Hwf Hcol)
      as (g1 & -> & Hwf1 & Hsame1 & Hcol1 & Hframe1).
    cbn [mbind Res_bind].
    destruct (IH fuel g1 x (pre ++ [b]) Hwf1) as (g2 & Hloop & Hwf2 & Hsame2 & Hcol2 & Hframe2).
    { by rewrite Hcol1, <-app_assoc. }
    { simpl in Hfuel. lia. }
    rewrite length_app in Hloop. simpl in Hloop.
    replace (Z.of_nat (length pre + 1)) with (Z.of_nat (S (length pre)))
      in Hloop by lia.
    rewrite Hloop. exists g2. split; [done|]. split; [done|].
    split; [by eapply same_structure_trans|].
    split; [by rewrite Hcol2, <-app_assoc|].
    intros x' Hx'. by rewrite Hframe2, Hframe1.
Qed.

(** Started on a block, the inner loop does nothing. *)
Lemma shiftLoop_block (fuel : nat) g (x j : nat) (s : string) :
  wf g → columnColours g x !! j = Some (Some s) →
  shiftLoop (S fuel) g (Z.of_nat x) (Z.of_nat j) = Ok g.
Proof.
  intros Hwf Hj. simpl. unfold blockBelowIsEmpty.
  rewrite (getColour_column g Hwf x j (Some s)) by done.
  cbn [mbind Res_bind]. by rewrite bool_decide_eq_false_2.
Qed.

(** The [for] loop of [shiftBlocksDownward] over the rows below
    [length pre], when the rows above have already settled. *)
Lemma shiftColumn_from (fuel : nat) (x : nat) (pre : list Colour) :
  ∀ g (above : list Colour),
    wf g → columnColours g x = pre ++ settle above →
    (length (pre ++ above) ≤ fuel)%nat →
    ∃ g', forEachM (λ g yPos, shiftLoop fuel g (Z.of_nat x) yPos) g
            (reverse (seqZ 0 (Z.of_nat (length pre)))) = Ok g' ∧
          wf g' ∧ same_structure g g' ∧
          columnColours g' x = settle (pre ++ above) ∧
          ∀ x', x' ≠ x → columnColours g' x' = columnColours g x'.
Proof.
  induction pre as [|c pre IH] using rev_ind; intros g above Hwf Hcol Hfuel.
  - simpl. exists g. split; [done|]. split; [done|].
    split; [apply same_structure_refl|]. by split.
  - rewrite !length_app in Hfuel. simpl in Hfuel.
    rewrite length_app. simpl length.
    replace (Z.of_nat (length pre + 1)) with (Z.of_nat (S (length pre))) by lia.
    rewrite seqZ_S, reverse_snoc. simpl forEachM. rewrite Z.add_0_l.
    rewrite <-app_assoc in Hcol. simpl in Hcol.
    destruct c as [s|].
    + destruct fuel as [|fuel']; [lia|].
      rewrite (shiftLoop_block fuel' g x (length pre) s Hwf)
        by (rewrite Hcol; by apply list_lookup_middle).
      cbn [mbind Res_bind].
      destruct (IH g (Some s :: above) Hwf) as (g' & Hloop & Hrest).
      { by rewrite settle_cons_Some. }
      { rewrite length_app. simpl. lia. }
      exists g'. split; [done|]. by rewrite <-app_assoc.
    + destruct (shiftLoop_gap (settle above) fuel g x pre Hwf Hcol)
        as (g1 & -> & Hwf1 & Hsame1 & Hcol1 & Hframe1).
      { rewrite length_settle. lia. }
      cbn [mbind Res_bind].
      destruct (IH g1 (None :: above) Hwf1)
        as (g' & Hloop & Hwf' & Hsame' & Hcol' & Hframe').
      { by rewrite settle_cons_None. }
      { rewrite length_app. simpl. lia. }
      exists g'. split; [done|]. split; [done|].
      split; [by eapply same_structure_trans|].
      split; [by rewrite <-app_assoc|].
      intros x' Hx'. by rewrite Hframe', Hframe1.
Qed.

(** One pass over a column lets all its blocks fall. *)
Lemma shiftColumn_spec (fuel : nat) g (x : nat) :
  wf g → Z.of_nat x < width g → (Z.to_nat (height g) ≤ fuel)%nat →
  ∃ g', shiftColumn fuel g (Z.of_nat x) = Ok g' ∧ wf g' ∧
        same_structure g g' ∧
        columnColours g' x = settle (columnColours g x) ∧
        ∀ x', x' ≠ x → columnColours g' x' = columnColours g x'.
Proof.
  intros Hwf Hx Hfuel. unfold shiftColumn.
  pose proof (length_columnColours g Hwf x Hx) as Hlen. rewrite <-Hlen.
  destruct (shiftColumn_from fuel x (columnColours g x) g [] Hwf)
    as (g' & Hloop & Hrest).
  { by rewrite app_nil_r. }
  { rewrite app_nil_r. lia. }
  exists g'. split; [done|]. by rewrite app_nil_r in Hrest.
Qed.

(** The compaction phase: every column named in the removed-list has
    settled, the others are as they were. *)
Lemma shiftBlocksDownward_spec (fuel : nat) (removed : list (Z * Z)) :
  ∀ g, wf g →
    (∀ p, p ∈ removed → 0 ≤ p.1 < width g) →
    (Z.to_nat (height g) ≤ fuel)%nat →
    ∃ g', shiftBlocksDownward fuel g removed = Ok g' ∧ wf g' ∧
          same_structure g g' ∧
          ∀ x : nat,
            columnColours g' x
            = if decide (Z.of_nat x ∈ removed.*1)
              then settle (columnColours g x) else columnColours g x.
Proof.
  induction removed as [|[x0 y0] removed IH]; intros g Hwf Hcols Hfuel.
  - exists g. split; [done|]. split; [done|].
    split; [apply same_structure_refl|]. intros x.
    rewrite decide_False; [done|]. apply not_elem_of_nil.
  - unfold shiftBlocksDownward. cbn [forEachM].
    assert (0 ≤ x0 < width g) as Hx0.
    { apply (Hcols (x0, y0)). apply elem_of_cons. by left. }
    destruct (shiftColumn_spec fuel g (Z.to_nat x0) Hwf)
      as (g1 & Hshift & Hwf1 & Hsame1 & Hcol1 & Hframe1); [lia|done|].
    rewrite Z2Nat.id in Hshift by lia. rewrite Hshift. cbn [mbind Res_bind].
    destruct (IH g1 Hwf1) as (g' & Hrest & Hwf' & Hsame' & Hcols').
    { intros p Hp. rewrite (same_width _ _ Hsame1). apply Hcols.
      apply elem_of_cons. by right. }
    { by rewrite (same_height _ _ Hsame1). }
    unfold shiftBlocksDownward in Hrest. rewrite Hrest.
    exists g'. split; [done|]. split; [done|].
    split; [by eapply same_structure_trans|].
    intros x. rewrite Hcols'.
    assert (Z.of_nat x ∈ ((x0, y0) :: removed).*1 ↔
            x = Z.to_nat x0 ∨ Z.of_nat x ∈ removed.*1) as Hiff.
    { rewrite fmap_cons, elem_of_cons. simpl.
      split; (intros [?|?]; [left; lia|by right]). }
    destruct (decide (x = Z.to_nat x0)) as [->|Hne];
      [rewrite Hcol1|rewrite Hframe1 by done];
      repeat case_decide; rewrite ?settle_idemp; try done; exfalso; tauto.
Qed.

(** ** The constructor *)

Lemma seqZ_to_nat (m n : Z) : seqZ m n = seqZ m (Z.of_nat (Z.to_nat n)).
Proof. unfold seqZ. by rewrite Nat2Z.id. Qed.

Section ConstructionFacts.
Variable initialColour : Z → Z → string.

(** The inner loop after [n] rounds. *)
Lemma newColumn_spec (x : Z) (σ : gmap loc Block.t) (n : nat) :
  ∃ column σ',
    newColumn initialColour (Z.of_nat n) x σ = (column, σ') ∧
    length column = n ∧ NoDup column ∧
    (∀ j l, column !! j = Some l →
            (l ∉ dom σ) ∧
            σ' !! l = Some (Block_new initialColour x (Z.of_nat j))) ∧
    (∀ l, l ∈ dom σ → σ' !! l = σ !! l) ∧
    (∀ l, l ∈ dom σ' ↔ l ∈ dom σ ∨ l ∈ column).
Proof.
  unfold newColumn. induction n as [|n IH].
  - exists [], σ. simpl. split; [done|]. split; [done|].
    split; [constructor|]. split; [done|]. split; [done|].
    intros l. rewrite elem_of_nil. tauto.
  - destruct IH as (column & σ' & Hrun & Hlen & Hnd & Hnew & Hold & Hdom).
    rewrite seqZ_S, foldl_snoc, Hrun, Z.add_0_l. unfold alloc.
    set (l := fresh (dom σ')).
    assert (l ∉ dom σ') as Hfresh by apply is_fresh.
    exists (push column l),
           (<[l := Block_new initialColour x (Z.of_nat n)]> σ').
    split; [done|]. unfold push.
    split; [rewrite length_app; simpl; lia|].
    split.
    { apply NoDup_app. split; [done|]. split; [|apply NoDup_singleton].
      intros l' Hl' ->%list_elem_of_singleton. apply Hfresh, Hdom. by right. }
    split.
    { intros j l' [[Hj Hl']|[-> <-]]%lookup_snoc_Some.
      - destruct (Hnew j l' Hl') as [Hout Hin]. split; [done|].
        rewrite lookup_insert_ne; [done|]. intros <-.
        apply Hfresh, Hdom. right. by eapply list_elem_of_lookup_2.
      - split.
        + intros Hin. apply Hfresh, Hdom. by left.
        + by rewrite lookup_insert_eq, Hlen. }
    split.
    { intros l' Hl'. rewrite lookup_insert_ne; [by apply Hold|].
      intros <-. apply Hfresh, Hdom. by left. }
    intros l'. rewrite dom_insert_L, elem_of_union, elem_of_singleton.
    rewrite Hdom, elem_of_app, list_elem_of_singleton. tauto.
Qed.

(** The outer loop after [n] rounds. *)
Lemma newGrid_spec (h : Z) (n : nat) :
  ∃ grid σ,
    newGrid initialColour (Z.of_nat n) h = (grid, σ) ∧
    length grid = n ∧
    Forall (λ column, length column = Z.to_nat h) grid ∧
    NoDup (concat grid) ∧
    (∀ i j column l,
       grid !! i = Some column → column !! j = Some l →
       σ !! l = Some (Block_new initialColour (Z.of_nat i) (Z.of_nat j))) ∧
    (∀ l, l ∈ dom σ ↔ l ∈ concat grid).
Proof.
  unfold newGrid. induction n as [|n IH].
  - exists [], ∅. simpl. split; [done|]. split; [done|].
    split; [constructor|]. split; [constructor|]. split; [done|].
    intros l. rewrite dom_empty_L. set_solver.
  - destruct IH as (grid & σ & Hrun & Hlen & Hcols & Hnd & Hcells & Hdom).
    rewrite seqZ_S, foldl_snoc, Hrun, Z.add_0_l.
    destruct (newColumn_spec (Z.of_nat n) σ (Z.to_nat h))
      as (column & σ' & Hcol & Hclen & Hcnd & Hnew & Hold & Hdom').
    unfold newColumn in Hcol |- *. rewrite <-seqZ_to_nat in Hcol. rewrite Hcol.
    exists (push grid column), σ'. split; [done|]. unfold push.
    split; [rewrite length_app; simpl; lia|].
    split; [apply Forall_app; split; [done|by repeat constructor]|].
    split.
    { rewrite concat_app. simpl. rewrite app_nil_r.
      apply NoDup_app. split; [done|]. split; [|done].
      intros l Hl [j Hj]%list_elem_of_lookup_1.
      destruct (Hnew j l Hj) as [Hout _]. by apply Hout, Hdom. }
    split.
    { intros i j c l [[Hi Hc]|[-> <-]]%lookup_snoc_Some Hl.
      - rewrite Hold; [by eapply Hcells|].
        apply Hdom, list_elem_of_In, in_concat. exists c.
        split; apply list_elem_of_In; by eapply list_elem_of_lookup_2.
      - rewrite Hlen. by apply Hnew. }
    intros l. rewrite Hdom', Hdom, concat_app, elem_of_app. simpl.
    by rewrite app_nil_r.
Qed.

Lemma constructor_wf (w h : option Z) :
  0 ≤ default 10 w → 0 ≤ default 10 h →
  wf (constructor initialColour w h).
Proof.
  intros Hw Hh. unfold constructor.
  destruct (newGrid_spec (default 10 h) (Z.to_nat (default 10 w)))
    as (grid & σ & Hrun & Hlen & Hcols & Hnd & Hcells & _).
  rewrite Z2Nat.id in Hrun by done. rewrite Hrun.
  split; simpl.
  - lia.
  - eapply Forall_impl; [done|]. simpl. intros col Hcol. lia.
  - done.
  - intros i j col l Hi Hj. unfold cell_ok.
    by rewrite (Hcells i j col l Hi Hj).
Qed.
End ConstructionFacts.

(** ** Checking well-formedness by computation *)

Lemma wfb_wf (g : BlockGrid) : wfb g = true → wf g.
Proof.
  unfold wfb. rewrite !andb_true_iff, !forallb_forall.
  intros [[[Hw Hh] Hnd] Hcells].
  apply bool_decide_eq_true in Hw, Hnd.
  split; [done| |done|].
  - apply Forall_forall. intros col Hcol.
    eapply bool_decide_eq_true_1, Hh. by apply list_elem_of_In.
  - intros i j col l Hi Hj.
    assert (In (i, col) (imap pair (grid g))) as Hin.
    { apply list_elem_of_In, list_elem_of_lookup. exists i.
      by rewrite list_lookup_imap, Hi. }
    specialize (Hcells _ Hin). simpl in Hcells.
    rewrite forallb_forall in Hcells.
    assert (In (j, l) (imap pair col)) as Hin'.
    { apply list_elem_of_In, list_elem_of_lookup. exists j.
      by rewrite list_lookup_imap, Hj. }
    specialize (Hcells _ Hin'). by apply bool_decide_eq_true in Hcells.
Qed.

(** ** Only colours change *)

Lemma bind_Ok {A B : Type} (m : Res A) (f : A → Res B) (b : B) :
  m ≫= f = Ok b → ∃ a, m = Ok a ∧ f a = Ok b.
Proof. destruct m as [a| |]; simpl; [by eauto|done..]. Qed.

Lemma moveBlockDown_same_structure g x y g' :
  moveBlockDown g x y = Ok g' → same_structure g g'.
Proof.
  unfold moveBlockDown.
  intros (c & _ & (g1 & H1 & H2)%bind_Ok)%bind_Ok.
  eapply same_structure_trans; by eapply setColour_same_structure.
Qed.

Lemma shiftLoop_same_structure (fuel : nat) :
  ∀ g x currentRow g',
    shiftLoop fuel g x currentRow = Ok g' → same_structure g g'.
Proof.
  induction fuel as [|fuel IH]; intros g x currentRow g'; simpl; [done|].
  intros ([] & _ & Hrun)%bind_Ok.
  - apply bind_Ok in Hrun as (g1 & Hmove & Hloop).
    eapply same_structure_trans; [by eapply moveBlockDown_same_structure|].
    by eapply IH.
  - injection Hrun as <-. apply same_structure_refl.
Qed.

Lemma forEachM_same_structure {A : Type} (body : BlockGrid → A → Res BlockGrid)
    (arr : list A) :
  (∀ g a g', body g a = Ok g' → same_structure g g') →
  ∀ g g', forEachM body g arr = Ok g' → same_structure g g'.
Proof.
  intros Hbody. induction arr as [|a arr IH]; intros g g'; simpl.
  - intros [= <-]. apply same_structure_refl.
  - intros (g1 & H1 & H2)%bind_Ok.
    eapply same_structure_trans; [by eapply Hbody|by eapply IH].
Qed.

Lemma shiftBlocksDownward_same_structure fuel g removed g' :
  shiftBlocksDownward fuel g removed = Ok g' → same_structure g g'.
Proof.
  apply forEachM_same_structure. intros g1 [x y] g2.
  apply forEachM_same_structure. intros g3 yPos g4.
  apply shiftLoop_same_structure.
Qed.

Lemma traversalBody_same_structure colour t row column rest t' :
  traversalBody colour t row column rest = Ok t' →
  same_structure (this t) (this t').
Proof.
  unfold traversalBody. case_match.
  - intros ([] & _ & Hrun)%bind_Ok.
    + apply bind_Ok in Hrun as (g1 & Hset & [= <-]). simpl.
      by eapply setColour_same_structure.
    + injection Hrun as <-. apply same_structure_refl.
  - intros [= <-]. apply same_structure_refl.
Qed.

Lemma traversalLoop_same_structure (fuel : nat) colour :
  ∀ t t', traversalLoop fuel colour t = Ok t' →
          same_structure (this t) (this t').
Proof.
  induction fuel as [|fuel IH]; intros t t'; simpl; [done|].
  destruct (pop (adjacentBlocks t)) as [[[row column] rest]|].
  - intros (t1 & Hbody & Hloop)%bind_Ok.
    eapply same_structure_trans;
      [by eapply traversalBody_same_structure|by eapply IH].
  - intros [= <-]. apply same_structure_refl.
Qed.

Lemma removeConnectedBlocks_same_structure fuel g x y colour removed g' rem :
  removeConnectedBlocks fuel g x y colour removed = Ok (g', rem) →
  same_structure g g'.
Proof.
  unfold removeConnectedBlocks. intros (t & Hloop & [= <- <-])%bind_Ok.
  by apply traversalLoop_same_structure in Hloop.
Qed.

Lemma blockClicked_same_structure fuel g block g' removed :
  blockClicked fuel g block = Ok (g', removed) → same_structure g g'.
Proof.
  unfold blockClicked. destruct (store g !! block) as [b|]; [|done].
  case_bool_decide.
  - intros ([g1 rem] & Hremove & (g2 & Hshift & [= <- <-])%bind_Ok)%bind_Ok.
    eapply same_structure_trans;
      [by eapply removeConnectedBlocks_same_structure
      |by eapply shiftBlocksDownward_same_structure].
  - intros [= <- <-]. apply same_structure_refl.
Qed.

Lemma clickAt_same_structure fuel g x y g' removed :
  clickAt fuel g x y = Ok (g', removed) → same_structure g g'.
Proof.
  unfold clickAt. intros ([block|] & _ & Hclick)%bind_Ok; [|done].
  by eapply blockClicked_same_structure.
Qed.

(** ** A whole selection *)

Lemma matches_within g colour p :
  wf g → matches g colour p → withinBoundaries g p.1 p.2 = true.
Proof.
  intros Hwf Hm. destruct (withinBoundaries g p.1 p.2) eqn:Hin; [done|].
  apply (colourAt_outside g Hwf) in Hin. unfold matches in Hm. congruence.
Qed.

(** The click listener reads the block at the position and hands its
    coordinates and colour to [blockClicked]. *)
Lemma clickAt_unfold fuel g x y (v : Colour) :
  wf g → colourAt g x y = Some v →
  clickAt fuel g x y
  = if bool_decide (v ≠ None) then
      '(g1, removed) ← removeConnectedBlocks fuel g x y v [];
      g2 ← shiftBlocksDownward fuel g1 removed;
      Ok (g2, removed)
    else Ok (g, []).
Proof.
  intros Hwf Hv.
  destruct (wf_cell_within g Hwf x y (matches_within g v (x, y) Hwf Hv))
    as (col & l & b & Hcol & Hl & Hb & Hx & Hy).
  unfold colourAt in Hv. rewrite Hcol in Hv. simpl in Hv.
  rewrite Hl in Hv. simpl in Hv. rewrite Hb in Hv. injection Hv as <-.
  unfold clickAt, gridAt. rewrite Hcol. cbn [mbind Res_bind]. rewrite Hl.
  unfold blockClicked. rewrite Hb, Hx, Hy. done.
Qed.

Lemma clickAt_empty fuel g x y :
  wf g → colourAt g x y = Some None → clickAt fuel g x y = Ok (g, []).
Proof.
  intros Hwf Hv. rewrite (clickAt_unfold fuel g x y None Hwf Hv).
  by rewrite bool_decide_eq_false_2 by (intros H; by apply H).
Qed.

Lemma removed_columns g colour seed (removed : list (Z * Z)) :
  wf g → (∀ p, p ∈ removed ↔ component g colour seed p) →
  ∀ p, p ∈ removed → 0 ≤ p.1 < width g.
Proof.
  intros Hwf Hrem p Hp%Hrem%component_matches.
  apply (matches_within g colour p Hwf), within_iff in Hp. tauto.
Qed.

Lemma clickAt_block (fuel : nat) g x y (c : string) :
  wf g → colourAt g x y = Some (Some c) → (budget g ≤ fuel)%nat →
  ∃ g1 g2 removed,
    removeConnectedBlocks fuel g x y (Some c) [] = Ok (g1, removed) ∧
    shiftBlocksDownward fuel g1 removed = Ok g2 ∧
    clickAt fuel g x y = Ok (g2, removed) ∧
    wf g1 ∧ wf g2 ∧ NoDup removed ∧
    (∀ p, p ∈ removed ↔ component g (Some c) (x, y) p) ∧
    (∀ p, p ∈ removed → colourAt g1 p.1 p.2 = Some None) ∧
    (∀ p, p ∉ removed → colourAt g1 p.1 p.2 = colourAt g p.1 p.2) ∧
    (∀ cx : nat,
       columnColours g2 cx
       = if decide (Z.of_nat cx ∈ removed.*1)
         then settle (columnColours g1 cx) else columnColours g1 cx).
Proof.
  intros Hwf Hv Hfuel. unfold budget in Hfuel.
  destruct (removeConnectedBlocks_spec fuel g x y (Some c) [] Hwf)
    as (g1 & removed & Hremove & Hwf1 & Hsame1 & Hnd & Hcomp & Hclear & Hkeep);
    [lia|].
  simpl in Hremove.
  destruct (shiftBlocksDownward_spec fuel removed g1 Hwf1)
    as (g2 & Hshift & Hwf2 & Hsame2 & Hcols).
  { rewrite (same_width _ _ Hsame1). by eapply removed_columns. }
  { rewrite (same_height _ _ Hsame1). lia. }
  exists g1, g2, removed. split; [done|]. split; [done|].
  split; [|done].
  rewrite (clickAt_unfold fuel g x y (Some c) Hwf Hv).
  rewrite bool_decide_eq_true_2 by done.
  rewrite Hremove. cbn [mbind Res_bind]. by rewrite Hshift.
Qed.

(** ** The step budget does not matter

    A run that ends, normally or by throwing, ends the same way on any
    larger budget. *)

Lemma fuel_mono_const {A : Type} (r : Res A) : fuel_mono (λ _, r).
Proof. by intros n m r' <- _ _. Qed.

Lemma fuel_mono_bind {A B : Type} (f : nat → Res A) (k : nat → A → Res B) :
  fuel_mono f → (∀ a, fuel_mono (λ n, k n a)) →
  fuel_mono (λ n, f n ≫= k n).
Proof.
  intros Hf Hk n m r Hrun Hr Hle.
  destruct (f n) as [a|e|] eqn:Hfn; simpl in Hrun.
  - rewrite (Hf n m (Ok a)) by done. simpl. by eapply Hk.
  - rewrite (Hf n m (Throw e)) by done. done.
  - congruence.
Qed.

Lemma shiftLoop_mono g x currentRow :
  fuel_mono (λ fuel, shiftLoop fuel g x currentRow).
Proof.
  intros n. revert g currentRow.
  induction n as [|n IH]; intros g currentRow m r Hrun Hr Hle; simpl in Hrun.
  - congruence.
  - destruct m as [|m]; [lia|]. simpl.
    destruct (blockBelowIsEmpty g x currentRow) as [[]|e|]; simpl in *;
      try done.
    destruct (moveBlockDown g x currentRow) as [g1|e|]; simpl in *; try done.
    eapply IH; [done..|lia].
Qed.

Lemma forEachM_mono {A S : Type} (body : nat → S → A → Res S) (arr : list A) :
  (∀ s a, fuel_mono (λ fuel, body fuel s a)) →
  ∀ s, fuel_mono (λ fuel, forEachM (body fuel) s arr).
Proof.
  intros Hbody. induction arr as [|a arr IH]; intros s; simpl.
  - apply fuel_mono_const.
  - apply (fuel_mono_bind (λ fuel, body fuel s a)
             (λ fuel s', forEachM (body fuel) s' arr)); [apply Hbody|apply IH].
Qed.

Lemma shiftBlocksDownward_mono g removed :
  fuel_mono (λ fuel, shiftBlocksDownward fuel g removed).
Proof.
  unfold shiftBlocksDownward.
  apply (forEachM_mono (λ fuel g '(x, _), shiftColumn fuel g x)).
  intros g1 [x y]. unfold shiftColumn.
  apply (forEachM_mono (λ fuel g yPos, shiftLoop fuel g x yPos)).
  intros g2 yPos. apply shiftLoop_mono.
Qed.

Lemma traversalLoop_mono colour t :
  fuel_mono (λ fuel, traversalLoop fuel colour t).
Proof.
  intros n. revert t.
  induction n as [|n IH]; intros t m r Hrun Hr Hle; simpl in Hrun.
  - congruence.
  - destruct m as [|m]; [lia|]. simpl.
    destruct (pop (adjacentBlocks t)) as [[[row column] rest]|]; [|done].
    destruct (traversalBody colour t row column rest) as [t1|e|];
      simpl in *; try done.
    eapply IH; [done..|lia].
Qed.

Lemma removeConnectedBlocks_mono g x y colour removed :
  fuel_mono (λ fuel, removeConnectedBlocks fuel g x y colour removed).
Proof.
  unfold removeConnectedBlocks.
  apply (fuel_mono_bind
           (λ fuel, traversalLoop fuel colour (traversalStart g x y removed))
           (λ _ t, Ok (this t, removedBlockArray t))).
  - apply traversalLoop_mono.
  - intros t. apply fuel_mono_const.
Qed.

Lemma blockClicked_mono g block :
  fuel_mono (λ fuel, blockClicked fuel g block).
Proof.
  unfold blockClicked. destruct (store g !! block) as [b|];
    [|apply fuel_mono_const].
  case_bool_decide; [|apply fuel_mono_const].
  apply (fuel_mono_bind
           (λ fuel, removeConnectedBlocks fuel g (Block.x b) (Block.y b)
                      (Block.colour b) [])
           (λ fuel '(g1, removed),
              g2 ← shiftBlocksDownward fuel g1 removed; Ok (g2, removed))).
  - apply removeConnectedBlocks_mono.
  - intros [g1 removed].
    apply (fuel_mono_bind (λ fuel, shiftBlocksDownward fuel g1 removed)
             (λ _ g2, Ok (g2, removed))).
    + apply shiftBlocksDownward_mono.
    + intros g2. apply fuel_mono_const.
Qed.

Lemma clickAt_mono g x y : fuel_mono (λ fuel, clickAt fuel g x y).
Proof.
  unfold clickAt. destruct (gridAt g x y) as [[block|]|e|]; simpl;
    try apply fuel_mono_const.
  apply blockClicked_mono.
Qed.

(** A run that succeeds on some budget neither throws nor changes its
    result on another. *)
Lemma fuel_mono_agree {A : Type} (f : nat → Res A) (n m : nat) (a : A) (r : Res A) :
  fuel_mono f → f n = Ok a → f m = r → r ≠ OutOfFuel → r = Ok a.
Proof.
  intros Hf Hn Hm Hr. destruct (Nat.le_ge_cases n m) as [Hle|Hle].
  - rewrite <-Hm. by apply (Hf n m).
  - rewrite <-Hn. symmetry. by apply (Hf m n).
Qed.

(** ** The slots and cells a selection touches *)

(** Listing the accesses changes nothing in what the code computes. *)
Lemma outcome_bind {A B : Type} (m : Run A) (f : A → Run B) :
  outcome (m ≫= f) = outcome m ≫= (λ a, outcome (f a)).
Proof.
  unfold mbind at 1, Run_bind. by destruct (outcome m).
Qed.

Lemma Res_bind_ext {A B : Type} (m : Res A) (f h : A → Res B) :
  (∀ a, f a = h a) → m ≫= f = m ≫= h.
Proof. intros Hfh. destruct m; simpl; by rewrite ?Hfh. Qed.

Lemma accesses_bind {A B : Type} (P : Access → Prop) (m : Run A)
    (f : A → Run B) :
  Forall P (accesses m) →
  (∀ a, outcome m = Ok a → Forall P (accesses (f a))) →
  Forall P (accesses (m ≫= f)).
Proof.
  intros Hm Hf. unfold mbind, Run_bind.
  destruct (outcome m) as [a| |] eqn:Hout; simpl; [|done..].
  apply Forall_app. split; [done|by apply Hf].
Qed.

Lemma getColour_logged g row column :
  outcome (Logged.getColour g row column) = getColour g row column.
Proof.
  unfold Logged.getColour, getColour. rewrite outcome_bind. done.
Qed.

Lemma setColour_logged g row column c :
  outcome (Logged.setColour g row column c) = setColour g row column c.
Proof.
  unfold Logged.setColour, setColour. rewrite outcome_bind. done.
Qed.

Lemma checkBlockColour_logged g row column colour :
  outcome (Logged.checkBlockColour g row column colour)
  = checkBlockColour g row column colour.
Proof.
  unfold Logged.checkBlockColour, checkBlockColour.
  by rewrite outcome_bind, getColour_logged.
Qed.

Lemma traversalBody_logged colour t row column rest :
  outcome (Logged.traversalBody colour t row column rest)
  = traversalBody colour t row column rest.
Proof.
  unfold Logged.traversalBody, traversalBody. case_match; [|done].
  rewrite outcome_bind, checkBlockColour_logged.
  apply Res_bind_ext. intros [|]; [|done].
  unfold Logged.removeBlock, removeBlock.
  by rewrite outcome_bind, setColour_logged.
Qed.

Lemma traversalLoop_logged (fuel : nat) colour :
  ∀ t, outcome (Logged.traversalLoop fuel colour t)
       = traversalLoop fuel colour t.
Proof.
  induction fuel as [|fuel IH]; intros t; simpl; [done|].
  destruct (pop (adjacentBlocks t)) as [[[row column] rest]|]; [|done].
  rewrite outcome_bind, traversalBody_logged.
  by apply Res_bind_ext.
Qed.

Lemma removeConnectedBlocks_logged fuel g x y colour removed :
  outcome (Logged.removeConnectedBlocks fuel g x y colour removed)
  = removeConnectedBlocks fuel g x y colour removed.
Proof.
  unfold Logged.removeConnectedBlocks, removeConnectedBlocks.
  by rewrite outcome_bind, traversalLoop_logged.
Qed.

Lemma blockBelowIsEmpty_logged g x y :
  outcome (Logged.blockBelowIsEmpty g x y) = blockBelowIsEmpty g x y.
Proof.
  unfold Logged.blockBelowIsEmpty, blockBelowIsEmpty.
  rewrite outcome_bind, getColour_logged.
  apply Res_bind_ext. intros c. case_bool_decide; [|done].
  by rewrite outcome_bind.
Qed.

Lemma moveBlockDown_logged g x y :
  outcome (Logged.moveBlockDown g x y) = moveBlockDown g x y.
Proof.
  unfold Logged.moveBlockDown, moveBlockDown.
  rewrite outcome_bind, getColour_logged.
  apply Res_bind_ext. intros c.
  rewrite outcome_bind, setColour_logged.
  apply Res_bind_ext. intros g'. apply setColour_logged.
Qed.

Lemma shiftLoop_logged (fuel : nat) x :
  ∀ g currentRow,
    outcome (Logged.shiftLoop fuel g x currentRow)
    = shiftLoop fuel g x currentRow.
Proof.
  induction fuel as [|fuel IH]; intros g currentRow; simpl; [done|].
  rewrite outcome_bind, blockBelowIsEmpty_logged.
  apply Res_bind_ext. intros [|]; [|done].
  rewrite outcome_bind, moveBlockDown_logged.
  by apply Res_bind_ext.
Qed.

Lemma forEachM_logged {A S : Type} (body : S → A → Run S)
    (body' : S → A → Res S) (arr : list A) :
  (∀ s a, outcome (body s a) = body' s a) →
  ∀ s, outcome (Logged.forEachM body s arr) = forEachM body' s arr.
Proof.
  intros Hbody. induction arr as [|a arr IH]; intros s; simpl; [done|].
  rewrite outcome_bind, Hbody. by apply Res_bind_ext.
Qed.

Lemma shiftColumn_logged fuel g x :
  outcome (Logged.shiftColumn fuel g x) = shiftColumn fuel g x.
Proof.
  apply forEachM_logged. intros g' yPos. apply shiftLoop_logged.
Qed.

Lemma shiftBlocksDownward_logged fuel g removed :
  outcome (Logged.shiftBlocksDownward fuel g removed)
  = shiftBlocksDownward fuel g removed.
Proof.
  apply forEachM_logged. intros g' [x y]. apply shiftColumn_logged.
Qed.

Lemma blockClicked_logged fuel g block :
  outcome (Logged.blockClicked fuel g block) = blockClicked fuel g block.
Proof.
  unfold Logged.blockClicked, blockClicked.
  destruct (store g !! block) as [b|]; [|done].
  case_bool_decide; [|done].
  rewrite outcome_bind, removeConnectedBlocks_logged.
  apply Res_bind_ext. intros [g1 removed].
  by rewrite outcome_bind, shiftBlocksDownward_logged.
Qed.

Lemma clickAt_logged fuel g x y :
  outcome (Logged.clickAt fuel g x y) = clickAt fuel g x y.
Proof.
  unfold Logged.clickAt, clickAt. rewrite outcome_bind.
  unfold Logged.listenerBlock. simpl.
  apply Res_bind_ext. intros [block|]; [|done].
  apply blockClicked_logged.
Qed.

(** Both predicates only depend on the dimensions of the grid. *)
Lemma inside_same_structure g g' a :
  same_structure g g' → inside g' a ↔ inside g a.
Proof.
  intros Hsame. destruct a; simpl;
    by rewrite (same_structure_within g g' _ _ Hsame).
Qed.

Lemma near_same_structure g g' a :
  same_structure g g' → near g' a ↔ near g a.
Proof.
  intros Hsame. destruct a; simpl.
  - by rewrite (same_width _ _ Hsame), (same_height _ _ Hsame).
  - by rewrite (same_structure_within g g' _ _ Hsame).
Qed.

Lemma inside_near g a : inside g a → near g a.
Proof.
  destruct a; simpl; [|done]. rewrite within_iff. lia.
Qed.

(** *** The traversal *)

Lemma getColour_accesses (P : Access → Prop) g row column :
  P (Slot row column) → P (Cell row column) →
  Forall P (accesses (Logged.getColour g row column)).
Proof.
  intros Hslot Hcell. unfold Logged.getColour.
  apply accesses_bind; simpl; by repeat constructor.
Qed.

Lemma setColour_accesses (P : Access → Prop) g row column c :
  P (Slot row column) → P (Cell row column) →
  Forall P (accesses (Logged.setColour g row column c)).
Proof.
  intros Hslot Hcell. unfold Logged.setColour.
  apply accesses_bind; simpl; by repeat constructor.
Qed.

(** A popped coordinate passes [withinBoundaries] before its cell is
    read or written. *)
Lemma traversalBody_accesses colour t row column rest :
  Forall (inside (this t))
         (accesses (Logged.traversalBody colour t row column rest)).
Proof.
  unfold Logged.traversalBody.
  destruct (withinBoundaries (this t) row column) eqn:Hin; simpl;
    [|by constructor].
  case_match; [|by constructor].
  apply accesses_bind.
  - unfold Logged.checkBlockColour. apply accesses_bind.
    + by apply getColour_accesses.
    + intros c _. by constructor.
  - intros [|] _.
    + apply accesses_bind.
      * by apply setColour_accesses.
      * intros g' _. by constructor.
    + by constructor.
Qed.

Lemma traversalLoop_accesses (fuel : nat) colour :
  ∀ t, Forall (inside (this t))
              (accesses (Logged.traversalLoop fuel colour t)).
Proof.
  induction fuel as [|fuel IH]; intros t; simpl; [by constructor|].
  destruct (pop (adjacentBlocks t)) as [[[row column] rest]|];
    [|by constructor].
  apply accesses_bind; [apply traversalBody_accesses|].
  intros t' Hbody. rewrite traversalBody_logged in Hbody.
  apply traversalBody_same_structure in Hbody.
  eapply Forall_impl; [apply IH|].
  intros a. by apply (inside_same_structure (this t) (this t')).
Qed.

Lemma removeConnectedBlocks_accesses fuel g x y colour removed :
  Forall (inside g)
         (accesses (Logged.removeConnectedBlocks fuel g x y colour removed)).
Proof.
  unfold Logged.removeConnectedBlocks. apply accesses_bind.
  - apply (traversalLoop_accesses fuel colour (traversalStart g x y removed)).
  - intros t _. by constructor.
Qed.

(** Only coordinates that passed [withinBoundaries] are pushed on the
    array of removed blocks. *)
Lemma traversalLoop_removed (fuel : nat) colour :
  ∀ t t', traversalLoop fuel colour t = Ok t' →
          ∀ p, p ∈ removedBlockArray t' →
               p ∈ removedBlockArray t
               ∨ withinBoundaries (this t) p.1 p.2 = true.
Proof.
  induction fuel as [|fuel IH]; intros t t'; simpl; [done|].
  destruct (pop (adjacentBlocks t)) as [[[row column] rest]|];
    [|intros [= <-]; by left].
  intros (t1 & Hbody & Hloop)%bind_Ok p Hp.
  pose proof (traversalBody_same_structure _ _ _ _ _ _ Hbody) as Hsame.
  destruct (IH _ _ Hloop p Hp) as [Hp1|Hp1];
    [|right; by rewrite <-(same_structure_within _ _ _ _ Hsame)].
  revert Hbody. unfold traversalBody.
  destruct (withinBoundaries (this t) row column) eqn:Hin; simpl;
    [|intros [= <-]; by left].
  case_match; [|intros [= <-]; by left].
  intros ([|] & _ & Hrun)%bind_Ok.
  - apply bind_Ok in Hrun as (g1 & _ & [= <-]). simpl in Hp1.
    unfold push in Hp1. apply elem_of_app in Hp1 as [Hp1|Hp1]; [by left|].
    apply list_elem_of_singleton in Hp1 as ->. by right.
  - injection Hrun as <-. by left.
Qed.

(** *** The compaction *)

Lemma gridAt_Some_within g row column l :
  wf g → gridAt g row column = Ok (Some l) →
  withinBoundaries g row column = true.
Proof.
  intros Hwf Hat.
  destruct (withinBoundaries g row column) eqn:Hin; [done|].
  unfold gridAt in Hat.
  destruct (wf_cell_outside g Hwf row column Hin) as [Hrow|(col & Hrow & Hc)];
    rewrite Hrow in Hat; [done|]. congruence.
Qed.

(** A truthy test means that the slot above exists. *)
Lemma blockBelowIsEmpty_above g x y :
  wf g → blockBelowIsEmpty g x y = Ok true →
  withinBoundaries g x (y + 1) = true.
Proof.
  intros Hwf. unfold blockBelowIsEmpty.
  intros (c & _ & Hrun)%bind_Ok. case_bool_decide; [|done].
  apply bind_Ok in Hrun as (above & Hat & [= Habove]).
  apply bool_decide_eq_true in Habove as [l ->].
  by eapply gridAt_Some_within.
Qed.

Lemma shiftLoop_accesses (fuel : nat) x :
  ∀ g currentRow,
    wf g → withinBoundaries g x currentRow = true →
    Forall (near g) (accesses (Logged.shiftLoop fuel g x currentRow)).
Proof.
  induction fuel as [|fuel IH]; intros g currentRow Hwf Hin; simpl;
    [by constructor|].
  pose proof Hin as Hin'. apply within_iff in Hin'.
  apply accesses_bind.
  - unfold Logged.blockBelowIsEmpty. apply accesses_bind.
    + by apply getColour_accesses; apply inside_near.
    + intros c _. case_bool_decide; [|by constructor].
      apply accesses_bind; [|intros above _; by constructor].
      simpl. repeat constructor; lia.
  - intros [|] Htest; [|by constructor].
    rewrite blockBelowIsEmpty_logged in Htest.
    pose proof (blockBelowIsEmpty_above g x currentRow Hwf Htest) as Hup.
    apply accesses_bind.
    + unfold Logged.moveBlockDown. apply accesses_bind.
      * by apply getColour_accesses; apply inside_near.
      * intros c _.
        apply accesses_bind;
          [by apply setColour_accesses; apply inside_near|].
        intros g' _. by apply setColour_accesses; apply inside_near.
    + intros g' Hmove. rewrite moveBlockDown_logged in Hmove.
      apply moveBlockDown_same_structure in Hmove.
      eapply Forall_impl.
      * apply IH; [by eapply same_structure_wf|].
        by rewrite (same_structure_within _ _ _ _ Hmove).
      * intros a. by apply (near_same_structure g g').
Qed.

Lemma forEachM_accesses {A S : Type} (P : Access → Prop) (I : S → Prop)
    (body : S → A → Run S) (arr : list A) :
  (∀ s a, a ∈ arr → I s →
          Forall P (accesses (body s a))
          ∧ ∀ s', outcome (body s a) = Ok s' → I s') →
  ∀ s, I s → Forall P (accesses (Logged.forEachM body s arr)).
Proof.
  induction arr as [|a arr IH]; intros Hbody s Hs; simpl; [by constructor|].
  destruct (Hbody s a) as [Hacc Hnext]; [by left|done|].
  apply accesses_bind; [done|].
  intros s' Hrun. apply IH; [|by apply Hnext].
  intros s1 a1 Ha1. apply Hbody. by right.
Qed.

Lemma shiftColumn_accesses fuel g x :
  wf g → 0 ≤ x < width g →
  Forall (near g) (accesses (Logged.shiftColumn fuel g x)).
Proof.
  intros Hwf Hx. unfold Logged.shiftColumn.
  apply (forEachM_accesses (near g) (λ g', wf g' ∧ same_structure g g'));
    [|split; [done|apply same_structure_refl]].
  intros g1 yPos HyPos [Hwf1 Hsame1].
  apply elem_of_reverse, elem_of_seqZ in HyPos.
  split.
  - eapply Forall_impl.
    + apply shiftLoop_accesses; [done|].
      rewrite (same_structure_within _ _ _ _ Hsame1).
      apply within_iff. lia.
    + intros a. by apply (near_same_structure g g1).
  - intros g2 Hrun. rewrite shiftLoop_logged in Hrun.
    apply shiftLoop_same_structure in Hrun.
    split; [by eapply same_structure_wf|by eapply same_structure_trans].
Qed.

Lemma shiftBlocksDownward_accesses fuel g (removed : list (Z * Z)) :
  wf g → (∀ p, p ∈ removed → 0 ≤ p.1 < width g) →
  Forall (near g) (accesses (Logged.shiftBlocksDownward fuel g removed)).
Proof.
  intros Hwf Hcols. unfold Logged.shiftBlocksDownward.
  apply (forEachM_accesses (near g) (λ g', wf g' ∧ same_structure g g'));
    [|split; [done|apply same_structure_refl]].
  intros g1 [x y] Hp [Hwf1 Hsame1]. apply Hcols in Hp. simpl in Hp.
  split.
  - eapply Forall_impl.
    + apply shiftColumn_accesses; [done|].
      by rewrite (same_width _ _ Hsame1).
    + intros a. by apply (near_same_structure g g1).
  - intros g2 Hrun. rewrite shiftColumn_logged in Hrun.
    apply (forEachM_same_structure (λ g yPos, shiftLoop fuel g x yPos))
      in Hrun; [|intros ???; apply shiftLoop_same_structure].
    split; [by eapply same_structure_wf|by eapply same_structure_trans].
Qed.

(** *** A whole selection *)

Lemma blockClicked_accesses fuel g block :
  wf g → Forall (near g) (accesses (Logged.blockClicked fuel g block)).
Proof.
  intros Hwf. unfold Logged.blockClicked.
  destruct (store g !! block) as [b|]; [|by constructor].
  case_bool_decide; [|by constructor].
  apply accesses_bind.
  - eapply Forall_impl; [apply removeConnectedBlocks_accesses|].
    apply inside_near.
  - intros [g1 removed] Hremove.
    rewrite removeConnectedBlocks_logged in Hremove.
    pose proof (removeConnectedBlocks_same_structure _ _ _ _ _ _ _ _ Hremove)
      as Hsame.
    apply accesses_bind; [|intros g2 _; by constructor].
    eapply Forall_impl.
    + apply shiftBlocksDownward_accesses; [by eapply same_structure_wf|].
      intros p Hp. unfold removeConnectedBlocks in Hremove.
      apply bind_Ok in Hremove as (t & Hloop & [= <- <-]).
      destruct (traversalLoop_removed _ _ _ _ Hloop p Hp) as [Hp0|Hp0].
      * by apply elem_of_nil in Hp0.
      * simpl in Hp0. apply within_iff in Hp0.
        rewrite (same_width _ _ Hsame). lia.
    + intros a. by apply (near_same_structure g g1).
Qed.

Lemma clickAt_accesses fuel g x y :
  wf g → Forall (near g) (accesses (Logged.clickAt fuel g x y)).
Proof.
  intros Hwf. unfold Logged.clickAt. apply accesses_bind; [by constructor|].
  intros [block|] _; [by apply blockClicked_accesses|by constructor].
Qed.

(** * Properties stated by the specification *)

(** C1. On a click at an in-bounds cell holding a colour [c], the removal
    phase clears exactly the 4-connected component of colour [c] that
    contains the cell: the removed-list enumerates that component without
    repetition, every cell in it held [c] before the call and is empty
    after the removal phase, and no other cell changes colour during that
    phase.  The click then runs the compaction phase on the result. *)
Theorem removal_clears_component (fuel : nat) (g : BlockGrid) (x y : Z)
    (c : string) :
  wf g → colourAt g x y = Some (Some c) → (budget g ≤ fuel)%nat →
  ∃ g1 g2 removed,
    removeConnectedBlocks fuel g x y (Some c) [] = Ok (g1, removed) ∧
    shiftBlocksDownward fuel g1 removed = Ok g2 ∧
    clickAt fuel g x y = Ok (g2, removed) ∧
    NoDup removed ∧
    (∀ p, p ∈ removed ↔ component g (Some c) (x, y) p) ∧
    (∀ p, p ∈ removed → colourAt g p.1 p.2 = Some (Some c)) ∧
    (∀ p, p ∈ removed → colourAt g1 p.1 p.2 = Some None) ∧
    (∀ p, p ∉ removed → colourAt g1 p.1 p.2 = colourAt g p.1 p.2).
Proof.
  intros Hwf Hv Hfuel.
  destruct (clickAt_block fuel g x y c Hwf Hv Hfuel)
    as (g1 & g2 & removed & Hremove & Hshift & Hclick & _ & _ & Hnd & Hcomp
        & Hclear & Hkeep & _).
  exists g1, g2, removed. do 5 (split; [done|]).
  split; [|by split].
  intros p Hp. by apply (component_matches g (Some c) (x, y)), Hcomp.
Qed.

Lemma removal_clears_component_witness :
  wf demoGrid ∧ colourAt demoGrid 0 0 = Some (Some "red") ∧
  ∃ g1 g2 removed,
    removeConnectedBlocks 40 demoGrid 0 0 (Some "red") [] = Ok (g1, removed) ∧
    shiftBlocksDownward 40 g1 removed = Ok g2 ∧
    clickAt 40 demoGrid 0 0 = Ok (g2, removed) ∧
    NoDup removed ∧
    (∀ p, p ∈ removed ↔ component demoGrid (Some "red") (0, 0) p) ∧
    (∀ p, p ∈ removed → colourAt demoGrid p.1 p.2 = Some (Some "red")) ∧
    (∀ p, p ∈ removed → colourAt g1 p.1 p.2 = Some None) ∧
    (∀ p, p ∉ removed → colourAt g1 p.1 p.2 = colourAt demoGrid p.1 p.2).
Proof.
  assert (wf demoGrid) as Hwf by (apply wfb_wf; vm_compute; reflexivity).
  split; [exact Hwf|]. split; [vm_compute; reflexivity|].
  apply (removal_clears_component 40 demoGrid 0 0 "red" Hwf).
  - vm_compute; reflexivity.
  - vm_compute; lia.
Defined.

(** C2. After the removal phase, the compaction phase returns, and in
    every column that holds a removed cell the surviving colours keep
    their bottom-to-top order with all empty cells above them; such a
    column that was entirely empty stays entirely empty, and the columns
    without a removed cell are unchanged. *)
Theorem compaction_settles_columns (fuel : nat) (g g1 : BlockGrid) (x y : Z)
    (colour : Colour) (removed : list (Z * Z)) :
  wf g → (budget g ≤ fuel)%nat →
  removeConnectedBlocks fuel g x y colour [] = Ok (g1, removed) →
  ∃ g2,
    shiftBlocksDownward fuel g1 removed = Ok g2 ∧
    ∀ cx : nat,
      (Z.of_nat cx ∈ removed.*1 →
       columnColours g2 cx
       = filter (λ c, c ≠ None) (columnColours g1 cx)
         ++ replicate (length (filter (λ c, c = None) (columnColours g1 cx)))
                      None) ∧
      (Z.of_nat cx ∈ removed.*1 →
       Forall (λ c, c = None) (columnColours g1 cx) →
       columnColours g2 cx = columnColours g1 cx) ∧
      (Z.of_nat cx ∉ removed.*1 →
       columnColours g2 cx = columnColours g1 cx).
Proof.
  intros Hwf Hfuel Hremove. unfold budget in Hfuel.
  destruct (removeConnectedBlocks_spec fuel g x y colour [] Hwf)
    as (g1' & rem & Hremove' & Hwf1 & Hsame1 & _ & Hcomp & _); [lia|].
  rewrite Hremove in Hremove'. simpl in Hremove'.
  injection Hremove' as <- <-.
  destruct (shiftBlocksDownward_spec fuel removed g1 Hwf1)
    as (g2 & Hshift & _ & _ & Hcols).
  { rewrite (same_width _ _ Hsame1). by eapply removed_columns. }
  { rewrite (same_height _ _ Hsame1). lia. }
  exists g2. split; [done|]. intros cx. rewrite Hcols.
  split; [|split].
  - intros Hin. by rewrite decide_True.
  - intros Hin Hempty. rewrite decide_True by done.
    by apply settle_empty.
  - intros Hnin. by rewrite decide_False.
Qed.

Lemma compaction_settles_columns_witness :
  ∃ g2,
    shiftBlocksDownward 40 demoRemoved.1 demoRemoved.2 = Ok g2 ∧
    columnColours demoRemoved.1 0 = [None; Some "green"; Some "red"] ∧
    columnColours g2 0 = [Some "green"; Some "red"; None] ∧
    columnColours g2 1 = columnColours demoRemoved.1 1.
Proof.
  destruct (compaction_settles_columns 40 demoGrid demoRemoved.1 0 0
              (Some "red") demoRemoved.2) as (g2 & Hshift & Hcols).
  - apply wfb_wf; vm_compute; reflexivity.
  - vm_compute; lia.
  - vm_compute; reflexivity.
  - exists g2. split; [exact Hshift|]. split; [vm_compute; reflexivity|].
    split.
    + destruct (Hcols 0%nat) as (H0 & _ & _). rewrite H0.
      * vm_compute; reflexivity.
      * vm_compute. apply list_elem_of_here.
    + destruct (Hcols 1%nat) as (_ & _ & H1). apply H1.
      vm_compute. intros Hin. apply list_elem_of_singleton in Hin. lia.
Defined.

(** C3. A click on an in-bounds cell that holds the empty marker returns
    normally, whatever the step budget, with the grid as it was and an
    empty removed-list. *)
Theorem click_on_empty_is_noop (fuel : nat) (g : BlockGrid) (x y : Z) :
  wf g → withinBoundaries g x y = true → colourAt g x y = Some None →
  clickAt fuel g x y = Ok (g, []).
Proof. intros Hwf _ Hv. by apply clickAt_empty. Qed.

Lemma click_on_empty_is_noop_witness :
  colourAt demoClicked.1 0 2 = Some None ∧
  clickAt 0 demoClicked.1 0 2 = Ok (demoClicked.1, []).
Proof.
  split; [vm_compute; reflexivity|].
  apply (click_on_empty_is_noop 0 demoClicked.1 0 2).
  - apply wfb_wf; vm_compute; reflexivity.
  - vm_compute; reflexivity.
  - vm_compute; reflexivity.
Defined.

(** C4. Outside the grid, reading a cell's colour and overwriting it both
    fail: [checkBlockColour] and [removeBlock], like the property accesses
    they are made of, throw instead of returning.  The failure is the
    [TypeError] JavaScript raises on a property access through
    [undefined]. *)
Theorem accessors_fail_out_of_bounds (g : BlockGrid) (row column : Z)
    (colour : Colour) :
  wf g → ¬ (0 ≤ row < width g ∧ 0 ≤ column < height g) →
  getColour g row column = Throw TypeError ∧
  setColour g row column colour = Throw TypeError ∧
  checkBlockColour g row column colour = Throw TypeError ∧
  removeBlock g row column = Throw TypeError.
Proof.
  intros Hwf Hout.
  assert (withinBoundaries g row column = false) as Hout'.
  { destruct (withinBoundaries g row column) eqn:Hin; [|done].
    by apply within_iff in Hin. }
  unfold checkBlockColour, removeBlock.
  rewrite (getColour_outside g Hwf _ _ Hout').
  by rewrite !(setColour_outside g Hwf _ _ _ Hout').
Qed.

Lemma accessors_fail_out_of_bounds_witness :
  (getColour demoGrid 2 0 = Throw TypeError ∧
   setColour demoGrid 2 0 None = Throw TypeError ∧
   checkBlockColour demoGrid 2 0 None = Throw TypeError ∧
   removeBlock demoGrid 2 0 = Throw TypeError) ∧
  (getColour demoGrid 0 (-1) = Throw TypeError ∧
   setColour demoGrid 0 (-1) (Some "red") = Throw TypeError ∧
   checkBlockColour demoGrid 0 (-1) (Some "red") = Throw TypeError ∧
   removeBlock demoGrid 0 (-1) = Throw TypeError).
Proof.
  assert (wf demoGrid) as Hwf by (apply wfb_wf; vm_compute; reflexivity).
  split.
  - apply (accessors_fail_out_of_bounds demoGrid 2 0 None Hwf).
    vm_compute. intros [[_ H] _]. discriminate H.
  - apply (accessors_fail_out_of_bounds demoGrid 0 (-1) (Some "red") Hwf).
    vm_compute. intros [_ [H _]]. by apply H.
Defined.

(** C5. From any seed, and for any colour, the traversal loop ends with
    an empty stack: [4 * width * height + 2] steps always suffice, every
    coordinate is marked as parsed at most once, only coordinates of the
    grid are marked, and so at most [width * height] marks are made. *)
Theorem traversal_terminates (g : BlockGrid) (x y : Z) (colour : Colour)
    (removed : list (Z * Z)) :
  wf g →
  ∃ t,
    (∀ fuel,
       (4 * (Z.to_nat (width g) * Z.to_nat (height g)) + 2 ≤ fuel)%nat →
       traversalLoop fuel colour (traversalStart g x y removed) = Ok t) ∧
    adjacentBlocks t = [] ∧
    NoDup (addLog t) ∧
    (∀ p, p ∈ addLog t → withinBoundaries g p.1 p.2 = true) ∧
    (length (addLog t) ≤ Z.to_nat (width g) * Z.to_nat (height g))%nat.
Proof.
  intros Hwf.
  set (bound := (4 * (Z.to_nat (width g) * Z.to_nat (height g)) + 2)%nat).
  destruct (traversal_total g Hwf colour (x, y) removed bound)
    as (t & Hloop & Hinv & Hempty); [done|].
  cbn [fst snd] in Hloop. exists t. split; [|split; [done|]].
  - intros fuel Hfuel.
    by apply (traversalLoop_mono colour (traversalStart g x y removed)
                bound fuel).
  - split; [apply Hinv|]. split; [apply Hinv|].
    by eapply inv_log_bound.
Qed.

Lemma traversal_terminates_witness :
  ∃ t,
    (∀ fuel,
       (4 * (Z.to_nat (width demoGrid) * Z.to_nat (height demoGrid)) + 2
        ≤ fuel)%nat →
       traversalLoop fuel (Some "blue") (traversalStart demoGrid 1 1 [])
       = Ok t) ∧
    adjacentBlocks t = [] ∧
    NoDup (addLog t) ∧
    (∀ p, p ∈ addLog t → withinBoundaries demoGrid p.1 p.2 = true) ∧
    (length (addLog t)
     ≤ Z.to_nat (width demoGrid) * Z.to_nat (height demoGrid))%nat.
Proof.
  apply (traversal_terminates demoGrid 1 1 (Some "blue") []).
  apply wfb_wf; vm_compute; reflexivity.
Defined.

(** C6, as amended.  During a whole selection (traversal, then
    compaction) on a well-formed grid, every cell that is read or written
    lies inside [[0, width) × [0, height)], and every slot that is looked
    up lies in an existing column at a row between [0] and [height]:
    the only lookups outside the bounds are the probes
    [this.grid[x][y + 1]] of [blockBelowIsEmpty] at the row just past
    the end of the column, whose result is tested and never
    dereferenced.  The traversal on its own, from any seed and for any
    colour, looks up and dereferences only inside the bounds: it filters
    what it pops through [withinBoundaries].  Cell reads and writes
    return only inside the bounds and throw elsewhere, and a selection at
    an in-bounds cell never throws; with [budget g] steps it returns. *)
Theorem resolution_dereferences_in_bounds (g : BlockGrid) (x y : Z) :
  wf g → withinBoundaries g x y = true →
  (∀ fuel, outcome (Logged.clickAt fuel g x y) = clickAt fuel g x y) ∧
  (∀ fuel row column,
     Cell row column ∈ accesses (Logged.clickAt fuel g x y) →
     withinBoundaries g row column = true) ∧
  (∀ fuel row column,
     Slot row column ∈ accesses (Logged.clickAt fuel g x y) →
     0 ≤ row < width g ∧ 0 ≤ column ≤ height g) ∧
  (∀ fuel sx sy colour removed,
     outcome (Logged.removeConnectedBlocks fuel g sx sy colour removed)
     = removeConnectedBlocks fuel g sx sy colour removed ∧
     Forall (inside g)
       (accesses (Logged.removeConnectedBlocks fuel g sx sy colour removed))) ∧
  (∀ g' row column v,
     wf g' → getColour g' row column = Ok v →
     withinBoundaries g' row column = true) ∧
  (∀ g' row column v g'',
     wf g' → setColour g' row column v = Ok g'' →
     withinBoundaries g' row column = true) ∧
  (∀ fuel e, clickAt fuel g x y ≠ Throw e) ∧
  (∀ fuel, (budget g ≤ fuel)%nat →
           ∃ g' removed, clickAt fuel g x y = Ok (g', removed)) ∧
  (∀ fuel sx sy colour removed e,
     removeConnectedBlocks fuel g sx sy colour removed ≠ Throw e).
Proof.
  intros Hwf Hin.
  assert (∀ fuel, (budget g ≤ fuel)%nat →
                  ∃ g' removed, clickAt fuel g x y = Ok (g', removed))
    as Hreturns.
  { intros fuel Hfuel.
    destruct (colourAt_within g Hwf x y Hin) as [[c|] Hv].
    - destruct (clickAt_block fuel g x y c Hwf Hv Hfuel)
        as (g1 & g2 & removed & _ & _ & Hclick & _).
      by eauto.
    - exists g, []. by apply clickAt_empty. }
  split; [intros fuel; apply clickAt_logged|].
  split.
  { intros fuel row column Hcell.
    by apply (proj1 (Forall_forall _ _) (clickAt_accesses fuel g x y Hwf)
                _ Hcell). }
  split.
  { intros fuel row column Hslot.
    by apply (proj1 (Forall_forall _ _) (clickAt_accesses fuel g x y Hwf)
                _ Hslot). }
  split.
  { intros fuel sx sy colour removed.
    split; [apply removeConnectedBlocks_logged
           |apply removeConnectedBlocks_accesses]. }
  split; [|split; [|split; [|split; [done|]]]].
  - intros g' row column v Hwf' Hget.
    destruct (withinBoundaries g' row column) eqn:Hin'; [done|].
    by rewrite (getColour_outside g' Hwf' _ _ Hin') in Hget.
  - intros g' row column v g'' Hwf' Hset.
    destruct (withinBoundaries g' row column) eqn:Hin'; [done|].
    by rewrite (setColour_outside g' Hwf' _ _ _ Hin') in Hset.
  - intros fuel e Hthrow.
    destruct (Hreturns (budget g)) as (g' & removed & Hok); [done|].
    by pose proof (fuel_mono_agree _ _ _ _ _ (clickAt_mono g x y)
                     Hok Hthrow ltac:(done)).
  - intros fuel sx sy colour removed e Hthrow.
    destruct (removeConnectedBlocks_spec
                (4 * (Z.to_nat (width g) * Z.to_nat (height g)) + 2)%nat
                g sx sy colour removed Hwf) as (g' & rem & Hok & _); [done|].
    by pose proof (fuel_mono_agree _ _ _ _ _
                     (removeConnectedBlocks_mono g sx sy colour removed)
                     Hok Hthrow ltac:(done)).
Qed.

Lemma resolution_dereferences_in_bounds_witness :
  (∀ fuel row column,
     Cell row column ∈ accesses (Logged.clickAt fuel demoGrid 1 2) →
     withinBoundaries demoGrid row column = true) ∧
  (∀ fuel row column,
     Slot row column ∈ accesses (Logged.clickAt fuel demoGrid 1 2) →
     0 ≤ row < width demoGrid ∧ 0 ≤ column ≤ height demoGrid) ∧
  (∀ fuel e, clickAt fuel demoGrid 1 2 ≠ Throw e) ∧
  (∀ fuel, (budget demoGrid ≤ fuel)%nat →
           ∃ g' removed, clickAt fuel demoGrid 1 2 = Ok (g', removed)).
Proof.
  destruct (resolution_dereferences_in_bounds demoGrid 1 2)
    as (_ & Hcells & Hslots & _ & _ & _ & Hnever & Hreturns & _).
  - apply wfb_wf; vm_compute; reflexivity.
  - vm_compute; reflexivity.
  - split; [exact Hcells|]. split; [exact Hslots|].
    split; [exact Hnever|exact Hreturns].
Defined.

(** C6 as first stated fails: not every access to the storage stays
    inside the bounds.  A click on the top-left block of [demoGrid]
    clears that block alone; the compaction then finds slot [(0, 2)]
    empty and looks up [this.grid[0][3]], one row past the end of the
    column, to learn that there is nothing to move. *)
Lemma resolution_probes_past_the_column :
  accesses (Logged.clickAt 40 demoGrid 0 2)
  = [Slot 0 2; Cell 0 2; Slot 0 2; Cell 0 2; Slot 1 2; Cell 1 2;
     Slot 0 1; Cell 0 1; Slot 0 2; Cell 0 2; Slot 0 3; Slot 0 1;
     Cell 0 1; Slot 0 0; Cell 0 0] ∧
  outcome (Logged.clickAt 40 demoGrid 0 2) = Ok demoClicked ∧
  withinBoundaries demoGrid 0 3 = false ∧
  ¬ Forall (inside demoGrid) (accesses (Logged.clickAt 40 demoGrid 0 2)).
Proof.
  assert (accesses (Logged.clickAt 40 demoGrid 0 2)
          = [Slot 0 2; Cell 0 2; Slot 0 2; Cell 0 2; Slot 1 2; Cell 1 2;
             Slot 0 1; Cell 0 1; Slot 0 2; Cell 0 2; Slot 0 3; Slot 0 1;
             Cell 0 1; Slot 0 0; Cell 0 0]) as Hrun
    by (vm_compute; reflexivity).
  split; [exact Hrun|]. split; [vm_compute; reflexivity|].
  split; [vm_compute; reflexivity|].
  rewrite Hrun. intros Hall.
  assert (inside demoGrid (Slot 0 3)) as Hprobe.
  { apply (proj1 (Forall_forall _ _) Hall).
    do 10 apply list_elem_of_further. apply list_elem_of_here. }
  vm_compute in Hprobe. discriminate Hprobe.
Qed.

(** C7. Constructing with positive width [W] and height [H], either one
    defaulting to 10 when omitted, yields exactly [W] columns of exactly
    [H] cells, all distinct objects, and the cell stored at [grid[x][y]]
    carries the coordinates [(x, y)].  The class [Block] is modelled from
    the specification. *)
Theorem constructor_builds_grid (initialColour : Z → Z → string)
    (w h : option Z) :
  0 < default 10 w → 0 < default 10 h →
  width (constructor initialColour w h) = default 10 w ∧
  height (constructor initialColour w h) = default 10 h ∧
  length (grid (constructor initialColour w h)) = Z.to_nat (default 10 w) ∧
  Forall (λ column, length column = Z.to_nat (default 10 h))
         (grid (constructor initialColour w h)) ∧
  NoDup (concat (grid (constructor initialColour w h))) ∧
  (∀ (i j : nat) column l,
     grid (constructor initialColour w h) !! i = Some column →
     column !! j = Some l →
     ∃ b, store (constructor initialColour w h) !! l = Some b ∧
          Block.x b = Z.of_nat i ∧ Block.y b = Z.of_nat j).
Proof.
  intros Hw Hh.
  assert (wf (constructor initialColour w h)) as Hwf
    by (apply constructor_wf; lia).
  assert (width (constructor initialColour w h) = default 10 w) as Hwidth.
  { unfold constructor. by destruct (newGrid _ _ _). }
  assert (height (constructor initialColour w h) = default 10 h) as Hheight.
  { unfold constructor. by destruct (newGrid _ _ _). }
  split; [done|]. split; [done|].
  split; [pose proof (wf_width _ Hwf); lia|].
  split.
  { eapply Forall_impl; [apply (wf_height _ Hwf)|]. simpl. intros; lia. }
  split; [apply (wf_nodup _ Hwf)|].
  intros i j column l Hi Hj.
  destruct (wf_cells _ Hwf i j column l Hi Hj) as [Hx Hy].
  destruct (store (constructor initialColour w h) !! l) as [b|]; [|done].
  exists b. simpl in Hx, Hy. by simplify_eq.
Qed.

Lemma constructor_builds_grid_witness :
  (length (grid (constructor demoColour (Some 3) (Some 5))) = 3%nat ∧
   Forall (λ column, length column = 5%nat)
          (grid (constructor demoColour (Some 3) (Some 5)))) ∧
  (length (grid (constructor demoColour None None)) = 10%nat ∧
   Forall (λ column, length column = 10%nat)
          (grid (constructor demoColour None None))).
Proof.
  split.
  - destruct (constructor_builds_grid demoColour (Some 3) (Some 5))
      as (_ & _ & Hcols & Hcells & _); [simpl; lia..|].
    split; [exact Hcols|exact Hcells].
  - destruct (constructor_builds_grid demoColour None None)
      as (_ & _ & Hcols & Hcells & _); [simpl; lia..|].
    split; [exact Hcols|exact Hcells].
Defined.

(** C8. A selection that returns leaves the structure of the grid alone:
    width and height are the same, the arrays hold the same block objects
    at the same positions, the store holds the same objects, and every
    block keeps its coordinates; only colours can differ. *)
Theorem resolution_preserves_structure (fuel : nat) (g g' : BlockGrid)
    (x y : Z) (removed : list (Z * Z)) :
  clickAt fuel g x y = Ok (g', removed) →
  width g' = width g ∧ height g' = height g ∧ grid g' = grid g ∧
  dom (store g') = dom (store g) ∧
  (∀ l b, store g !! l = Some b →
          ∃ b', store g' !! l = Some b' ∧
                Block.x b' = Block.x b ∧ Block.y b' = Block.y b).
Proof.
  intros Hsame%clickAt_same_structure.
  pose proof (same_structure_dom _ _ Hsame) as Hdom.
  destruct Hsame as [Hw Hh Hg Hs]. do 4 (split; [done|]).
  intros l b Hb. specialize (Hs l). rewrite Hb in Hs.
  inversion Hs as [b1 b' [Hx Hy]|]; simplify_eq. by exists b'.
Qed.

Lemma resolution_preserves_structure_witness :
  width demoClicked.1 = width demoGrid ∧
  height demoClicked.1 = height demoGrid ∧
  grid demoClicked.1 = grid demoGrid ∧
  dom (store demoClicked.1) = dom (store demoGrid) ∧
  (∀ l b, store demoGrid !! l = Some b →
          ∃ b', store demoClicked.1 !! l = Some b' ∧
                Block.x b' = Block.x b ∧ Block.y b' = Block.y b).
Proof.
  apply (resolution_preserves_structure 40 demoGrid demoClicked.1 0 2
           demoClicked.2).
  vm_compute; reflexivity.
Defined.

(** C9. If a selection at an in-bounds cell left that cell empty, a second
    selection at the same cell returns an empty removed-list and leaves
    the grid as the first one made it. *)
Theorem second_click_is_noop (fuel fuel' : nat) (g g' : BlockGrid) (x y : Z)
    (removed : list (Z * Z)) :
  wf g → withinBoundaries g x y = true →
  clickAt fuel g x y = Ok (g', removed) →
  colourAt g' x y = Some None →
  clickAt fuel' g' x y = Ok (g', []).
Proof.
  intros Hwf _ Hclick Hempty. apply clickAt_empty; [|done].
  eapply same_structure_wf; [|done]. by eapply clickAt_same_structure.
Qed.

Lemma second_click_is_noop_witness :
  clickAt 40 demoGrid 0 2 = Ok (demoClicked.1, demoClicked.2) ∧
  clickAt 40 demoClicked.1 0 2 = Ok (demoClicked.1, []).
Proof.
  assert (clickAt 40 demoGrid 0 2 = Ok (demoClicked.1, demoClicked.2))
    as Hfirst by (vm_compute; reflexivity).
  split; [exact Hfirst|].
  apply (second_click_is_noop 40 40 demoGrid demoClicked.1 0 2 demoClicked.2).
  - apply wfb_wf; vm_compute; reflexivity.
  - vm_compute; reflexivity.
  - exact Hfirst.
  - vm_compute; reflexivity.
Defined.

(** C10. Started directly on a seed outside the grid, with any colour,
    [removeConnectedBlocks] returns after popping the seed: the grid is
    the one it was given and nothing is added to the removed-list, which
    stays empty when it was. *)
Theorem out_of_bounds_seed_is_noop (fuel : nat) (g : BlockGrid) (x y : Z)
    (colour : Colour) (removed : list (Z * Z)) :
  withinBoundaries g x y = false → (2 ≤ fuel)%nat →
  removeConnectedBlocks fuel g x y colour removed = Ok (g, removed).
Proof.
  intros Hout Hfuel. destruct fuel as [|[|fuel]]; [lia..|].
  unfold removeConnectedBlocks, traversalStart. simpl.
  unfold traversalBody. simpl. by rewrite Hout.
Qed.

Lemma out_of_bounds_seed_is_noop_witness :
  removeConnectedBlocks 2 demoGrid (-1) 0 (Some "red") [] = Ok (demoGrid, []) ∧
  removeConnectedBlocks 2 demoGrid 0 3 None [] = Ok (demoGrid, []).
Proof.
  split.
  - apply (out_of_bounds_seed_is_noop 2 demoGrid (-1) 0 (Some "red") []).
    + vm_compute; reflexivity.
    + lia.
  - apply (out_of_bounds_seed_is_noop 2 demoGrid 0 3 None []).
    + vm_compute; reflexivity.
    + lia.
Defined.

(** ** The scenario of the test suite *)

(** Clicking the bottom-left block of [scenarioGrid] removes the five red
    blocks of column 0, drops the five green ones into their place and
    leaves the blue blocks of column 1 alone. *)
Example scenario_click :
  ∃ g',
    clickAt 500 scenarioGrid 0 0
    = Ok (g', [(0, 0); (0, 1); (0, 2); (0, 3); (0, 4)]) ∧
    columnColours g' 0
    = replicate 5 (Some "green"%string) ++ replicate 5 None ∧
    columnColours g' 1 = columnColours scenarioGrid 1.
Proof.
  destruct (clickAt 500 scenarioGrid 0 0) as [[g' removed]|e|] eqn:Hclick;
    [|by vm_compute in Hclick..].
  exists g'. revert Hclick. vm_compute. intros [= <- <-]. done.
Qed.

(** ** Sample runs *)

Example key_example : key (-1) 12 = "-1,12"%string.
Proof. vm_compute. reflexivity. Qed.

(** The red block at the bottom of column 0 of [demoGrid] has no red
    neighbour: a click removes it alone and the two blocks above fall. *)
Example demo_click :
  ∃ g',
    clickAt 40 demoGrid 0 0 = Ok (g', [(0, 0)]) ∧
    columnColours g' 0 = [Some "green"; Some "red"; None]%string ∧
    columnColours g' 1 = [Some "blue"; Some "blue"; Some "blue"]%string.
Proof.
  destruct (clickAt 40 demoGrid 0 0) as [[g' removed]|e|] eqn:Hclick;
    [|by vm_compute in Hclick..].
  exists g'. revert Hclick. vm_compute. intros [= <- <-]. done.
Qed.

(** The traversal of that click visits the seed, its two in-bounds
    neighbours, and nothing else; the neighbours are marked but kept. *)
Example demo_traversal :
  ∃ t,
    traversalLoop 40 (Some "red"%string) (traversalStart demoGrid 0 0 []) = Ok t ∧
    addLog t = [(0, 0); (1, 0); (0, 1)] ∧
    removedBlockArray t = [(0, 0)] ∧
    adjacentBlocks t = [].
Proof.
  destruct (traversalLoop 40 (Some "red"%string) (traversalStart demoGrid 0 0 []))
    as [t|e|] eqn:Hrun; [|by vm_compute in Hrun..].
  exists t. revert Hrun. vm_compute. intros [= <-]. done.
Qed.

(** * Further properties of the grid operations *)

(** ** Single cells *)

(** X1. On an in-bounds cell [removeBlock] returns; it blanks that cell
    and nothing else: every other cell keeps its colour and the arrays
    are the same.  Afterwards [checkBlockColour] answers [true] for [null]
    and [false] for every colour at that cell. *)
Theorem removeBlock_clears_one_cell (g : BlockGrid) (row column : Z) :
  wf g → withinBoundaries g row column = true →
  ∃ g',
    removeBlock g row column = Ok g' ∧ wf g' ∧ grid g' = grid g ∧
    colourAt g' row column = Some None ∧
    (∀ r c, (r, c) ≠ (row, column) → colourAt g' r c = colourAt g r c) ∧
    checkBlockColour g' row column None = Ok true ∧
    (∀ s, checkBlockColour g' row column (Some s) = Ok false).
Proof.
  intros Hwf Hin. unfold removeBlock.
  destruct (setColour_within g Hwf row column None Hin)
    as (g' & Hset & Hwf' & Hsame & Hnew & Hother).
  exists g'. split; [done|]. split; [done|].
  split; [apply (same_grid _ _ Hsame)|]. split; [done|]. split; [done|].
  apply getColour_colourAt in Hnew. unfold checkBlockColour. rewrite Hnew.
  split; [done|]. by intros s.
Qed.

Lemma removeBlock_clears_one_cell_witness :
  ∃ g',
    removeBlock demoGrid 0 1 = Ok g' ∧ wf g' ∧ grid g' = grid demoGrid ∧
    colourAt g' 0 1 = Some None ∧
    (∀ r c, (r, c) ≠ (0, 1) → colourAt g' r c = colourAt demoGrid r c) ∧
    checkBlockColour g' 0 1 None = Ok true ∧
    (∀ s, checkBlockColour g' 0 1 (Some s) = Ok false).
Proof.
  apply (removeBlock_clears_one_cell demoGrid 0 1).
  - apply wfb_wf; vm_compute; reflexivity.
  - vm_compute; reflexivity.
Defined.

Lemma colourAt_coordinates g r c v :
  wf g → colourAt g r c = Some v →
  0 ≤ r < width g ∧ 0 ≤ c < height g.
Proof.
  intros Hwf Hv. apply within_iff.
  destruct (withinBoundaries g r c) eqn:Hin; [done|].
  apply (colourAt_outside g Hwf) in Hin. congruence.
Qed.

Lemma gridAt_probe g x y :
  wf g → 0 ≤ x < width g → 0 ≤ y →
  ∃ r, gridAt g x y = Ok r ∧ (is_Some r ↔ y < height g).
Proof.
  intros Hwf Hx Hy.
  destruct (gridAt_column g (Z.to_nat x) (Z.to_nat y)) as (r & Hr & Hsome).
  { apply lookup_lt_is_Some_2. pose proof (wf_width g Hwf). lia. }
  rewrite !Z2Nat.id in Hr by lia. exists r. split; [done|].
  rewrite Hsome.
  pose proof (length_columnColours g Hwf (Z.to_nat x)) as Hlen. lia.
Qed.

(** X2. Despite its name, [blockBelowIsEmpty(x, y)] looks at the slot
    [(x, y)] itself: it is truthy exactly when that slot is empty and is
    not the top one, whatever the slot above holds.  On the top row it is
    falsy rather than an error; outside the grid it throws. *)
Theorem blockBelowIsEmpty_tests_the_slot (g : BlockGrid) (x y : Z) :
  wf g →
  (withinBoundaries g x y = false →
   blockBelowIsEmpty g x y = Throw TypeError) ∧
  (∀ v, colourAt g x y = Some v →
        blockBelowIsEmpty g x y
        = Ok (bool_decide (v = None ∧ y + 1 < height g))).
Proof.
  intros Hwf. split.
  - intros Hout. unfold blockBelowIsEmpty.
    by rewrite (getColour_outside g Hwf _ _ Hout).
  - intros v Hv. unfold blockBelowIsEmpty.
    destruct (colourAt_coordinates g x y v Hwf Hv) as [Hx Hy].
    apply getColour_colourAt in Hv. rewrite Hv. cbn [mbind Res_bind].
    destruct v as [s|].
    + rewrite bool_decide_eq_false_2 by done.
      by rewrite bool_decide_eq_false_2 by (by intros [? _]).
    + rewrite bool_decide_eq_true_2 by done.
      destruct (gridAt_probe g x (y + 1) Hwf Hx) as (r & -> & Hr); [lia|].
      cbn [mbind Res_bind]. f_equal. apply bool_decide_ext.
      rewrite Hr. tauto.
Qed.

Lemma blockBelowIsEmpty_tests_the_slot_witness :
  blockBelowIsEmpty demoRemoved.1 0 0 = Ok true ∧
  blockBelowIsEmpty demoClicked.1 0 2 = Ok false ∧
  blockBelowIsEmpty demoGrid 0 0 = Ok false ∧
  blockBelowIsEmpty demoGrid 0 3 = Throw TypeError.
Proof.
  assert (wf demoGrid) as Hwf by (apply wfb_wf; vm_compute; reflexivity).
  assert (wf demoRemoved.1) as Hwf1 by (apply wfb_wf; vm_compute; reflexivity).
  assert (wf demoClicked.1) as Hwf2 by (apply wfb_wf; vm_compute; reflexivity).
  split; [|split; [|split]].
  - apply (proj2 (blockBelowIsEmpty_tests_the_slot demoRemoved.1 0 0 Hwf1) None).
    vm_compute; reflexivity.
  - apply (proj2 (blockBelowIsEmpty_tests_the_slot demoClicked.1 0 2 Hwf2) None).
    vm_compute; reflexivity.
  - apply (proj2 (blockBelowIsEmpty_tests_the_slot demoGrid 0 0 Hwf)
             (Some "red"%string)).
    vm_compute; reflexivity.
  - apply (proj1 (blockBelowIsEmpty_tests_the_slot demoGrid 0 3 Hwf)).
    vm_compute; reflexivity.
Defined.

(** X3. [moveBlockDown(x, y)] needs both [(x, y)] and [(x, y + 1)] inside
    the grid and throws otherwise, on the top row in particular.  When it
    returns, slot [(x, y)] holds what [(x, y + 1)] held, [(x, y + 1)] is
    empty and no other cell has changed. *)
Theorem moveBlockDown_moves_one_colour (g : BlockGrid) (x y : Z) :
  wf g →
  (withinBoundaries g x y && withinBoundaries g x (y + 1) = false →
   moveBlockDown g x y = Throw TypeError) ∧
  (withinBoundaries g x y && withinBoundaries g x (y + 1) = true →
   ∃ g' v,
     colourAt g x (y + 1) = Some v ∧
     moveBlockDown g x y = Ok g' ∧ wf g' ∧ grid g' = grid g ∧
     colourAt g' x y = Some v ∧ colourAt g' x (y + 1) = Some None ∧
     (∀ r c, (r, c) ≠ (x, y) → (r, c) ≠ (x, y + 1) →
             colourAt g' r c = colourAt g r c)).
Proof.
  intros Hwf. unfold moveBlockDown. split.
  - intros Hout.
    destruct (withinBoundaries g x (y + 1)) eqn:Habove.
    + rewrite andb_true_r in Hout.
      destruct (colourAt_within g Hwf _ _ Habove) as [v Hv].
      apply getColour_colourAt in Hv. rewrite Hv. cbn [mbind Res_bind].
      by rewrite (setColour_outside g Hwf _ _ _ Hout).
    + by rewrite (getColour_outside g Hwf _ _ Habove).
  - intros [Hin Habove]%andb_true_iff.
    destruct (colourAt_within g Hwf _ _ Habove) as [v Hv].
    destruct (setColour_within g Hwf x y v Hin)
      as (g1 & Hset1 & Hwf1 & Hsame1 & Hnew1 & Hother1).
    assert (withinBoundaries g1 x (y + 1) = true) as Habove1
      by (by rewrite (same_structure_within g g1)).
    destruct (setColour_within g1 Hwf1 x (y + 1) None Habove1)
      as (g2 & Hset2 & Hwf2 & Hsame2 & Hnew2 & Hother2).
    exists g2, v. split; [done|].
    rewrite (proj2 (getColour_colourAt g x (y + 1) v) Hv).
    cbn [mbind Res_bind]. rewrite Hset1. cbn [mbind Res_bind].
    split; [done|]. split; [done|].
    split; [by rewrite (same_grid _ _ Hsame2), (same_grid _ _ Hsame1)|].
    split; [|split; [done|]].
    + rewrite Hother2; [done|]. intros [=]; lia.
    + intros r c Hne1 Hne2. by rewrite Hother2, Hother1.
Qed.

Lemma moveBlockDown_moves_one_colour_witness :
  moveBlockDown demoGrid 0 2 = Throw TypeError ∧
  ∃ g' v,
    colourAt demoGrid 0 1 = Some v ∧
    moveBlockDown demoGrid 0 0 = Ok g' ∧ wf g' ∧ grid g' = grid demoGrid ∧
    colourAt g' 0 0 = Some v ∧ colourAt g' 0 1 = Some None ∧
    (∀ r c, (r, c) ≠ (0, 0) → (r, c) ≠ (0, 1) →
            colourAt g' r c = colourAt demoGrid r c).
Proof.
  assert (wf demoGrid) as Hwf by (apply wfb_wf; vm_compute; reflexivity).
  split.
  - apply (proj1 (moveBlockDown_moves_one_colour demoGrid 0 2 Hwf)).
    vm_compute; reflexivity.
  - apply (proj2 (moveBlockDown_moves_one_colour demoGrid 0 0 Hwf)).
    vm_compute; reflexivity.
Defined.

(** ** Compaction on its own *)

Lemma settle_perm (l : list Colour) : settle l ≡ₚ l.
Proof.
  induction l as [|[s|] l IH].
  - done.
  - rewrite settle_cons_Some. by constructor.
  - rewrite settle_cons_None, <-Permutation_cons_append. by constructor.
Qed.

Lemma settle_no_gap (l : list Colour) : no_gap (settle l).
Proof.
  unfold settle. intros i j v Hij Hi Hj.
  destruct (decide (i < length (filter (λ c, c ≠ None) l))%nat) as [Hlt|Hge].
  - rewrite lookup_app_l in Hi by done.
    apply list_elem_of_lookup_2, list_elem_of_filter in Hi as [Hne _].
    by destruct Hne.
  - rewrite lookup_app_r in Hj by lia.
    by apply lookup_replicate_1 in Hj as [-> _].
Qed.

Lemma no_gap_settle (l : list Colour) : no_gap l → settle l = l.
Proof.
  induction l as [|[s|] l IH]; intros Hgap.
  - done.
  - rewrite settle_cons_Some, IH; [done|].
    intros i j v Hij Hi Hj. by apply (Hgap (S i) (S j) v); [lia|..].
  - apply settle_empty. constructor; [done|].
    apply Forall_forall. intros v [j Hj]%list_elem_of_lookup_1.
    by apply (Hgap 0%nat (S j) v); [lia|..].
Qed.

(** X4. [shiftBlocksDownward] uses only the column of each listed
    coordinate: the rows may be anything and columns may repeat.  Two
    lists naming the same columns leave the same colours everywhere. *)
Theorem shiftBlocksDownward_depends_on_columns (fuel : nat) (g : BlockGrid)
    (removed removed' : list (Z * Z)) :
  wf g →
  (∀ p, p ∈ removed → 0 ≤ p.1 < width g) →
  (∀ cx, cx ∈ removed.*1 ↔ cx ∈ removed'.*1) →
  (Z.to_nat (height g) ≤ fuel)%nat →
  ∃ g1 g1',
    shiftBlocksDownward fuel g removed = Ok g1 ∧
    shiftBlocksDownward fuel g removed' = Ok g1' ∧
    ∀ cx : nat, columnColours g1 cx = columnColours g1' cx.
Proof.
  intros Hwf Hcols Hsame Hfuel.
  destruct (shiftBlocksDownward_spec fuel removed g Hwf Hcols Hfuel)
    as (g1 & Hrun & _ & _ & Hres).
  destruct (shiftBlocksDownward_spec fuel removed' g Hwf)
    as (g1' & Hrun' & _ & _ & Hres'); [|done|].
  { intros [x y] Hp.
    assert (x ∈ removed.*1) as Hx.
    { apply Hsame, list_elem_of_fmap. by exists (x, y). }
    apply list_elem_of_fmap in Hx as ([x' y'] & -> & Hp').
    exact (Hcols _ Hp'). }
  exists g1, g1'. split; [done|]. split; [done|].
  intros cx. rewrite Hres, Hres'.
  repeat case_decide; try done; exfalso; naive_solver.
Qed.

Lemma shiftBlocksDownward_depends_on_columns_witness :
  ∃ g1 g1',
    shiftBlocksDownward 3 demoRemoved.1 [(0, 0)] = Ok g1 ∧
    shiftBlocksDownward 3 demoRemoved.1 [(0, 7); (0, -2); (0, 7)] = Ok g1' ∧
    ∀ cx : nat, columnColours g1 cx = columnColours g1' cx.
Proof.
  apply (shiftBlocksDownward_depends_on_columns 3 demoRemoved.1
           [(0, 0)] [(0, 7); (0, -2); (0, 7)]).
  - apply wfb_wf; vm_compute; reflexivity.
  - intros p ->%list_elem_of_singleton. vm_compute. split; [discriminate|reflexivity].
  - intros cx. simpl. rewrite !elem_of_cons, !elem_of_nil. tauto.
  - vm_compute; lia.
Defined.

(** X5. Compaction is idempotent: running [shiftBlocksDownward] again, on
    any list that names no new column, changes no colour. *)
Theorem shiftBlocksDownward_idempotent (fuel : nat) (g : BlockGrid)
    (removed again : list (Z * Z)) :
  wf g →
  (∀ p, p ∈ removed → 0 ≤ p.1 < width g) →
  (∀ p, p ∈ again → p.1 ∈ removed.*1) →
  (Z.to_nat (height g) ≤ fuel)%nat →
  ∃ g1 g2,
    shiftBlocksDownward fuel g removed = Ok g1 ∧
    shiftBlocksDownward fuel g1 again = Ok g2 ∧
    ∀ cx : nat, columnColours g2 cx = columnColours g1 cx.
Proof.
  intros Hwf Hcols Hsub Hfuel.
  destruct (shiftBlocksDownward_spec fuel removed g Hwf Hcols Hfuel)
    as (g1 & Hrun & Hwf1 & Hsame1 & Hres).
  destruct (shiftBlocksDownward_spec fuel again g1 Hwf1)
    as (g2 & Hrun2 & _ & _ & Hres2).
  { intros [x y] Hp. rewrite (same_width _ _ Hsame1).
    apply Hsub, list_elem_of_fmap in Hp as ([x' y'] & Hx & Hp').
    simpl in Hx. subst x'. by apply (Hcols (x, y')). }
  { by rewrite (same_height _ _ Hsame1). }
  exists g1, g2. split; [done|]. split; [done|].
  intros cx. rewrite Hres2. case_decide as Hin; [|done].
  rewrite Hres, decide_True; [by rewrite settle_idemp|].
  apply list_elem_of_fmap in Hin as (p & -> & Hp). by apply Hsub.
Qed.

Lemma shiftBlocksDownward_idempotent_witness :
  ∃ g1 g2,
    shiftBlocksDownward 3 demoRemoved.1 demoRemoved.2 = Ok g1 ∧
    shiftBlocksDownward 3 g1 demoRemoved.2 = Ok g2 ∧
    ∀ cx : nat, columnColours g2 cx = columnColours g1 cx.
Proof.
  apply (shiftBlocksDownward_idempotent 3 demoRemoved.1
           demoRemoved.2 demoRemoved.2).
  - apply wfb_wf; vm_compute; reflexivity.
  - intros p. vm_compute. intros ->%list_elem_of_singleton.
    split; [discriminate|reflexivity].
  - intros p Hp. apply list_elem_of_fmap. by exists p.
  - vm_compute; lia.
Defined.

(** X6. Compaction neither loses nor invents a block: every column ends
    as a rearrangement of what it held, and in the columns named by the
    list no block is left above a gap. *)
Theorem shiftBlocksDownward_rearranges_columns (fuel : nat) (g : BlockGrid)
    (removed : list (Z * Z)) :
  wf g →
  (∀ p, p ∈ removed → 0 ≤ p.1 < width g) →
  (Z.to_nat (height g) ≤ fuel)%nat →
  ∃ g',
    shiftBlocksDownward fuel g removed = Ok g' ∧
    (∀ cx : nat, columnColours g' cx ≡ₚ columnColours g cx) ∧
    (∀ cx : nat, Z.of_nat cx ∈ removed.*1 → no_gap (columnColours g' cx)).
Proof.
  intros Hwf Hcols Hfuel.
  destruct (shiftBlocksDownward_spec fuel removed g Hwf Hcols Hfuel)
    as (g' & Hrun & _ & _ & Hres).
  exists g'. split; [done|]. split.
  - intros cx. rewrite Hres. case_decide; [apply settle_perm|done].
  - intros cx Hin. rewrite Hres, decide_True by done. apply settle_no_gap.
Qed.

Lemma shiftBlocksDownward_rearranges_columns_witness :
  ∃ g',
    shiftBlocksDownward 3 demoRemoved.1 demoRemoved.2 = Ok g' ∧
    (∀ cx : nat, columnColours g' cx ≡ₚ columnColours demoRemoved.1 cx) ∧
    (∀ cx : nat, Z.of_nat cx ∈ demoRemoved.2.*1 →
                 no_gap (columnColours g' cx)).
Proof.
  apply (shiftBlocksDownward_rearranges_columns 3 demoRemoved.1 demoRemoved.2).
  - apply wfb_wf; vm_compute; reflexivity.
  - intros p. vm_compute. intros ->%list_elem_of_singleton.
    split; [discriminate|reflexivity].
  - vm_compute; lia.
Defined.

(** X7. A listed coordinate whose column does not exist makes
    [shiftBlocksDownward] throw as soon as it is reached, unless the grid
    has no rows; [withinBoundaries] is not consulted in this phase. *)
Theorem shiftBlocksDownward_unknown_column (fuel : nat) (g : BlockGrid)
    (x y : Z) (rest : list (Z * Z)) :
  wf g → ¬ (0 ≤ x < width g) → 0 < height g → (1 ≤ fuel)%nat →
  shiftBlocksDownward fuel g ((x, y) :: rest) = Throw TypeError.
Proof.
  intros Hwf Hx Hh Hfuel. destruct fuel as [|fuel]; [lia|].
  unfold shiftBlocksDownward. cbn [forEachM]. unfold shiftColumn.
  rewrite (seqZ_to_nat 0 (height g)).
  destruct (Z.to_nat (height g)) as [|n] eqn:Hn; [lia|].
  rewrite seqZ_S, reverse_snoc. cbn [forEachM shiftLoop].
  unfold blockBelowIsEmpty. rewrite (getColour_outside g Hwf); [done|].
  destruct (withinBoundaries g x (0 + Z.of_nat n)) eqn:Hin; [|done].
  apply within_iff in Hin. tauto.
Qed.

Lemma shiftBlocksDownward_unknown_column_witness :
  shiftBlocksDownward 1 demoGrid [(2, 0)] = Throw TypeError ∧
  shiftBlocksDownward 1 demoGrid [(-1, 0); (0, 0)] = Throw TypeError.
Proof.
  assert (wf demoGrid) as Hwf by (apply wfb_wf; vm_compute; reflexivity).
  split.
  - apply (shiftBlocksDownward_unknown_column 1 demoGrid 2 0 [] Hwf).
    + vm_compute. intros [_ H]. discriminate H.
    + vm_compute; reflexivity.
    + lia.
  - apply (shiftBlocksDownward_unknown_column 1 demoGrid (-1) 0 [(0, 0)] Hwf).
    + vm_compute. intros [H _]. by apply H.
    + vm_compute; reflexivity.
    + lia.
Defined.

(** ** The removal on its own *)

(** X8. [removeConnectedBlocks] works for any seed, any colour argument
    and any array handed in: it appends to that array, leaving its
    earlier entries in place, one entry for each cell of the component of
    the given colour around the seed, blanks exactly those cells and
    keeps the arrays of the grid. *)
Theorem removeConnectedBlocks_appends_component (fuel : nat) (g : BlockGrid)
    (x y : Z) (colour : Colour) (removed : list (Z * Z)) :
  wf g →
  (4 * (Z.to_nat (width g) * Z.to_nat (height g)) + 2 ≤ fuel)%nat →
  ∃ g' new,
    removeConnectedBlocks fuel g x y colour removed = Ok (g', removed ++ new) ∧
    wf g' ∧ grid g' = grid g ∧ NoDup new ∧
    (∀ p, p ∈ new ↔ component g colour (x, y) p) ∧
    (∀ r c, colourAt g' r c
            = if decide ((r, c) ∈ new) then Some None else colourAt g r c).
Proof.
  intros Hwf Hfuel.
  destruct (removeConnectedBlocks_spec fuel g x y colour removed Hwf Hfuel)
    as (g' & new & Hrun & Hwf' & Hsame & Hnd & Hcomp & Hclear & Hkeep).
  exists g', new. split; [done|]. split; [done|].
  split; [apply (same_grid _ _ Hsame)|]. split; [done|]. split; [done|].
  intros r c. case_decide as Hin.
  - apply (Hclear (r, c) Hin).
  - apply (Hkeep (r, c) Hin).
Qed.

Lemma removeConnectedBlocks_appends_component_witness :
  ∃ g' new,
    removeConnectedBlocks 40 demoGrid 1 1 (Some "blue") [(5, 5)]
    = Ok (g', [(5, 5)] ++ new) ∧
    wf g' ∧ grid g' = grid demoGrid ∧ NoDup new ∧
    (∀ p, p ∈ new ↔ component demoGrid (Some "blue") (1, 1) p) ∧
    (∀ r c, colourAt g' r c
            = if decide ((r, c) ∈ new) then Some None
              else colourAt demoGrid r c).
Proof.
  apply (removeConnectedBlocks_appends_component 40 demoGrid 1 1
           (Some "blue") [(5, 5)]).
  - apply wfb_wf; vm_compute; reflexivity.
  - vm_compute; lia.
Defined.

(** X9. Started on a cell that does not hold the given colour,
    [removeConnectedBlocks] visits that one cell and stops: the grid and
    the array come back as they were. *)
Theorem removeConnectedBlocks_other_colour (fuel : nat) (g : BlockGrid)
    (x y : Z) (v colour : Colour) (removed : list (Z * Z)) :
  wf g → colourAt g x y = Some v → v ≠ colour → (2 ≤ fuel)%nat →
  removeConnectedBlocks fuel g x y colour removed = Ok (g, removed).
Proof.
  intros Hwf Hv Hne Hfuel. destruct fuel as [|[|fuel]]; [lia..|].
  assert (withinBoundaries g x y = true) as Hin.
  { destruct (colourAt_coordinates g x y v Hwf Hv). by apply within_iff. }
  apply getColour_colourAt in Hv.
  unfold removeConnectedBlocks, traversalStart. simpl.
  unfold traversalBody. simpl. rewrite Hin. simpl.
  rewrite bool_decide_eq_false_2 by apply not_elem_of_empty. simpl.
  unfold checkBlockColour. rewrite Hv. simpl.
  by rewrite bool_decide_eq_false_2.
Qed.

Lemma removeConnectedBlocks_other_colour_witness :
  removeConnectedBlocks 2 demoGrid 0 1 (Some "red") [] = Ok (demoGrid, []) ∧
  removeConnectedBlocks 2 demoGrid 0 1 None [(0, 0)] = Ok (demoGrid, [(0, 0)]).
Proof.
  assert (wf demoGrid) as Hwf by (apply wfb_wf; vm_compute; reflexivity).
  split.
  - apply (removeConnectedBlocks_other_colour 2 demoGrid 0 1
             (Some "green"%string) (Some "red"%string) [] Hwf);
      [vm_compute; reflexivity|discriminate|lia].
  - apply (removeConnectedBlocks_other_colour 2 demoGrid 0 1
             (Some "green"%string) None [(0, 0)] Hwf);
      [vm_compute; reflexivity|discriminate|lia].
Defined.

(** X10. With [null] as the colour, [removeConnectedBlocks] changes no
    colour at all, and yet reports the region of empty cells around the
    seed as removed; it is the guard of [blockClicked] that keeps a click
    on an empty cell from doing this. *)
Theorem removeConnectedBlocks_null_colour (fuel : nat) (g : BlockGrid)
    (x y : Z) (removed : list (Z * Z)) :
  wf g →
  (4 * (Z.to_nat (width g) * Z.to_nat (height g)) + 2 ≤ fuel)%nat →
  ∃ g' new,
    removeConnectedBlocks fuel g x y None removed = Ok (g', removed ++ new) ∧
    (∀ r c, colourAt g' r c = colourAt g r c) ∧
    (∀ p, p ∈ new ↔ component g None (x, y) p) ∧
    (colourAt g x y = Some None → (x, y) ∈ new).
Proof.
  intros Hwf Hfuel.
  destruct (removeConnectedBlocks_spec fuel g x y None removed Hwf Hfuel)
    as (g' & new & Hrun & _ & _ & _ & Hcomp & Hclear & Hkeep).
  exists g', new. split; [done|]. split; [|split; [done|]].
  - intros r c. destruct (decide ((r, c) ∈ new)) as [Hin|Hnin].
    + pose proof (Hclear (r, c) Hin) as Hnow. simpl in Hnow. rewrite Hnow.
      symmetry.
      by apply (component_matches g None (x, y) (r, c)), Hcomp.
    + apply (Hkeep (r, c) Hnin).
  - intros Hempty. apply Hcomp. by constructor.
Qed.

Lemma removeConnectedBlocks_null_colour_witness :
  ∃ g' new,
    removeConnectedBlocks 40 demoClicked.1 0 2 None [] = Ok (g', [] ++ new) ∧
    (∀ r c, colourAt g' r c = colourAt demoClicked.1 r c) ∧
    (∀ p, p ∈ new ↔ component demoClicked.1 None (0, 2) p) ∧
    (colourAt demoClicked.1 0 2 = Some None → (0, 2) ∈ new).
Proof.
  apply (removeConnectedBlocks_null_colour 40 demoClicked.1 0 2 []).
  - apply wfb_wf; vm_compute; reflexivity.
  - vm_compute; lia.
Defined.

(** ** A selection as a whole *)

Lemma removal_blanks g g1 (removed : list (Z * Z)) (cx : nat) :
  wf g → wf g1 →
  (∀ p, p ∈ removed → is_Some (colourAt g p.1 p.2)) →
  (∀ p, p ∈ removed → colourAt g1 p.1 p.2 = Some None) →
  (∀ p, p ∉ removed → colourAt g1 p.1 p.2 = colourAt g p.1 p.2) →
  columnColours g1 cx = blanked g removed cx.
Proof.
  intros Hwf Hwf1 Hin Hclear Hkeep. apply list_eq. intros j.
  unfold blanked.
  rewrite list_lookup_imap, !columnColours_lookup by done.
  case_decide as Hrem.
  - pose proof (Hclear _ Hrem) as Hnow. simpl in Hnow. rewrite Hnow.
    destruct (Hin _ Hrem) as [v Hv]. simpl in Hv. by rewrite Hv.
  - pose proof (Hkeep _ Hrem) as Hnow. simpl in Hnow. rewrite Hnow.
    by destruct (colourAt g _ _).
Qed.

Lemma blanked_untouched g (removed : list (Z * Z)) (cx : nat) :
  Z.of_nat cx ∉ removed.*1 → blanked g removed cx = columnColours g cx.
Proof.
  intros Hnin. apply list_eq. intros j. unfold blanked.
  rewrite list_lookup_imap.
  destruct (columnColours g cx !! j) as [v|]; [|done]. simpl.
  rewrite decide_False; [done|].
  intros Hin. apply Hnin, list_elem_of_fmap.
  by exists (Z.of_nat cx, Z.of_nat j).
Qed.

(** Every column after a click on a block, in terms of the grid before. *)
Lemma clickAt_columns (fuel : nat) g x y (c : string) :
  wf g → colourAt g x y = Some (Some c) → (budget g ≤ fuel)%nat →
  ∃ g2 removed,
    clickAt fuel g x y = Ok (g2, removed) ∧ wf g2 ∧ NoDup removed ∧
    (∀ p, p ∈ removed ↔ component g (Some c) (x, y) p) ∧
    (∀ cx : nat,
       columnColours g2 cx
       = if decide (Z.of_nat cx ∈ removed.*1)
         then settle (blanked g removed cx) else columnColours g cx).
Proof.
  intros Hwf Hv Hfuel.
  destruct (clickAt_block fuel g x y c Hwf Hv Hfuel)
    as (g1 & g2 & removed & _ & _ & Hclick & Hwf1 & Hwf2 & Hnd & Hcomp
        & Hclear & Hkeep & Hcols).
  exists g2, removed. do 4 (split; [done|]).
  intros cx. rewrite Hcols.
  rewrite (removal_blanks g g1 removed cx Hwf Hwf1); [|..|done|done].
  - case_decide; [done|]. by apply blanked_untouched.
  - intros p Hp%Hcomp%component_matches. unfold matches in Hp.
    by rewrite Hp.
Qed.

(** X11. A click on a block rebuilds every column that meets the
    component of the block from the grid as it was: the cells of the
    component are taken out and what is left of the column, in its order,
    drops to the bottom.  The other columns are not touched. *)
Theorem click_rebuilds_columns (fuel : nat) (g : BlockGrid) (x y : Z)
    (c : string) :
  wf g → colourAt g x y = Some (Some c) → (budget g ≤ fuel)%nat →
  ∃ g2 removed,
    clickAt fuel g x y = Ok (g2, removed) ∧
    (∀ p, p ∈ removed ↔ component g (Some c) (x, y) p) ∧
    (∀ cx : nat,
       Z.of_nat cx ∈ removed.*1 →
       columnColours g2 cx = settle (blanked g removed cx)) ∧
    (∀ cx : nat,
       Z.of_nat cx ∉ removed.*1 →
       columnColours g2 cx = columnColours g cx).
Proof.
  intros Hwf Hv Hfuel.
  destruct (clickAt_columns fuel g x y c Hwf Hv Hfuel)
    as (g2 & removed & Hclick & _ & _ & Hcomp & Hcols).
  exists g2, removed. split; [done|]. split; [done|].
  split; intros cx Hcx; rewrite Hcols.
  - by rewrite decide_True.
  - by rewrite decide_False.
Qed.

Lemma click_rebuilds_columns_witness :
  ∃ g2 removed,
    clickAt 40 demoGrid 1 1 = Ok (g2, removed) ∧
    (∀ p, p ∈ removed ↔ component demoGrid (Some "blue") (1, 1) p) ∧
    (∀ cx : nat,
       Z.of_nat cx ∈ removed.*1 →
       columnColours g2 cx = settle (blanked demoGrid removed cx)) ∧
    (∀ cx : nat,
       Z.of_nat cx ∉ removed.*1 →
       columnColours g2 cx = columnColours demoGrid cx).
Proof.
  apply (click_rebuilds_columns 40 demoGrid 1 1 "blue").
  - apply wfb_wf; vm_compute; reflexivity.
  - vm_compute; reflexivity.
  - vm_compute; lia.
Defined.

(** X12. Clicks keep the board free of floating blocks: if no column has
    a block above a gap, the same holds after a click on any cell of the
    grid, empty or not. *)
Theorem click_keeps_columns_gap_free (fuel : nat) (g : BlockGrid) (x y : Z) :
  wf g → withinBoundaries g x y = true →
  (∀ cx : nat, no_gap (columnColours g cx)) →
  (budget g ≤ fuel)%nat →
  ∃ g' removed,
    clickAt fuel g x y = Ok (g', removed) ∧
    ∀ cx : nat, no_gap (columnColours g' cx).
Proof.
  intros Hwf Hin Hgap Hfuel.
  destruct (colourAt_within g Hwf x y Hin) as [[c|] Hv].
  - destruct (clickAt_columns fuel g x y c Hwf Hv Hfuel)
      as (g2 & removed & Hclick & _ & _ & _ & Hcols).
    exists g2, removed. split; [done|]. intros cx. rewrite Hcols.
    case_decide; [apply settle_no_gap|apply Hgap].
  - exists g, []. split; [by apply clickAt_empty|done].
Qed.

Lemma click_keeps_columns_gap_free_witness :
  ∃ g' removed,
    clickAt 40 demoGrid 0 1 = Ok (g', removed) ∧
    ∀ cx : nat, no_gap (columnColours g' cx).
Proof.
  apply (click_keeps_columns_gap_free 40 demoGrid 0 1).
  - apply wfb_wf; vm_compute; reflexivity.
  - vm_compute; reflexivity.
  - intros cx i j v Hij Hi Hj.
    destruct cx as [|[|cx]]; [| |by destruct i];
      (destruct i as [|[|[|i]]]; [..|done]); vm_compute in Hi; discriminate.
  - vm_compute; lia.
Defined.

Lemma adjacent_sym (p q : Z * Z) : adjacent p q → adjacent q p.
Proof. unfold adjacent. lia. Qed.

Lemma component_trans g colour s p q :
  component g colour s p → component g colour p q → component g colour s q.
Proof.
  intros Hsp Hpq. induction Hpq as [Hm|q r Hq IH Hadj Hm]; [done|].
  by eapply component_step.
Qed.

Lemma component_sym g colour s p :
  component g colour s p → component g colour p s.
Proof.
  induction 1 as [Hm|p q Hp IH Hadj Hm]; [by constructor|].
  eapply component_trans; [|exact IH].
  eapply component_step; [by constructor|by apply adjacent_sym|].
  by eapply component_matches.
Qed.

(** X13. What a click does depends on the component, not on the block
    clicked in it: clicking any two blocks of one component removes the
    same cells and leaves the same colours in every column. *)
Theorem click_anywhere_in_component (fuel : nat) (g : BlockGrid)
    (x y x' y' : Z) (c : string) :
  wf g → component g (Some c) (x, y) (x', y') → (budget g ≤ fuel)%nat →
  ∃ g2 removed g2' removed',
    clickAt fuel g x y = Ok (g2, removed) ∧
    clickAt fuel g x' y' = Ok (g2', removed') ∧
    (∀ p, p ∈ removed ↔ p ∈ removed') ∧
    (∀ cx : nat, columnColours g2 cx = columnColours g2' cx).
Proof.
  intros Hwf Hcomp Hfuel.
  pose proof (component_matches _ _ _ _ Hcomp) as Hv'.
  pose proof (component_matches _ _ _ _ (component_sym _ _ _ _ Hcomp)) as Hv.
  destruct (clickAt_columns fuel g x y c Hwf Hv Hfuel)
    as (g2 & removed & Hclick & _ & _ & Hrem & Hcols).
  destruct (clickAt_columns fuel g x' y' c Hwf Hv' Hfuel)
    as (g2' & removed' & Hclick' & _ & _ & Hrem' & Hcols').
  assert (∀ p, p ∈ removed ↔ p ∈ removed') as Hsame.
  { intros p. rewrite Hrem, Hrem'. split; intros Hp.
    - eapply component_trans; [by apply component_sym|done].
    - by eapply component_trans. }
  assert (∀ cx : Z, cx ∈ removed.*1 ↔ cx ∈ removed'.*1) as Hsame1.
  { intros cx. rewrite !list_elem_of_fmap.
    split; intros (p & -> & Hp); exists p; (split; [done|]); by apply Hsame. }
  exists g2, removed, g2', removed'. do 3 (split; [done|]).
  intros cx. rewrite Hcols, Hcols'.
  assert (blanked g removed cx = blanked g removed' cx) as ->.
  { unfold blanked. apply imap_ext. intros j v _.
    destruct (decide (_ ∈ removed)) as [H1|H1],
             (decide (_ ∈ removed')) as [H2|H2]; try done.
    - by apply Hsame in H1.
    - by apply Hsame in H2. }
  destruct (decide (_ ∈ removed.*1)) as [H1|H1],
           (decide (_ ∈ removed'.*1)) as [H2|H2]; try done.
  - by apply Hsame1 in H1.
  - by apply Hsame1 in H2.
Qed.

Lemma click_anywhere_in_component_witness :
  ∃ g2 removed g2' removed',
    clickAt 40 demoGrid 1 0 = Ok (g2, removed) ∧
    clickAt 40 demoGrid 1 2 = Ok (g2', removed') ∧
    (∀ p, p ∈ removed ↔ p ∈ removed') ∧
    (∀ cx : nat, columnColours g2 cx = columnColours g2' cx).
Proof.
  apply (click_anywhere_in_component 40 demoGrid 1 0 1 2 "blue").
  - apply wfb_wf; vm_compute; reflexivity.
  - apply (component_step _ _ _ (1, 1)); [|vm_compute; reflexivity..].
    apply (component_step _ _ _ (1, 0)); [|vm_compute; reflexivity..].
    apply component_seed. vm_compute; reflexivity.
  - vm_compute; lia.
Defined.

(** ** Counting blocks *)

Lemma length_filter_pairs {A B : Type} (P : A * B → Prop)
    `{!∀ p, Decision (P p)} (x : A) (ys : list B) :
  length (filter P (map (λ y, (x, y)) ys))
  = length (filter (λ y, P (x, y)) ys).
Proof.
  induction ys as [|y ys IH]; [done|]. simpl.
  rewrite !filter_cons. repeat case_decide; simpl; try done; by rewrite IH.
Qed.

Lemma length_filter_list_prod {A B : Type} (P : A * B → Prop)
    `{!∀ p, Decision (P p)} (xs : list A) (ys : list B) :
  length (filter P (list_prod xs ys))
  = sum_list_with (λ x, length (filter (λ y, P (x, y)) ys)) xs.
Proof.
  induction xs as [|x xs IH]; [done|]. simpl.
  by rewrite filter_app, length_app, length_filter_pairs, IH.
Qed.

Lemma length_filter_Forall2 {A B : Type} (P : A → Prop) (Q : B → Prop)
    `{!∀ a, Decision (P a)} `{!∀ b, Decision (Q b)}
    (l : list A) (k : list B) :
  Forall2 (λ a b, P a ↔ Q b) l k →
  length (filter P l) = length (filter Q k).
Proof.
  induction 1 as [|a b l k Hab _ IH]; [done|].
  rewrite !filter_cons. repeat case_decide; simpl; try tauto; by rewrite IH.
Qed.

Lemma length_filter_split {A : Type} (P Q : A → Prop)
    `{!∀ a, Decision (P a)} `{!∀ a, Decision (Q a)} (l : list A) :
  length (filter P l)
  = (length (filter (λ a, P a ∧ ¬ Q a) l)
     + length (filter (λ a, P a ∧ Q a) l))%nat.
Proof.
  induction l as [|a l IH]; [done|].
  rewrite !filter_cons. repeat case_decide; simpl; try tauto; lia.
Qed.

Lemma sum_list_with_ext {A : Type} (f h : A → nat) (l : list A) :
  (∀ a, a ∈ l → f a = h a) → sum_list_with f l = sum_list_with h l.
Proof.
  induction l as [|a l IH]; intros Hext; [done|]. simpl.
  rewrite Hext by apply list_elem_of_here. rewrite IH; [done|].
  intros b Hb. apply Hext. by apply list_elem_of_further.
Qed.

Lemma sum_list_with_fmap {A B : Type} (f : B → nat) (h : A → B) (l : list A) :
  sum_list_with f (h <$> l) = sum_list_with (λ a, f (h a)) l.
Proof. induction l as [|a l IH]; [done|]. simpl. f_equal. apply IH. Qed.

Lemma NoDup_list_prod {A B : Type} (xs : list A) (ys : list B) :
  NoDup xs → NoDup ys → NoDup (list_prod xs ys).
Proof.
  intros Hxs Hys. induction Hxs as [|x xs Hx _ IH]; [constructor|].
  simpl. apply NoDup_app. split; [|split; [|done]].
  - by apply (NoDup_fmap_2 (λ y, (x, y))).
  - intros [a b] Hin%list_elem_of_fmap Hin'%list_elem_of_In%in_prod_iff.
    destruct Hin as (y & [= -> ->] & _). destruct Hin' as [Hin' _].
    by apply Hx, list_elem_of_In.
Qed.

Lemma NoDup_cells g : NoDup (cells g).
Proof. apply NoDup_list_prod; apply NoDup_seqZ. Qed.

(** The count, column by column. *)
Lemma blocksLeft_columns g :
  wf g →
  blocksLeft g
  = sum_list_with (λ cx, length (filter (λ c, c ≠ None) (columnColours g cx)))
                  (seq 0 (Z.to_nat (width g))).
Proof.
  intros Hwf. unfold blocksLeft, cells.
  rewrite (length_filter_list_prod (λ p, colourAt g p.1 p.2 ≠ Some None)).
  change (seqZ 0 (width g))
    with ((λ i : nat, Z.of_nat i + 0) <$> seq 0 (Z.to_nat (width g))).
  rewrite sum_list_with_fmap.
  apply sum_list_with_ext. intros cx Hcx%elem_of_seq. simpl.
  rewrite Z.add_0_r.
  apply (length_filter_Forall2
           (λ y, colourAt g (Z.of_nat cx) y ≠ Some None) (λ c, c ≠ None)).
  apply Forall2_same_length_lookup_2.
  - rewrite length_seqZ.
    pose proof (length_columnColours g Hwf cx). lia.
  - intros j y v [-> _]%lookup_seqZ Hv.
    rewrite columnColours_lookup in Hv by done.
    rewrite Z.add_0_l, Hv. split; congruence.
Qed.

Lemma blocksLeft_rearranged g g' :
  wf g → wf g' → width g' = width g →
  (∀ cx : nat, columnColours g' cx ≡ₚ columnColours g cx) →
  blocksLeft g' = blocksLeft g.
Proof.
  intros Hwf Hwf' Hw Hperm.
  rewrite !blocksLeft_columns, Hw by done.
  apply sum_list_with_ext. intros cx _. by rewrite (Hperm cx).
Qed.

Lemma blocksLeft_blanked g g1 (removed : list (Z * Z)) :
  wf g → width g1 = width g → height g1 = height g → NoDup removed →
  (∀ p, p ∈ removed → ∃ s, colourAt g p.1 p.2 = Some (Some s)) →
  (∀ p, p ∈ removed → colourAt g1 p.1 p.2 = Some None) →
  (∀ p, p ∉ removed → colourAt g1 p.1 p.2 = colourAt g p.1 p.2) →
  (blocksLeft g1 + length removed)%nat = blocksLeft g.
Proof.
  intros Hwf Hw Hh Hnd Hblock Hclear Hkeep. unfold blocksLeft.
  assert (cells g1 = cells g) as -> by (unfold cells; by rewrite Hw, Hh).
  rewrite (length_filter_split (λ p, colourAt g p.1 p.2 ≠ Some None)
             (λ p, p ∈ removed) (cells g)).
  f_equal.
  - f_equal. apply list_filter_iff. intros p.
    destruct (decide (p ∈ removed)) as [Hin|Hnin].
    + rewrite (Hclear p Hin). tauto.
    + rewrite (Hkeep p Hnin). tauto.
  - apply Permutation_length, NoDup_Permutation; [done|..].
    + apply NoDup_filter, NoDup_cells.
    + intros p. rewrite list_elem_of_filter. split; [|tauto].
      intros Hin. destruct (Hblock p Hin) as [s Hs].
      split; [split; [congruence|done]|].
      apply cells_within.
      destruct (colourAt_coordinates g p.1 p.2 _ Hwf Hs).
      by apply within_iff.
Qed.

(** X14. A click on a block takes exactly the blocks of its component
    off the board, the clicked one among them: the number of blocks left
    drops by the length of the removed-list and so by at least one. *)
Theorem click_removes_its_component (fuel : nat) (g : BlockGrid) (x y : Z)
    (c : string) :
  wf g → colourAt g x y = Some (Some c) → (budget g ≤ fuel)%nat →
  ∃ g2 removed,
    clickAt fuel g x y = Ok (g2, removed) ∧
    (x, y) ∈ removed ∧
    (blocksLeft g2 + length removed)%nat = blocksLeft g ∧
    (blocksLeft g2 < blocksLeft g)%nat.
Proof.
  intros Hwf Hv Hfuel.
  destruct (clickAt_block fuel g x y c Hwf Hv Hfuel)
    as (g1 & g2 & removed & Hremove & Hshift & Hclick & Hwf1 & Hwf2 & Hnd
        & Hcomp & Hclear & Hkeep & Hcols).
  pose proof (removeConnectedBlocks_same_structure _ _ _ _ _ _ _ _ Hremove)
    as Hsame1.
  pose proof (shiftBlocksDownward_same_structure _ _ _ _ Hshift) as Hsame2.
  assert ((x, y) ∈ removed) as Hseed by (apply Hcomp; by constructor).
  assert ((blocksLeft g2 + length removed)%nat = blocksLeft g) as Hcount.
  { rewrite (blocksLeft_rearranged g1 g2 Hwf1 Hwf2 (same_width _ _ Hsame2)).
    - apply blocksLeft_blanked;
        [done|apply Hsame1|apply Hsame1|done| |done|done].
      intros p Hp%Hcomp%component_matches. by exists c.
    - intros cx. rewrite Hcols. case_decide; [apply settle_perm|done]. }
  exists g2, removed. do 3 (split; [done|]).
  destruct removed; [by apply elem_of_nil in Hseed|]. simpl in *. lia.
Qed.

Lemma click_removes_its_component_witness :
  ∃ g2 removed,
    clickAt 40 demoGrid 1 1 = Ok (g2, removed) ∧
    (1, 1) ∈ removed ∧
    (blocksLeft g2 + length removed)%nat = blocksLeft demoGrid ∧
    (blocksLeft g2 < blocksLeft demoGrid)%nat.
Proof.
  apply (click_removes_its_component 40 demoGrid 1 1 "blue").
  - apply wfb_wf; vm_compute; reflexivity.
  - vm_compute; reflexivity.
  - vm_compute; lia.
Defined.

(** ** Construction without cells *)

Lemma newColumn_empty (initialColour : Z → Z → string) (h x : Z)
    (σ : gmap loc Block.t) :
  h ≤ 0 → newColumn initialColour h x σ = ([], σ).
Proof. intros Hh. unfold newColumn. by rewrite seqZ_nil. Qed.

Lemma newGrid_no_rows (initialColour : Z → Z → string) (h : Z) (n : nat) :
  h ≤ 0 → newGrid initialColour (Z.of_nat n) h = (replicate n [], ∅).
Proof.
  intros Hh. unfold newGrid. induction n as [|n IH]; [done|].
  rewrite seqZ_S, foldl_snoc, IH, newColumn_empty by done.
  unfold push. by rewrite <-replicate_S_end.
Qed.

(** X15. The constructor does not validate its arguments.  With a width
    or a height that is not positive it allocates no block: the grid
    array is empty, or holds [width] empty columns, while the fields
    keep the numbers given, and no coordinate is within the boundaries. *)
Theorem constructor_without_cells (initialColour : Z → Z → string)
    (w h : option Z) :
  default 10 w ≤ 0 ∨ default 10 h ≤ 0 →
  width (constructor initialColour w h) = default 10 w ∧
  height (constructor initialColour w h) = default 10 h ∧
  grid (constructor initialColour w h)
  = replicate (Z.to_nat (default 10 w)) [] ∧
  store (constructor initialColour w h) = ∅ ∧
  (∀ row column,
     withinBoundaries (constructor initialColour w h) row column = false).
Proof.
  intros Hdegenerate. unfold constructor.
  assert (newGrid initialColour (default 10 w) (default 10 h)
          = (replicate (Z.to_nat (default 10 w)) [], ∅)) as ->.
  { destruct (decide (default 10 w ≤ 0)) as [Hw|Hw].
    - unfold newGrid. rewrite seqZ_nil by done.
      by replace (Z.to_nat (default 10 w)) with 0%nat by lia.
    - rewrite <-(Z2Nat.id (default 10 w)) at 1 by lia.
      apply newGrid_no_rows. lia. }
  do 4 (split; [done|]). intros row column.
  unfold withinBoundaries. simpl.
  destruct Hdegenerate; repeat (rewrite ?andb_false_iff, ?Z.leb_gt, ?Z.ltb_ge); lia.
Qed.

Lemma constructor_without_cells_witness :
  grid (constructor demoColour (Some 0) None) = [] ∧
  grid (constructor demoColour (Some 3) (Some (-1))) = [[]; []; []] ∧
  width (constructor demoColour (Some (-2)) (Some 4)) = -2.
Proof.
  destruct (constructor_without_cells demoColour (Some 0) None)
    as (_ & _ & H1 & _); [left; simpl; lia|].
  destruct (constructor_without_cells demoColour (Some 3) (Some (-1)))
    as (_ & _ & H2 & _); [right; simpl; lia|].
  destruct (constructor_without_cells demoColour (Some (-2)) (Some 4))
    as (H3 & _); [left; simpl; lia|].
  split; [exact H1|]. split; [exact H2|exact H3].
Defined.

(** ** The helpers of the test suite *)

Lemma setBlockArrayColour_within (colour : Colour) (blockArray : list (Z * Z)) :
  ∀ g, wf g →
    (∀ p, p ∈ blockArray → withinBoundaries g p.1 p.2 = true) →
    ∃ g', setBlockArrayColour g blockArray colour = Ok g' ∧ wf g' ∧
          same_structure g g' ∧
          ∀ r c, colourAt g' r c
                 = if decide ((r, c) ∈ blockArray) then Some colour
                   else colourAt g r c.
Proof.
  unfold setBlockArrayColour.
  induction blockArray as [|[x y] rest IH]; intros g Hwf Hin.
  - exists g. split; [done|]. split; [done|].
    split; [apply same_structure_refl|]. intros r c.
    rewrite decide_False; [done|]. apply not_elem_of_nil.
  - cbn [forEachM].
    destruct (setColour_within g Hwf x y colour)
      as (g1 & -> & Hwf1 & Hsame1 & Hnew & Hother).
    { apply (Hin (x, y)). apply list_elem_of_here. }
    cbn [mbind Res_bind].
    destruct (IH g1 Hwf1) as (g' & Hrun & Hwf' & Hsame' & Hcolours).
    { intros p Hp. rewrite (same_structure_within g g1) by done.
      apply Hin. by apply list_elem_of_further. }
    exists g'. split; [done|]. split; [done|].
    split; [by eapply same_structure_trans|].
    intros r c. rewrite Hcolours.
    destruct (decide ((r, c) ∈ rest)) as [Hrest|Hrest].
    + rewrite decide_True; [done|]. by apply list_elem_of_further.
    + destruct (decide ((r, c) = (x, y))) as [[= -> ->]|Hne].
      * rewrite decide_True by apply list_elem_of_here. done.
      * rewrite decide_False; [by apply Hother|].
        intros [?|?]%elem_of_cons; done.
Qed.

(** X16. [setBlockArrayColour] with coordinates of the grid gives every
    listed cell the colour and leaves every other cell and the arrays as
    they were; a coordinate outside the grid makes it throw. *)
Theorem setBlockArrayColour_paints_listed_cells (g : BlockGrid)
    (blockArray : list (Z * Z)) (colour : Colour) :
  wf g →
  ((∀ p, p ∈ blockArray → withinBoundaries g p.1 p.2 = true) →
   ∃ g', setBlockArrayColour g blockArray colour = Ok g' ∧ wf g' ∧
         grid g' = grid g ∧
         ∀ r c, colourAt g' r c
                = if decide ((r, c) ∈ blockArray) then Some colour
                  else colourAt g r c) ∧
  ((∃ p, p ∈ blockArray ∧ withinBoundaries g p.1 p.2 = false) →
   setBlockArrayColour g blockArray colour = Throw TypeError).
Proof.
  intros Hwf. split.
  - intros Hin.
    destruct (setBlockArrayColour_within colour blockArray g Hwf Hin)
      as (g' & Hrun & Hwf' & Hsame & Hcolours).
    exists g'. split; [done|]. split; [done|].
    split; [apply (same_grid _ _ Hsame)|done].
  - unfold setBlockArrayColour. revert g Hwf.
    induction blockArray as [|[x y] rest IH]; intros g Hwf (p & Hp & Hout).
    + by apply elem_of_nil in Hp.
    + cbn [forEachM].
      destruct (withinBoundaries g x y) eqn:Hxy.
      * destruct (setColour_within g Hwf x y colour Hxy)
          as (g1 & -> & Hwf1 & Hsame1 & _).
        cbn [mbind Res_bind]. apply IH; [done|].
        apply elem_of_cons in Hp as [->|Hp]; [simpl in Hout; congruence|].
        exists p. split; [done|].
        by rewrite (same_structure_within g g1).
      * by rewrite (setColour_outside g Hwf _ _ _ Hxy).
Qed.

Lemma setBlockArrayColour_paints_listed_cells_witness :
  (∃ g', setBlockArrayColour demoGrid [(0, 0); (1, 2)] (Some "pink")
         = Ok g' ∧ wf g' ∧ grid g' = grid demoGrid ∧
         ∀ r c, colourAt g' r c
                = if decide ((r, c) ∈ [(0, 0); (1, 2)]) then Some (Some "pink")
                  else colourAt demoGrid r c) ∧
  setBlockArrayColour demoGrid [(0, 0); (0, 3)] None = Throw TypeError.
Proof.
  assert (wf demoGrid) as Hwf by (apply wfb_wf; vm_compute; reflexivity).
  split.
  - apply (proj1 (setBlockArrayColour_paints_listed_cells demoGrid
                    [(0, 0); (1, 2)] (Some "pink"%string) Hwf)).
    intros p [->|[->|[]%elem_of_nil]%elem_of_cons]%elem_of_cons;
      vm_compute; reflexivity.
  - apply (proj2 (setBlockArrayColour_paints_listed_cells demoGrid
                    [(0, 0); (0, 3)] None Hwf)).
    exists (0, 3). split; [|vm_compute; reflexivity].
    apply list_elem_of_further, list_elem_of_here.
Defined.

(** X17. [assertBlockColor] asserts nothing: it hands a truth value to
    [expect] and calls no matcher, so on coordinates of the grid it
    passes whatever colour is expected and whatever the cells hold. *)
Theorem assertBlockColor_always_passes (g : BlockGrid)
    (blockArray : list (Z * Z)) (colour : Colour) :
  wf g →
  (∀ p, p ∈ blockArray → withinBoundaries g p.1 p.2 = true) →
  assertBlockColor g blockArray colour = Ok tt.
Proof.
  intros Hwf. unfold assertBlockColor.
  induction blockArray as [|[x y] rest IH]; intros Hin; [done|].
  cbn [forEachM].
  destruct (colourAt_within g Hwf x y) as [v Hv].
  { apply (Hin (x, y)). apply list_elem_of_here. }
  apply getColour_colourAt in Hv. rewrite Hv. cbn [mbind Res_bind expect].
  apply IH. intros p Hp. apply Hin. by apply list_elem_of_further.
Qed.

Lemma assertBlockColor_always_passes_witness :
  assertBlockColor demoGrid [(0, 0); (0, 1)] (Some "red") = Ok tt ∧
  assertBlockColor demoGrid [(0, 0); (0, 1)] None = Ok tt.
Proof.
  assert (wf demoGrid) as Hwf by (apply wfb_wf; vm_compute; reflexivity).
  assert (∀ p, p ∈ [(0, 0); (0, 1)] →
               withinBoundaries demoGrid p.1 p.2 = true) as Hin.
  { intros p [->|[->|[]%elem_of_nil]%elem_of_cons]%elem_of_cons;
      vm_compute; reflexivity. }
  split.
  - apply (assertBlockColor_always_passes demoGrid _ (Some "red"%string) Hwf Hin).
  - apply (assertBlockColor_always_passes demoGrid _ None Hwf Hin).
Defined.

(** ** Rendering *)

Lemma withChildren_id (e : Element) : withChildren e (el_children e) = e.
Proof. by destruct e. Qed.

Lemma withChildren_twice (e : Element) (l k : list Element) :
  withChildren (withChildren e l) k = withChildren e k.
Proof. by destruct e. Qed.

Lemma Forall2_exists {A B : Type} (R : A → B → Prop) (l : list A) :
  (∀ a, a ∈ l → ∃ b, R a b) → ∃ k, Forall2 R l k.
Proof.
  induction l as [|a l IH]; intros Hall; [by exists []|].
  destruct (Hall a) as [b Hb]; [apply list_elem_of_here|].
  destruct IH as [k Hk].
  { intros a' Ha'. apply Hall. by apply list_elem_of_further. }
  exists (b :: k). by constructor.
Qed.

Lemma forEachM_appendChild {A : Type} (f : A → Res Element) (l : list A)
    (es : list Element) :
  Forall2 (λ a e, f a = Ok e) l es →
  ∀ acc,
    forEachM (λ acc a, e ← f a; Ok (appendChild acc e)) acc l
    = Ok (withChildren acc (el_children acc ++ es)).
Proof.
  induction 1 as [|a e l es Ha _ IH]; intros acc; simpl.
  - by rewrite app_nil_r, withChildren_id.
  - rewrite Ha. simpl. rewrite IH. destruct acc. simpl. unfold push.
    by rewrite <-app_assoc.
Qed.

Lemma renderBlock_within g x y :
  wf g → withinBoundaries g x y = true →
  ∃ block v,
    gridAt g x y = Ok (Some block) ∧ colourAt g x y = Some v ∧
    renderBlock g x y
    = Ok (mkElement (blockId x y) "block" (Some v) [block] []).
Proof.
  intros Hwf Hin.
  destruct (wf_cell_within g Hwf x y Hin) as (col & l & b & Hcol & Hl & Hb & _).
  exists l, (Block.colour b). unfold renderBlock, colourAt, gridAt.
  rewrite Hcol. simpl. rewrite Hl. simpl. by rewrite Hb.
Qed.

Lemma renderColumn_spec g x :
  wf g → 0 ≤ x < width g →
  ∃ blocks,
    renderColumn g x = Ok (mkElement (columnId x) "col" None [] blocks) ∧
    Forall2 (shows g x) (reverse (seqZ 0 (height g))) blocks.
Proof.
  intros Hwf Hx.
  destruct (Forall2_exists (shows g x) (reverse (seqZ 0 (height g))))
    as [blocks Hblocks].
  { intros y Hy%elem_of_reverse%elem_of_seqZ.
    destruct (renderBlock_within g x y Hwf) as (block & v & Hg & Hv & _).
    { apply within_iff. lia. }
    by exists (mkElement (blockId x y) "block" (Some v) [block] []), block, v. }
  exists blocks. split; [|done].
  unfold renderColumn.
  rewrite (forEachM_appendChild (renderBlock g x) _ blocks); [done|].
  eapply Forall2_impl; [done|]. intros y e (block & v & Hg & Hv & ->).
  assert (withinBoundaries g x y = true) as Hin.
  { destruct (colourAt_coordinates g x y v Hwf Hv). by apply within_iff. }
  destruct (renderBlock_within g x y Hwf Hin) as (block' & v' & Hg' & Hv' & ->).
  congruence.
Qed.

Lemma render_spec g (e : Element) :
  wf g →
  ∃ cols,
    render g (Some e) = Ok (Some (withChildren e (el_children e ++ cols))) ∧
    Forall2 (λ x col, renderColumn g x = Ok col) (seqZ 0 (width g)) cols.
Proof.
  intros Hwf.
  destruct (Forall2_exists (λ x col, renderColumn g x = Ok col)
              (seqZ 0 (width g))) as [cols Hcols].
  { intros x Hx%elem_of_seqZ.
    destruct (renderColumn_spec g x Hwf) as (blocks & Hcol & _); [lia|].
    by eauto. }
  exists cols. split; [|done]. unfold render. revert e.
  induction Hcols as [|x col xs cols Hcol _ IH]; intros e; simpl.
  - by rewrite app_nil_r, withChildren_id.
  - rewrite Hcol. simpl. rewrite IH. destruct e. simpl. unfold push.
    by rewrite <-app_assoc.
Qed.

(** X18. Into an element that exists, [render] appends to whatever the
    element already holds, without clearing it, one column element for
    each column of the grid, in order.  Column [cx] has id [col_cx] and
    one child for each row, top row first: the child at position [k] is
    made for the block at row [height - 1 - k], with id
    [block_<cx>x<row>], that block's colour as background and a click
    listener on that very block. *)
Theorem render_appends_the_board (g : BlockGrid) (e : Element) :
  wf g →
  ∃ cols,
    render g (Some e) = Ok (Some (withChildren e (el_children e ++ cols))) ∧
    length cols = Z.to_nat (width g) ∧
    ∀ cx k : nat,
      Z.of_nat cx < width g → Z.of_nat k < height g →
      ∃ blocks block v,
        cols !! cx = Some (mkElement (columnId (Z.of_nat cx)) "col" None []
                                     blocks) ∧
        length blocks = Z.to_nat (height g) ∧
        gridAt g (Z.of_nat cx) (height g - 1 - Z.of_nat k) = Ok (Some block) ∧
        colourAt g (Z.of_nat cx) (height g - 1 - Z.of_nat k) = Some v ∧
        blocks !! k
        = Some (mkElement
                  (blockId (Z.of_nat cx) (height g - 1 - Z.of_nat k))
                  "block" (Some v) [block] []).
Proof.
  intros Hwf. destruct (render_spec g e Hwf) as (cols & Hrender & Hcols).
  exists cols. split; [done|].
  split; [by rewrite <-(Forall2_length _ _ _ Hcols), length_seqZ|].
  intros cx k Hcx Hk.
  destruct (Forall2_lookup_l _ _ _ cx (Z.of_nat cx) Hcols)
    as (col & Hcol & Hrun).
  { by rewrite lookup_seqZ_lt. }
  destruct (renderColumn_spec g (Z.of_nat cx) Hwf) as (blocks & Hrun' & Hblocks);
    [lia|].
  rewrite Hrun' in Hrun. injection Hrun as <-.
  destruct (Forall2_lookup_l _ _ _ k (height g - 1 - Z.of_nat k) Hblocks)
    as (b & Hb & block & v & Hg & Hv & ->).
  { rewrite reverse_lookup by (rewrite length_seqZ; lia).
    rewrite length_seqZ, lookup_seqZ. split; lia. }
  exists blocks, block, v. split; [done|].
  split; [by rewrite <-(Forall2_length _ _ _ Hblocks), length_reverse, length_seqZ|].
  done.
Qed.

Lemma render_appends_the_board_witness :
  ∃ cols,
    render demoGrid (Some (mkElement "gridEl" "" None [] []))
    = Ok (Some (withChildren (mkElement "gridEl" "" None [] []) ([] ++ cols))) ∧
    length cols = Z.to_nat (width demoGrid) ∧
    ∀ cx k : nat,
      Z.of_nat cx < width demoGrid → Z.of_nat k < height demoGrid →
      ∃ blocks block v,
        cols !! cx = Some (mkElement (columnId (Z.of_nat cx)) "col" None []
                                     blocks) ∧
        length blocks = Z.to_nat (height demoGrid) ∧
        gridAt demoGrid (Z.of_nat cx) (height demoGrid - 1 - Z.of_nat k)
        = Ok (Some block) ∧
        colourAt demoGrid (Z.of_nat cx) (height demoGrid - 1 - Z.of_nat k)
        = Some v ∧
        blocks !! k
        = Some (mkElement
                  (blockId (Z.of_nat cx) (height demoGrid - 1 - Z.of_nat k))
                  "block" (Some v) [block] []).
Proof.
  apply (render_appends_the_board demoGrid (mkElement "gridEl" "" None [] [])).
  apply wfb_wf; vm_compute; reflexivity.
Defined.

Lemma blockClicked_at g x y block fuel :
  wf g → gridAt g x y = Ok (Some block) →
  blockClicked fuel g block = clickAt fuel g x y.
Proof. intros Hwf Hg. unfold clickAt. by rewrite Hg. Qed.

Lemma gridAt_block g x y block :
  wf g → gridAt g x y = Ok (Some block) →
  ∃ b, store g !! block = Some b ∧ Block.x b = x ∧ Block.y b = y ∧
       colourAt g x y = Some (Block.colour b).
Proof.
  intros Hwf Hg. unfold gridAt in Hg.
  destruct (js_index (grid g) x) as [col|] eqn:Hcol; [|done].
  injection Hg as Hl.
  pose proof Hcol as Hcol'. pose proof Hl as Hl'.
  apply js_index_Some in Hcol' as [Hx Hcol'], Hl' as [Hy Hl'].
  destruct (wf_cells g Hwf _ _ _ _ Hcol' Hl') as [Hbx Hby].
  destruct (store g !! block) as [b|] eqn:Hb; [|done].
  simpl in Hbx, Hby. exists b. split; [done|].
  split; [injection Hbx; lia|]. split; [injection Hby; lia|].
  unfold colourAt. rewrite Hcol. simpl. rewrite Hl. simpl. by rewrite Hb.
Qed.

(** The method with its page calls, against the method without. *)
Lemma blockClicked_page_spec (fuel : nat) g x y block :
  wf g → gridAt g x y = Ok (Some block) → (budget g ≤ fuel)%nat →
  ∃ g' removed,
    clickAt fuel g x y = Ok (g', removed) ∧ wf g' ∧
    (colourAt g x y = Some None →
     g' = g ∧ removed = [] ∧
     ∀ page, blockClicked_page fuel g page block = Ok (g, page, [])) ∧
    (colourAt g x y ≠ Some None →
     blockClicked_page fuel g None block = Throw TypeError ∧
     ∀ e, blockClicked_page fuel g (Some e) block
          = (page ← render g' (Some (withChildren e []));
             Ok (g', page, removed))).
Proof.
  intros Hwf Hg Hfuel.
  destruct (gridAt_block g x y block Hwf Hg) as (b & Hb & Hx & Hy & Hv).
  unfold blockClicked_page. rewrite Hb, Hx, Hy.
  destruct (Block.colour b) as [c|] eqn:Hc.
  - destruct (clickAt_block fuel g x y c Hwf Hv Hfuel)
      as (g1 & g2 & removed & Hremove & Hshift & Hclick & _ & Hwf2 & _).
    exists g2, removed. split; [done|]. split; [done|].
    split; [intros H; congruence|]. intros _.
    rewrite bool_decide_eq_true_2 by done.
    rewrite Hremove. cbn [mbind Res_bind]. rewrite Hshift. by split.
  - exists g, []. split; [by apply clickAt_empty|]. split; [done|].
    split; [|done]. intros _. split; [done|]. split; [done|].
    intros page. by rewrite bool_decide_eq_false_2 by (intros H; by apply H).
Qed.

(** X19. The page calls at the end of [blockClicked] do not touch the
    grid: grid and removed-list are those of the method without them.
    After a click on a block the element [gridEl] keeps none of its old
    children and holds one fresh rendering of the new grid; without that
    element the click throws.  A click on an empty cell leaves the page,
    present or not, alone. *)
Theorem blockClicked_rerenders_the_page (fuel : nat) (g : BlockGrid)
    (x y : Z) (block : loc) :
  wf g → gridAt g x y = Ok (Some block) → (budget g ≤ fuel)%nat →
  ∃ g' removed,
    blockClicked fuel g block = Ok (g', removed) ∧
    (colourAt g x y = Some None →
     ∀ page, blockClicked_page fuel g page block = Ok (g, page, [])) ∧
    (colourAt g x y ≠ Some None →
     blockClicked_page fuel g None block = Throw TypeError ∧
     ∀ e, ∃ cols,
       render g' (Some (withChildren e [])) = Ok (Some (withChildren e cols)) ∧
       length cols = Z.to_nat (width g') ∧
       blockClicked_page fuel g (Some e) block
       = Ok (g', Some (withChildren e cols), removed)).
Proof.
  intros Hwf Hg Hfuel.
  destruct (blockClicked_page_spec fuel g x y block Hwf Hg Hfuel)
    as (g' & removed & Hclick & Hwf' & Hempty & Hblock).
  exists g', removed.
  split; [by rewrite (blockClicked_at g x y block fuel Hwf Hg)|].
  split; [intros Hv; by apply Hempty|].
  intros Hv. destruct (Hblock Hv) as [Hnone Hsome]. split; [done|].
  intros e.
  destruct (render_spec g' (withChildren e []) Hwf') as (cols & Hrender & Hcols).
  destruct e as [id cls bg ls ch]. simpl in Hrender.
  exists cols. split; [done|].
  split; [by rewrite <-(Forall2_length _ _ _ Hcols), length_seqZ|].
  rewrite Hsome. simpl. unfold withChildren at 1. simpl.
  unfold withChildren in Hrender. simpl in Hrender. by rewrite Hrender.
Qed.

Lemma blockClicked_rerenders_the_page_witness :
  ∃ g' removed,
    blockClicked 40 demoGrid 0 = Ok (g', removed) ∧
    (colourAt demoGrid 0 0 = Some None →
     ∀ page, blockClicked_page 40 demoGrid page 0 = Ok (demoGrid, page, [])) ∧
    (colourAt demoGrid 0 0 ≠ Some None →
     blockClicked_page 40 demoGrid None 0 = Throw TypeError ∧
     ∀ e, ∃ cols,
       render g' (Some (withChildren e [])) = Ok (Some (withChildren e cols)) ∧
       length cols = Z.to_nat (width g') ∧
       blockClicked_page 40 demoGrid (Some e) 0
       = Ok (g', Some (withChildren e cols), removed)).
Proof.
  apply (blockClicked_rerenders_the_page 40 demoGrid 0 0 0%nat).
  - apply wfb_wf; vm_compute; reflexivity.
  - vm_compute; reflexivity.
  - vm_compute; lia.
Defined.

(** ** Finding the element of a block *)

Lemma pretty_N_go_free (a : ascii) (n : N) (s : string) :
  (∀ d, pretty_N_char d ≠ a) →
  free_of a s = true → free_of a (pretty_N_go n s) = true.
Proof.
  intros Hdigit. revert s. induction (N.lt_wf_0 n) as [n _ IH]; intros s Hs.
  assert (n = 0 ∨ 0 < n)%N as [->|Hpos] by lia.
  - by rewrite pretty_N_go_0.
  - rewrite pretty_N_go_step by done. apply IH.
    + by apply N.div_lt.
    + simpl. rewrite Hs, andb_true_r.
      by rewrite bool_decide_eq_false_2 by apply Hdigit.
Qed.

Lemma pretty_Z_free (a : ascii) (z : Z) :
  (∀ d, pretty_N_char d ≠ a) → a ≠ "-"%char →
  free_of a (pretty z) = true.
Proof.
  intros Hdigit Hdash. destruct z as [|p|p].
  - simpl. rewrite andb_true_r.
    rewrite bool_decide_eq_false_2; [done|]. apply (Hdigit 0%N).
  - unfold pretty, pretty_Z, pretty, pretty_positive, pretty, pretty_N.
    by apply pretty_N_go_free.
  - unfold pretty, pretty_Z, pretty, pretty_positive, pretty, pretty_N.
    simpl. rewrite bool_decide_eq_false_2 by (intros H; by apply Hdash).
    by apply pretty_N_go_free.
Qed.

Lemma split_at (a : ascii) (s1 t1 s2 t2 : string) :
  free_of a s1 = true → free_of a t1 = true →
  s1 +:+ String a s2 = t1 +:+ String a t2 → s1 = t1 ∧ s2 = t2.
Proof.
  revert t1. induction s1 as [|b s1 IH]; intros [|b' t1] Hs Ht Heq;
    simpl in *.
  - by injection Heq.
  - injection Heq as <- _. by rewrite bool_decide_eq_true_2 in Ht.
  - injection Heq as -> _. by rewrite bool_decide_eq_true_2 in Hs.
  - injection Heq as -> Heq.
    apply andb_true_iff in Hs as [_ Hs]. apply andb_true_iff in Ht as [_ Ht].
    destruct (IH t1 Hs Ht Heq) as [-> ->]. done.
Qed.

Lemma digit_not_x (d : N) : pretty_N_char d ≠ "x"%char.
Proof. unfold pretty_N_char. by repeat case_match. Qed.

Lemma blockId_inj (x y x' y' : Z) :
  blockId x y = blockId x' y' → x = x' ∧ y = y'.
Proof.
  unfold blockId. intros Heq. simpl in Heq. injection Heq as Heq.
  apply (split_at "x") in Heq as [Hx Hy];
    [|by apply pretty_Z_free; [apply digit_not_x|]..].
  split; by apply (inj pretty).
Qed.

Lemma findById_unfold (id eid cls : string) bg ls (ch : list Element) :
  findById id (mkElement eid cls bg ls ch)
  = if decide (eid = id) then Some (mkElement eid cls bg ls ch)
    else findIn id ch.
Proof. done. Qed.

Lemma findIn_none (id : string) (l : list Element) :
  (∀ e, e ∈ l → findById id e = None) → findIn id l = None.
Proof.
  induction l as [|e l IH]; intros Hall; [done|]. simpl.
  rewrite Hall by apply list_elem_of_here. apply IH.
  intros e' He'. apply Hall. by apply list_elem_of_further.
Qed.

Lemma findIn_first (id : string) (l : list Element) (k : nat)
    (e found : Element) :
  l !! k = Some e → findById id e = Some found →
  (∀ i e', (i < k)%nat → l !! i = Some e' → findById id e' = None) →
  findIn id l = Some found.
Proof.
  revert k. induction l as [|e0 l IH]; intros k Hk Hfound Hbefore; [done|].
  destruct k as [|k]; simpl in *.
  - injection Hk as ->. by rewrite Hfound.
  - rewrite (Hbefore 0%nat e0) by (done || lia).
    apply (IH k); [done..|].
    intros i e' Hi He'. apply (Hbefore (S i) e'); [lia|done].
Qed.

Lemma findById_shown g x y x' y' (e : Element) :
  shows g x' y' e →
  findById (blockId x y) e = if decide ((x', y') = (x, y)) then Some e else None.
Proof.
  intros (block & v & _ & _ & ->). rewrite findById_unfold.
  destruct (decide ((x', y') = (x, y))) as [[= -> ->]|Hne].
  - by rewrite decide_True.
  - rewrite decide_False; [done|].
    intros [-> ->]%blockId_inj. done.
Qed.

Lemma findById_column g x y x' (col : Element) :
  wf g → 0 ≤ x' < width g → renderColumn g x' = Ok col →
  (x' ≠ x ∨ withinBoundaries g x y = false →
   findById (blockId x y) col = None) ∧
  (x' = x → withinBoundaries g x y = true →
   ∃ e, shows g x y e ∧ findById (blockId x y) col = Some e).
Proof.
  intros Hwf Hx' Hcol.
  destruct (renderColumn_spec g x' Hwf Hx') as (blocks & Hcol' & Hblocks).
  rewrite Hcol' in Hcol. injection Hcol as <-.
  assert (findById (blockId x y) (mkElement (columnId x') "col" None [] blocks)
          = findIn (blockId x y) blocks) as ->.
  { rewrite findById_unfold. by rewrite decide_False. }
  split.
  - intros Hother. apply findIn_none. intros e [k Hk]%list_elem_of_lookup_1.
    destruct (Forall2_lookup_r _ _ _ k e Hblocks Hk) as (y' & Hy' & Hshow).
    rewrite (findById_shown g x y x' y' e Hshow).
    rewrite decide_False; [done|]. intros [= -> ->].
    destruct Hother as [?|Hout]; [done|].
    destruct Hshow as (block & v & _ & Hv & _).
    destruct (colourAt_coordinates g x y v Hwf Hv).
    assert (withinBoundaries g x y = true) by (by apply within_iff).
    congruence.
  - intros -> [_ Hy]%within_iff.
    destruct (Forall2_lookup_l _ _ _ (Z.to_nat (height g - 1 - y)) y Hblocks)
      as (e & He & Hshow).
    { rewrite reverse_lookup by (rewrite length_seqZ; lia).
      rewrite length_seqZ, lookup_seqZ. split; lia. }
    exists e. split; [done|].
    apply (findIn_first _ _ (Z.to_nat (height g - 1 - y)) e); [done|..].
    + rewrite (findById_shown g x y x y e Hshow). by rewrite decide_True.
    + intros i e' Hi He'.
      destruct (Forall2_lookup_r _ _ _ i e' Hblocks He') as (y' & Hy' & Hshow').
      rewrite (findById_shown g x y x y' e' Hshow').
      rewrite decide_False; [done|]. intros [= ->].
      apply reverse_lookup_Some in Hy' as [Hy' _].
      rewrite length_seqZ in Hy'. apply lookup_seqZ in Hy' as [Hy' _]. lia.
Qed.

Lemma findIn_rendered g x y (cols : list Element) :
  wf g →
  Forall2 (λ x col, renderColumn g x = Ok col) (seqZ 0 (width g)) cols →
  (withinBoundaries g x y = false → findIn (blockId x y) cols = None) ∧
  (withinBoundaries g x y = true →
   ∃ e, shows g x y e ∧ findIn (blockId x y) cols = Some e).
Proof.
  intros Hwf Hcols.
  assert (∀ i col, cols !! i = Some col →
                   0 ≤ Z.of_nat i < width g ∧
                   renderColumn g (Z.of_nat i) = Ok col) as Hcol.
  { intros i col Hi.
    destruct (Forall2_lookup_r _ _ _ i col Hcols Hi) as (x' & Hx' & Hrun).
    apply lookup_seqZ in Hx' as [-> ?]. split; [lia|done]. }
  split.
  - intros Hout. apply findIn_none. intros col [i Hi]%list_elem_of_lookup_1.
    destruct (Hcol i col Hi) as [Hrange Hrun].
    apply (findById_column g x y (Z.of_nat i) col Hwf Hrange Hrun). by right.
  - intros Hin. pose proof Hin as [Hx _]%within_iff.
    destruct (Forall2_lookup_l _ _ _ (Z.to_nat x) x Hcols) as (col & Hi & Hrun).
    { rewrite lookup_seqZ. split; lia. }
    destruct (findById_column g x y x col Hwf Hx Hrun) as [_ Hfound].
    destruct (Hfound eq_refl Hin) as (e & Hshow & Hfind).
    exists e. split; [done|].
    apply (findIn_first _ _ (Z.to_nat x) col); [done..|].
    intros i col' Hlt Hi'. destruct (Hcol i col' Hi') as [Hrange Hrun'].
    apply (findById_column g x y (Z.of_nat i) col' Hwf Hrange Hrun').
    left. lia.
Qed.

(** X20. On a page freshly rendered into the element [gridEl], the id
    [block_<x>x<y>] of an in-bounds cell leads to an element whose only
    listener holds the block at [(x, y)]: [clickBlock] with that id does
    to the grid what the selection at [(x, y)] does and runs one
    listener.  The id of a coordinate outside the grid is not on the
    page, and [clickBlock] throws. *)
Theorem clickBlock_selects_the_cell (fuel : nat) (g : BlockGrid) (x y : Z)
    (e : Element) :
  wf g → el_id e = "gridEl"%string → (budget g ≤ fuel)%nat →
  ∃ page,
    render g (Some (withChildren e [])) = Ok (Some page) ∧
    (withinBoundaries g x y = false →
     clickBlock fuel g (Some page) (blockId x y) = Throw TypeError) ∧
    (withinBoundaries g x y = true →
     ∃ g' removed page',
       clickAt fuel g x y = Ok (g', removed) ∧
       clickBlock fuel g (Some page) (blockId x y)
       = Ok (g', page', [removed])).
Proof.
  intros Hwf Hid Hfuel.
  destruct (render_spec g (withChildren e []) Hwf) as (cols & Hrender & Hcols).
  destruct e as [id cls bg ls ch]. simpl in Hid. subst id.
  unfold withChildren in Hrender |- *. simpl in Hrender |- *.
  exists (mkElement "gridEl" cls bg ls cols). split; [done|].
  destruct (findIn_rendered g x y cols Hwf Hcols) as [Hmissing Hfound].
  assert (getElementById (blockId x y) (Some (mkElement "gridEl" cls bg ls cols))
          = findIn (blockId x y) cols) as Hget.
  { unfold getElementById. cbn [mbind option_bind].
    rewrite findById_unfold. by rewrite decide_False. }
  unfold clickBlock. rewrite Hget. split.
  - intros Hout. by rewrite (Hmissing Hout).
  - intros Hin. destruct (Hfound Hin) as (el & (block & v & Hg & Hv & ->) & ->).
    destruct (blockClicked_page_spec fuel g x y block Hwf Hg Hfuel)
      as (g' & removed & Hclick & Hwf' & Hempty & Hblock).
    cbn [el_listeners forEachM].
    destruct (decide (colourAt g x y = Some None)) as [Hnone|Hsome].
    + destruct (Hempty Hnone) as (-> & -> & Hpage). rewrite Hpage.
      by exists g, [], (Some (mkElement "gridEl" cls bg ls cols)).
    + destruct (Hblock Hsome) as [_ Hpage]. rewrite Hpage.
      destruct (render_spec g' (withChildren (mkElement "gridEl" cls bg ls cols) [])
                  Hwf') as (cols' & -> & _).
      cbn [mbind Res_bind]. by eauto.
Qed.

Lemma clickBlock_selects_the_cell_witness :
  ∃ page,
    render demoGrid (Some (withChildren (mkElement "gridEl" "" None [] []) []))
    = Ok (Some page) ∧
    (withinBoundaries demoGrid 0 2 = false →
     clickBlock 40 demoGrid (Some page) (blockId 0 2) = Throw TypeError) ∧
    (withinBoundaries demoGrid 0 2 = true →
     ∃ g' removed page',
       clickAt 40 demoGrid 0 2 = Ok (g', removed) ∧
       clickBlock 40 demoGrid (Some page) (blockId 0 2)
       = Ok (g', page', [removed])).
Proof.
  apply (clickBlock_selects_the_cell 40 demoGrid 0 2
           (mkElement "gridEl" "" None [] [])).
  - apply wfb_wf; vm_compute; reflexivity.
  - reflexivity.
  - vm_compute; lia.
Defined.
